(** * Cognee core engine: lifecycle, background loops and the query cache

    A shallow embedding of [cognee/core.py] ([CogneeCore]).  The methods of
    the class are [async def] coroutines: they mutate the fields of [self],
    call into collaborators (graph, search, cache, server, ...) and give up
    control at every [await].  The embedding keeps that shape:

    - [CogneeCore] is the record of the instance's fields;
    - a coroutine is a function from the current fields to a resumption
      tree ([res]): it either finishes (returning or raising) or stops at a
      call of something outside the class, exposing the fields as they are
      at that moment and waiting for the call's outcome;
    - [run] executes one coroutine to completion against an arbitrary
      environment; [sys_step] is the event loop, interleaving the caller
      with the background tasks created by [asyncio.create_task]. *)

From Stdlib Require Import Ascii QArith.
From stdpp Require Import base option list gmap strings pretty.

Local Open Scope string_scope.
Local Open Scope Z_scope.

(** ** Python values and exceptions *)

(** The exceptions that reach [core.py].  [except Exception] catches the
    first two; [CancelledError] (Python >= 3.8, which [setup.py] requires)
    and [KeyboardInterrupt] derive from [BaseException] only. *)
Inductive exn : Type :=
| Exception (msg : string)
| RuntimeError (msg : string)
| CancelledError
| KeyboardInterrupt.

Definition isinstance_Exception (e : exn) : bool :=
  match e with
  | Exception _ | RuntimeError _ => true
  | CancelledError | KeyboardInterrupt => false
  end.

Inductive outcome (X : Type) : Type :=
| Returns (x : X)
| Raises (e : exn).
Arguments Returns {X} x.
Arguments Raises {X} e.

(** Values stored in filter mappings and result items. *)
Inductive pyval : Type :=
| PyNone
| PyBool (b : bool)
| PyInt (z : Z)
| PyStr (s : string).

(** A [dict] with string keys keeps its pairs in insertion order. *)
Definition pydict : Type := list (string * pyval).

(** [List[Dict]], the result of a query. *)
Definition results : Type := list pydict.

(** ** Data model *)

(** [CogneeMetrics]; the [float] gauges are only copied from collaborators,
    they are carried as rationals. *)
Record CogneeMetrics : Type := {
  total_nodes : Z;
  total_edges : Z;
  graph_complexity : Q;
  processed_documents : Z;
  processing_time : Q;
  embeddings_generated : Z;
  search_queries : Z;
  average_response_time : Q;
  cache_hit_rate : Q;
  memory_usage : Q;
  cpu_usage : Q;
  gpu_usage : Q;
  provider_connections : Z;
  model_integrations : Z;
  api_requests : Z
}.

Definition CogneeMetrics_default : CogneeMetrics :=
  {| total_nodes := 0; total_edges := 0; graph_complexity := 0%Q;
     processed_documents := 0; processing_time := 0%Q; embeddings_generated := 0;
     search_queries := 0; average_response_time := 0%Q; cache_hit_rate := 0%Q;
     memory_usage := 0%Q; cpu_usage := 0%Q; gpu_usage := 0%Q;
     provider_connections := 0; model_integrations := 0; api_requests := 0 |}.

(** The part of [CogneeConfig] that [core.py] reads after construction:
    [config.dynamic_config], [config.metrics.collection_interval],
    [config.health.check_interval] and
    [config.performance.optimization_interval]. *)
Record CogneeConfig : Type := {
  dynamic_config : bool;
  collection_interval : Q;
  check_interval : Q;
  optimization_interval : Q
}.

Record HealthStatus : Type := { healthy : bool; health_detail : string }.
Record OptimizationResult : Type := { optimized : bool; optimization_detail : string }.

(** The collaborators initialised by [initialize], in the order of the source. *)
Inductive component : Type :=
| knowledge_graph | data_processor | embedding_manager | search_engine
| orchestrator | performance_optimizer | cache_manager | metrics_collector
| health_checker | api | server.

Global Instance component_eq_dec : EqDecision component.
Proof. solve_decision. Defined.

(** The [name=] given to [asyncio.create_task]. *)
Inductive loop_name : Type :=
| metrics_collection | health_monitoring | performance_optimization.

Global Instance loop_name_eq_dec : EqDecision loop_name.
Proof. solve_decision. Defined.

(** A task object, as stored in [self._background_tasks]: its number in
    the event loop. *)
Abbreviation handle := nat (only parsing).

(** ** Logging *)

Inductive level : Type := DEBUG | INFO | WARNING | ERROR.

Inductive log_arg : Type :=
| A_exn (e : exn)
| A_str (s : string)
| A_float (q : Q)
| A_len (n : nat)
| A_health (h : HealthStatus)
| A_result (r : OptimizationResult)
| A_host (h : option string)
| A_port (p : option Z).

(** One call of [self.logger.<level>(f"...")]: the text with its holes. *)
Record log_record : Type := { lvl : level; fmt : string; fmt_args : list log_arg }.

(** ** The instance *)

(** The fields of a [CogneeCore] instance.  The collaborators themselves
    ([self.knowledge_graph], ..., [self.server]) are outside the class and
    are reached through [call]s.  [_start_time] is what
    [hasattr(self, '_start_time')] looks for in [get_status]. *)
Record CogneeCore : Type := {
  config : CogneeConfig;
  logger : list log_record;
  _initialized : bool;
  _running : bool;
  _metrics : CogneeMetrics;
  _background_tasks : gset handle;
  _start_time : option Q
}.

(** [CogneeCore.__init__]. *)
Definition CogneeCore_init (cfg : CogneeConfig) : CogneeCore :=
  {| config := cfg;
     logger := [ {| lvl := INFO; fmt := "Cognee Core initialized"; fmt_args := [] |} ];
     _initialized := false;
     _running := false;
     _metrics := CogneeMetrics_default;
     _background_tasks := ∅;
     _start_time := None |}.

Definition set_config (c : CogneeConfig) (s : CogneeCore) : CogneeCore :=
  {| config := c; logger := logger s; _initialized := _initialized s;
     _running := _running s; _metrics := _metrics s;
     _background_tasks := _background_tasks s; _start_time := _start_time s |}.

Definition set_logger (l : list log_record) (s : CogneeCore) : CogneeCore :=
  {| config := config s; logger := l; _initialized := _initialized s;
     _running := _running s; _metrics := _metrics s;
     _background_tasks := _background_tasks s; _start_time := _start_time s |}.

Definition set_initialized (b : bool) (s : CogneeCore) : CogneeCore :=
  {| config := config s; logger := logger s; _initialized := b;
     _running := _running s; _metrics := _metrics s;
     _background_tasks := _background_tasks s; _start_time := _start_time s |}.

Definition set_running (b : bool) (s : CogneeCore) : CogneeCore :=
  {| config := config s; logger := logger s; _initialized := _initialized s;
     _running := b; _metrics := _metrics s;
     _background_tasks := _background_tasks s; _start_time := _start_time s |}.

Definition set_metrics (m : CogneeMetrics) (s : CogneeCore) : CogneeCore :=
  {| config := config s; logger := logger s; _initialized := _initialized s;
     _running := _running s; _metrics := m;
     _background_tasks := _background_tasks s; _start_time := _start_time s |}.

Definition set_background_tasks (t : gset handle) (s : CogneeCore) : CogneeCore :=
  {| config := config s; logger := logger s; _initialized := _initialized s;
     _running := _running s; _metrics := _metrics s;
     _background_tasks := t; _start_time := _start_time s |}.

(** Assignment to one field of [self._metrics]. *)
Definition set_total_nodes (v : Z) (m : CogneeMetrics) : CogneeMetrics :=
  {| total_nodes := v; total_edges := total_edges m; graph_complexity := graph_complexity
     m; processed_documents := processed_documents m; processing_time := processing_time
     m; embeddings_generated := embeddings_generated m; search_queries := search_queries
     m; average_response_time := average_response_time m; cache_hit_rate :=
     cache_hit_rate m; memory_usage := memory_usage m; cpu_usage := cpu_usage m;
     gpu_usage := gpu_usage m; provider_connections := provider_connections m;
     model_integrations := model_integrations m; api_requests := api_requests m |}.

Definition set_total_edges (v : Z) (m : CogneeMetrics) : CogneeMetrics :=
  {| total_nodes := total_nodes m; total_edges := v; graph_complexity := graph_complexity
     m; processed_documents := processed_documents m; processing_time := processing_time
     m; embeddings_generated := embeddings_generated m; search_queries := search_queries
     m; average_response_time := average_response_time m; cache_hit_rate :=
     cache_hit_rate m; memory_usage := memory_usage m; cpu_usage := cpu_usage m;
     gpu_usage := gpu_usage m; provider_connections := provider_connections m;
     model_integrations := model_integrations m; api_requests := api_requests m |}.

Definition set_graph_complexity (v : Q) (m : CogneeMetrics) : CogneeMetrics :=
  {| total_nodes := total_nodes m; total_edges := total_edges m; graph_complexity := v;
     processed_documents := processed_documents m; processing_time := processing_time m;
     embeddings_generated := embeddings_generated m; search_queries := search_queries m;
     average_response_time := average_response_time m; cache_hit_rate := cache_hit_rate
     m; memory_usage := memory_usage m; cpu_usage := cpu_usage m; gpu_usage := gpu_usage
     m; provider_connections := provider_connections m; model_integrations :=
     model_integrations m; api_requests := api_requests m |}.

Definition set_processing_time (v : Q) (m : CogneeMetrics) : CogneeMetrics :=
  {| total_nodes := total_nodes m; total_edges := total_edges m; graph_complexity :=
     graph_complexity m; processed_documents := processed_documents m; processing_time :=
     v; embeddings_generated := embeddings_generated m; search_queries := search_queries
     m; average_response_time := average_response_time m; cache_hit_rate :=
     cache_hit_rate m; memory_usage := memory_usage m; cpu_usage := cpu_usage m;
     gpu_usage := gpu_usage m; provider_connections := provider_connections m;
     model_integrations := model_integrations m; api_requests := api_requests m |}.

Definition set_embeddings_generated (v : Z) (m : CogneeMetrics) : CogneeMetrics :=
  {| total_nodes := total_nodes m; total_edges := total_edges m; graph_complexity :=
     graph_complexity m; processed_documents := processed_documents m; processing_time :=
     processing_time m; embeddings_generated := v; search_queries := search_queries m;
     average_response_time := average_response_time m; cache_hit_rate := cache_hit_rate
     m; memory_usage := memory_usage m; cpu_usage := cpu_usage m; gpu_usage := gpu_usage
     m; provider_connections := provider_connections m; model_integrations :=
     model_integrations m; api_requests := api_requests m |}.

Definition set_search_queries (v : Z) (m : CogneeMetrics) : CogneeMetrics :=
  {| total_nodes := total_nodes m; total_edges := total_edges m; graph_complexity :=
     graph_complexity m; processed_documents := processed_documents m; processing_time :=
     processing_time m; embeddings_generated := embeddings_generated m; search_queries :=
     v; average_response_time := average_response_time m; cache_hit_rate :=
     cache_hit_rate m; memory_usage := memory_usage m; cpu_usage := cpu_usage m;
     gpu_usage := gpu_usage m; provider_connections := provider_connections m;
     model_integrations := model_integrations m; api_requests := api_requests m |}.

Definition set_average_response_time (v : Q) (m : CogneeMetrics) : CogneeMetrics :=
  {| total_nodes := total_nodes m; total_edges := total_edges m; graph_complexity :=
     graph_complexity m; processed_documents := processed_documents m; processing_time :=
     processing_time m; embeddings_generated := embeddings_generated m; search_queries :=
     search_queries m; average_response_time := v; cache_hit_rate := cache_hit_rate m;
     memory_usage := memory_usage m; cpu_usage := cpu_usage m; gpu_usage := gpu_usage m;
     provider_connections := provider_connections m; model_integrations :=
     model_integrations m; api_requests := api_requests m |}.

Definition set_cache_hit_rate (v : Q) (m : CogneeMetrics) : CogneeMetrics :=
  {| total_nodes := total_nodes m; total_edges := total_edges m; graph_complexity :=
     graph_complexity m; processed_documents := processed_documents m; processing_time :=
     processing_time m; embeddings_generated := embeddings_generated m; search_queries :=
     search_queries m; average_response_time := average_response_time m; cache_hit_rate
     := v; memory_usage := memory_usage m; cpu_usage := cpu_usage m; gpu_usage :=
     gpu_usage m; provider_connections := provider_connections m; model_integrations :=
     model_integrations m; api_requests := api_requests m |}.

Definition set_memory_usage (v : Q) (m : CogneeMetrics) : CogneeMetrics :=
  {| total_nodes := total_nodes m; total_edges := total_edges m; graph_complexity :=
     graph_complexity m; processed_documents := processed_documents m; processing_time :=
     processing_time m; embeddings_generated := embeddings_generated m; search_queries :=
     search_queries m; average_response_time := average_response_time m; cache_hit_rate
     := cache_hit_rate m; memory_usage := v; cpu_usage := cpu_usage m; gpu_usage :=
     gpu_usage m; provider_connections := provider_connections m; model_integrations :=
     model_integrations m; api_requests := api_requests m |}.

Definition set_cpu_usage (v : Q) (m : CogneeMetrics) : CogneeMetrics :=
  {| total_nodes := total_nodes m; total_edges := total_edges m; graph_complexity :=
     graph_complexity m; processed_documents := processed_documents m; processing_time :=
     processing_time m; embeddings_generated := embeddings_generated m; search_queries :=
     search_queries m; average_response_time := average_response_time m; cache_hit_rate
     := cache_hit_rate m; memory_usage := memory_usage m; cpu_usage := v; gpu_usage :=
     gpu_usage m; provider_connections := provider_connections m; model_integrations :=
     model_integrations m; api_requests := api_requests m |}.

Definition set_gpu_usage (v : Q) (m : CogneeMetrics) : CogneeMetrics :=
  {| total_nodes := total_nodes m; total_edges := total_edges m; graph_complexity :=
     graph_complexity m; processed_documents := processed_documents m; processing_time :=
     processing_time m; embeddings_generated := embeddings_generated m; search_queries :=
     search_queries m; average_response_time := average_response_time m; cache_hit_rate
     := cache_hit_rate m; memory_usage := memory_usage m; cpu_usage := cpu_usage m;
     gpu_usage := v; provider_connections := provider_connections m; model_integrations
     := model_integrations m; api_requests := api_requests m |}.

Definition set_provider_connections (v : Z) (m : CogneeMetrics) : CogneeMetrics :=
  {| total_nodes := total_nodes m; total_edges := total_edges m; graph_complexity :=
     graph_complexity m; processed_documents := processed_documents m; processing_time :=
     processing_time m; embeddings_generated := embeddings_generated m; search_queries :=
     search_queries m; average_response_time := average_response_time m; cache_hit_rate
     := cache_hit_rate m; memory_usage := memory_usage m; cpu_usage := cpu_usage m;
     gpu_usage := gpu_usage m; provider_connections := v; model_integrations :=
     model_integrations m; api_requests := api_requests m |}.

Definition set_model_integrations (v : Z) (m : CogneeMetrics) : CogneeMetrics :=
  {| total_nodes := total_nodes m; total_edges := total_edges m; graph_complexity :=
     graph_complexity m; processed_documents := processed_documents m; processing_time :=
     processing_time m; embeddings_generated := embeddings_generated m; search_queries :=
     search_queries m; average_response_time := average_response_time m; cache_hit_rate
     := cache_hit_rate m; memory_usage := memory_usage m; cpu_usage := cpu_usage m;
     gpu_usage := gpu_usage m; provider_connections := provider_connections m;
     model_integrations := v; api_requests := api_requests m |}.

Definition set_api_requests (v : Z) (m : CogneeMetrics) : CogneeMetrics :=
  {| total_nodes := total_nodes m; total_edges := total_edges m; graph_complexity :=
     graph_complexity m; processed_documents := processed_documents m; processing_time :=
     processing_time m; embeddings_generated := embeddings_generated m; search_queries :=
     search_queries m; average_response_time := average_response_time m; cache_hit_rate
     := cache_hit_rate m; memory_usage := memory_usage m; cpu_usage := cpu_usage m;
     gpu_usage := gpu_usage m; provider_connections := provider_connections m;
     model_integrations := model_integrations m; api_requests := v |}.

(** ** Rendering values: [repr], [str] and f-string holes *)

Definition squote : ascii := "'"%char.
Definition dquote : ascii := "034"%char.
Definition backslash : ascii := "\"%char.

Definition hex_digit (n : N) : ascii :=
  (if n <? 10 then ascii_of_N (48 + n) else ascii_of_N (87 + n))%N.

Fixpoint contains (a : ascii) (s : string) : bool :=
  match s with
  | EmptyString => false
  | String b s' => if Ascii.eqb a b then true else contains a s'
  end.

(** [repr] of one character inside a string literal delimited by [quote]
    (CPython's [unicode_repr]; bytes above 0x7f are taken to belong to
    printable characters and are kept). *)
Definition repr_char (quote : ascii) (a : ascii) : string :=
  let n := N_of_ascii a in
  if Ascii.eqb a quote || Ascii.eqb a backslash then String backslash (String a EmptyString)
  else if (n =? 9)%N then String backslash "t"
  else if (n =? 10)%N then String backslash "n"
  else if (n =? 13)%N then String backslash "r"
  else if (n <? 32)%N || (n =? 127)%N then
    String backslash (String "x" (String (hex_digit (n / 16)) (String (hex_digit (n mod 16)) EmptyString)))
  else String a EmptyString.

Fixpoint repr_chars (quote : ascii) (s : string) : string :=
  match s with
  | EmptyString => EmptyString
  | String a s' => repr_char quote a +:+ repr_chars quote s'
  end.

(** [repr(s)] for a [str]: single quotes, unless the text has a single
    quote and no double quote. *)
Definition repr_str (s : string) : string :=
  let quote := if contains squote s && negb (contains dquote s) then dquote else squote in
  String quote (repr_chars quote s +:+ String quote EmptyString).

Definition repr_val (v : pyval) : string :=
  match v with
  | PyNone => "None"
  | PyBool true => "True"
  | PyBool false => "False"
  | PyInt z => pretty z
  | PyStr s => repr_str s
  end.

Definition repr_item (kv : string * pyval) : string :=
  repr_str kv.1 +:+ ": " +:+ repr_val kv.2.

Fixpoint join (sep : string) (l : list string) : string :=
  match l with
  | [] => ""
  | [x] => x
  | x :: l' => x +:+ sep +:+ join sep l'
  end.

(** [str(d)] for a [dict]: the items in insertion order. *)
Definition str_dict (d : pydict) : string :=
  "{" +:+ join ", " (repr_item <$> d) +:+ "}".

(** [str(filters)] for [filters: Optional[Dict]]. *)
Definition str_filters (filters : option pydict) : string :=
  match filters with
  | None => "None"
  | Some d => str_dict d
  end.

(** [f"{limit}"] for [limit: Optional[int]]. *)
Definition str_limit (limit : option Z) : string :=
  match limit with
  | None => "None"
  | Some n => pretty n
  end.

(** Python truth value of what [cache_manager.get] gave back: [None] and
    the empty list are false. *)
Definition truthy (cached_result : option results) : bool :=
  match cached_result with
  | Some (_ :: _) => true
  | Some [] | None => false
  end.

(** ** Calls that leave the class *)

(** Everything [core.py] calls outside [CogneeCore], indexed by the type of
    what comes back.  The collaborators' modules ([graph], [search],
    [cache], [monitoring], [optimization], [api], [config]) are not part of
    the embedded file: their answers are chosen by the environment. *)
Inductive call : Type → Type :=
| initialize_of (c : component) : call unit
| node_count : call Z
| edge_count : call Z
| complexity_score : call Q
| average_processing_time : call Q
| total_embeddings : call Z
| total_queries : call Z
| search_average_response_time : call Q
| hit_rate : call Q
| optimizer_memory_usage : call Q
| optimizer_cpu_usage : call Q
| optimizer_gpu_usage : call Q
| total_requests : call Z
| collect (m : CogneeMetrics) : call unit
| check_health : call HealthStatus
| optimize : call OptimizationResult
| optimizer_get_status : call string
| cache_get (key : string) : call (option results)
| cache_set (key : string) (value : results) : call unit
| semantic_search (query : string) (filters : option pydict) (limit : option Z) : call results
| server_start (host : option string) (port : option Z) : call unit
| server_stop : call unit
| time_time : call Q
| HostProfile_detect : call string
| optimize_config (profile : string) (cfg : CogneeConfig) : call CogneeConfig
| config_update (cfg optimized : CogneeConfig) : call CogneeConfig
| config_to_dict (cfg : CogneeConfig) : call CogneeConfig
| create_task (name : loop_name) : call handle
| task_cancel (t : handle) : call bool
| gather (ts : list handle) : call unit
| asyncio_sleep (delay : Q) : call unit.

(** ** Coroutines *)

(** Where a coroutine stands: finished, with the fields as it left them, or
    stopped at a call.  [awaited] tells an [await] (the event loop may run
    other tasks before the outcome arrives, and they may change the fields)
    from a plain call.  The continuation gets the call's outcome and the
    fields as they are when the coroutine goes on. *)
Inductive res (A : Type) : Type :=
| Finished (o : outcome A) (s : CogneeCore)
| Calling (awaited : bool) {X : Type} (c : call X) (s : CogneeCore)
    (k : outcome X → CogneeCore → res A).
Arguments Finished {A} o s.
Arguments Calling {A} awaited {X} c s k.

Definition coro (A : Type) : Type := CogneeCore → res A.

Fixpoint res_bind {A B : Type} (r : res A) (f : A → coro B) : res B :=
  match r with
  | Finished (Returns a) s => f a s
  | Finished (Raises e) s => Finished (Raises e) s
  | Calling aw c s k => Calling aw c s (λ o s', res_bind (k o s') f)
  end.

Global Instance coro_ret : MRet coro := λ A a s, Finished (Returns a) s.
Global Instance coro_bind : MBind coro := λ A B f m s, res_bind (m s) f.

Definition raise {A : Type} (e : exn) : coro A := λ s, Finished (Raises e) s.
Definition get_self : coro CogneeCore := λ s, Finished (Returns s) s.
Definition modify (f : CogneeCore → CogneeCore) : coro unit := λ s, Finished (Returns tt) (f s).

(** [await c] and a plain call [c]; an exception raised by the callee is
    raised at the call. *)
Definition await {X : Type} (c : call X) : coro X :=
  λ s, Calling true c s (λ o s', Finished o s').
Definition invoke {X : Type} (c : call X) : coro X :=
  λ s, Calling false c s (λ o s', Finished o s').

(** [try: body / except Exception as e: handler e]. *)
Fixpoint res_try {A : Type} (r : res A) (handler : exn → coro A) : res A :=
  match r with
  | Finished (Returns a) s => Finished (Returns a) s
  | Finished (Raises e) s =>
      if isinstance_Exception e then handler e s else Finished (Raises e) s
  | Calling aw c s k => Calling aw c s (λ o s', res_try (k o s') handler)
  end.

Definition try_except {A : Type} (body : coro A) (handler : exn → coro A) : coro A :=
  λ s, res_try (body s) handler.

(** [for x in l: body x]. *)
Fixpoint for_each {X : Type} (l : list X) (body : X → coro unit) : coro unit :=
  match l with
  | [] => mret tt
  | x :: l' => body x;; for_each l' body
  end.

(** [self.logger.<lv>(f"...")]. *)
Definition log (lv : level) (text : string) (args : list log_arg) : coro unit :=
  modify (λ s, set_logger (logger s ++ [ {| lvl := lv; fmt := text; fmt_args := args |} ]) s).

(** [self._metrics.<field> = v]. *)
Definition assign_metric {V : Type} (set_field : V → CogneeMetrics → CogneeMetrics) (v : V)
  : coro unit :=
  modify (λ s, set_metrics (set_field v (_metrics s)) s).

(** ** Lifecycle *)

(** [_apply_host_optimization].  [optimize_config] stands for building the
    [HostOptimizer] from the profile and calling its [optimize_config];
    [config_update] answers with the configuration as [self.config.update]
    leaves it. *)
Definition _apply_host_optimization : coro unit :=
  try_except
    (host_profile ← invoke HostProfile_detect;
     s ← get_self;
     optimized_config ← invoke (optimize_config host_profile (config s));
     s ← get_self;
     updated ← invoke (config_update (config s) optimized_config);
     modify (set_config updated);;
     log INFO "Applied host-aware optimization: {}" [A_str host_profile])
    (λ e, log WARNING "Host optimization failed: {}" [A_exn e]).

(** [_start_background_tasks]: the three loops become tasks of the event
    loop; each handle is added to [self._background_tasks]. *)
Definition start_task (name : loop_name) : coro unit :=
  task ← invoke (create_task name);
  modify (λ s, set_background_tasks ({[ task ]} ∪ _background_tasks s) s).

Definition _start_background_tasks : coro unit :=
  start_task metrics_collection;;
  start_task health_monitoring;;
  start_task performance_optimization;;
  log INFO "Background tasks started" [].

(** The order in which [initialize] awaits the collaborators' [initialize]. *)
Definition initialization_order : list component :=
  [ knowledge_graph; data_processor; embedding_manager; search_engine; orchestrator;
    performance_optimizer; cache_manager; metrics_collector; health_checker;
    api; server ].

(** [initialize].  [start_time] is a local variable of the method. *)
Definition initialize : coro bool :=
  s ← get_self;
  if _initialized s then mret true
  else
    try_except
      (log INFO "Initializing Cognee components..." [];;
       start_time ← invoke time_time;
       s ← get_self;
       (if dynamic_config (config s) then _apply_host_optimization else mret tt);;
       await (initialize_of knowledge_graph);;
       await (initialize_of data_processor);;
       await (initialize_of embedding_manager);;
       await (initialize_of search_engine);;
       await (initialize_of orchestrator);;
       await (initialize_of performance_optimizer);;
       await (initialize_of cache_manager);;
       await (initialize_of metrics_collector);;
       await (initialize_of health_checker);;
       await (initialize_of api);;
       await (initialize_of server);;
       _start_background_tasks;;
       modify (set_initialized true);;
       now ← invoke time_time;
       let initialization_time := (now - start_time)%Q in
       log INFO "Cognee initialized successfully in {:.2f}s" [A_float initialization_time];;
       mret true)
      (λ e, log ERROR "Failed to initialize Cognee: {}" [A_exn e];; mret false).

(** [start_api]. *)
Definition start_api (host : option string) (port : option Z) : coro unit :=
  s ← get_self;
  if negb (_initialized s) then raise (RuntimeError "Cognee not initialized")
  else
    try_except
      (modify (set_running true);;
       await (server_start host port);;
       log INFO "Cognee API started on {}:{}" [A_host host; A_port port])
      (λ e,
         log ERROR "Failed to start API: {}" [A_exn e];;
         modify (set_running false);;
         raise e).

(** [stop_api]. *)
Definition stop_api : coro unit :=
  try_except
    (modify (set_running false);;
     s ← get_self;
     for_each (elements (_background_tasks s)) (λ task, invoke (task_cancel task);; mret tt);;
     s ← get_self;
     await (gather (elements (_background_tasks s)));;
     await server_stop;;
     log INFO "Cognee API stopped" [])
    (λ e, log ERROR "Failed to stop API: {}" [A_exn e]).

(** ** Background loops

    Each loop is [while self._running: <iteration>].  The iteration is the
    guarded block followed by the sleep; the test of [self._running]
    between two iterations is made by the task ([task_step] below). *)

Definition _get_provider_connections : coro Z :=
  s ← get_self; mret (provider_connections (_metrics s)).

Definition _get_model_integrations : coro Z :=
  s ← get_self; mret (model_integrations (_metrics s)).

Definition _handle_health_issue (health_status : HealthStatus) : coro unit := mret tt.

Definition _apply_performance_optimizations (optimization_result : OptimizationResult)
  : coro unit := mret tt.

Definition _collect_metrics_try : coro unit :=
  try_except
    (await node_count ≫= assign_metric set_total_nodes;;
     await edge_count ≫= assign_metric set_total_edges;;
     await complexity_score ≫= assign_metric set_graph_complexity;;
     await average_processing_time ≫= assign_metric set_processing_time;;
     await total_embeddings ≫= assign_metric set_embeddings_generated;;
     await total_queries ≫= assign_metric set_search_queries;;
     await search_average_response_time ≫= assign_metric set_average_response_time;;
     await hit_rate ≫= assign_metric set_cache_hit_rate;;
     await optimizer_memory_usage ≫= assign_metric set_memory_usage;;
     await optimizer_cpu_usage ≫= assign_metric set_cpu_usage;;
     await optimizer_gpu_usage ≫= assign_metric set_gpu_usage;;
     _get_provider_connections ≫= assign_metric set_provider_connections;;
     _get_model_integrations ≫= assign_metric set_model_integrations;;
     await total_requests ≫= assign_metric set_api_requests;;
     s ← get_self;
     await (collect (_metrics s)))
    (λ e, log ERROR "Metrics collection failed: {}" [A_exn e]).

Definition _health_monitoring_try : coro unit :=
  try_except
    (health_status ← await check_health;
     if negb (healthy health_status) then
       log WARNING "Health check failed: {}" [A_health health_status];;
       _handle_health_issue health_status
     else mret tt)
    (λ e, log ERROR "Health monitoring failed: {}" [A_exn e]).

Definition _performance_optimization_try : coro unit :=
  try_except
    (optimization_result ← await optimize;
     if optimized optimization_result then
       log INFO "Performance optimization applied: {}" [A_result optimization_result];;
       _apply_performance_optimizations optimization_result
     else mret tt)
    (λ e, log ERROR "Performance optimization failed: {}" [A_exn e]).

(** The guarded block of a loop, its error message, and its interval. *)
Definition loop_try (name : loop_name) : coro unit :=
  match name with
  | metrics_collection => _collect_metrics_try
  | health_monitoring => _health_monitoring_try
  | performance_optimization => _performance_optimization_try
  end.

Definition loop_interval (name : loop_name) (cfg : CogneeConfig) : Q :=
  match name with
  | metrics_collection => collection_interval cfg
  | health_monitoring => check_interval cfg
  | performance_optimization => optimization_interval cfg
  end.

(** One pass through the body of [while self._running:]. *)
Definition loop_iteration (name : loop_name) : coro unit :=
  loop_try name;;
  s ← get_self;
  await (asyncio_sleep (loop_interval name (config s))).

Definition _collect_metrics_loop_iteration : coro unit := loop_iteration metrics_collection.
Definition _health_monitoring_loop_iteration : coro unit := loop_iteration health_monitoring.
Definition _performance_optimization_loop_iteration : coro unit :=
  loop_iteration performance_optimization.

(** ** Status *)

Record Status : Type := {
  st_initialized : bool;
  st_running : bool;
  st_metrics : CogneeMetrics;
  st_health : HealthStatus;
  st_performance : string;
  st_config : CogneeConfig;
  st_uptime : Q
}.

(** [get_status].  The dict display is evaluated left to right; ["metrics"]
    is the [_metrics] object itself, read here when the dict is returned.
    The conditional expression tests [hasattr] before it reads the clock. *)
Definition get_status : coro Status :=
  s0 ← get_self;
  health ← await check_health;
  performance ← await optimizer_get_status;
  s1 ← get_self;
  config_dict ← invoke (config_to_dict (config s1));
  s2 ← get_self;
  uptime ← match _start_time s2 with
            | Some t0 => now ← invoke time_time; mret (now - t0)%Q
            | None => mret 0%Q
            end;
  s3 ← get_self;
  mret {| st_initialized := _initialized s0;
          st_running := _running s0;
          st_metrics := _metrics s3;
          st_health := health;
          st_performance := performance;
          st_config := config_dict;
          st_uptime := uptime |}.

(** [get_metrics]. *)
Definition get_metrics (s : CogneeCore) : CogneeMetrics := _metrics s.

(** ** The query pipeline *)

Section Query.

(** The builtin [hash] on [str]: a 64-bit integer, fixed for the life of
    the process. *)
Variable hash : string → Z.

(** [f"query:{query}:{hash(str(filters))}:{limit}"]. *)
Definition cache_key (query : string) (filters : option pydict) (limit : option Z) : string :=
  "query:" +:+ query +:+ ":" +:+ pretty (hash (str_filters filters)) +:+ ":" +:+ str_limit limit.

(** [query_knowledge]. *)
Definition query_knowledge (query : string) (filters : option pydict) (limit : option Z)
  : coro results :=
  s ← get_self;
  if negb (_initialized s) then raise (RuntimeError "Cognee not initialized")
  else
    try_except
      (let cache_key := cache_key query filters limit in
       cached_result ← await (cache_get cache_key);
       if truthy cached_result then
         log DEBUG "Cache hit for query: {}" [A_str query];;
         mret (default [] cached_result)
       else
         results ← await (semantic_search query filters limit);
         await (cache_set cache_key results);;
         modify (λ s', set_metrics
                       (set_search_queries (search_queries (_metrics s') + 1) (_metrics s'))
                       s');;
         mret results)
      (λ e, log ERROR "Failed to query knowledge: {}" [A_exn e];; raise e).

End Query.

(** ** Running one coroutine against an environment *)

(** A call together with its outcome. *)
Inductive event : Type :=
| Ev {X : Type} (c : call X) (o : outcome X).

Record ran (A W : Type) : Type := {
  value : outcome A;
  self_after : CogneeCore;
  world_after : W;
  trace : list event
}.
Arguments value {A W} r.
Arguments self_after {A W} r.
Arguments world_after {A W} r.
Arguments trace {A W} r.

(** An environment: a state and the outcome it gives to each call. *)
Definition responder (W : Type) : Type := ∀ X : Type, call X → W → outcome X * W.

(** [run respond r w]: the coroutine runs alone (nothing else touches the
    fields while it awaits); every call is answered by the environment. *)
Fixpoint run {W A : Type} (respond : responder W) (r : res A) (w : W) : ran A W :=
  match r with
  | Finished o s => {| value := o; self_after := s; world_after := w; trace := [] |}
  | Calling _ c s k =>
      let ow := respond _ c w in
      let r' := run respond (k ow.1 s) ow.2 in
      {| value := value r'; self_after := self_after r'; world_after := world_after r';
         trace := Ev c ow.1 :: trace r' |}
  end.

Definition is_initialize_of (x : component) (e : event) : bool :=
  match e with
  | Ev c _ => match c with initialize_of y => bool_decide (x = y) | _ => false end
  end.

Definition is_create_task (e : event) : bool :=
  match e with
  | Ev c _ => match c with create_task _ => true | _ => false end
  end.

Definition is_semantic_search (e : event) : bool :=
  match e with
  | Ev c _ => match c with semantic_search _ _ _ => true | _ => false end
  end.

Definition is_cache_set (e : event) : bool :=
  match e with
  | Ev c _ => match c with cache_set _ _ => true | _ => false end
  end.

Fixpoint count (p : event → bool) (tr : list event) : nat :=
  match tr with
  | [] => 0
  | e :: tr' => (if p e then 1 else 0) + count p tr'
  end.

(** ** The event loop

    [asyncio.create_task] hands a loop to the event loop; from then on the
    caller's coroutine and the three tasks take turns, each running from
    one [await] to the next. *)

(** Where a task stands.  [AtTop]: created and not yet started, about to
    test [while self._running].  [Awaiting c k]: inside an iteration,
    stopped at the awaited call [c].  [Returned]: the [while] test failed and
    the coroutine returned.  [Failed e]: [e] left the coroutine (for
    [CancelledError], the task is cancelled). *)
Inductive task_status : Type :=
| AtTop
| Awaiting {X : Type} (c : call X) (k : outcome X → CogneeCore → res unit)
| Returned
| Failed (e : exn).

Record task : Type := {
  t_name : loop_name;
  t_status : task_status;
  t_must_cancel : bool
}.

Definition terminated (st : task_status) : bool :=
  match st with
  | Returned | Failed _ => true
  | AtTop | Awaiting _ _ => false
  end.

Definition new_task (name : loop_name) : task :=
  {| t_name := name; t_status := AtTop; t_must_cancel := false |}.

Definition with_status (st : task_status) (t : task) : task :=
  {| t_name := t_name t; t_status := st; t_must_cancel := false |}.

(** [task.cancel()]: a finished task ignores it; otherwise the event loop
    throws [CancelledError] into the task when it next runs. *)
Definition request_cancel (t : task) : task :=
  {| t_name := t_name t; t_status := t_status t; t_must_cancel := true |}.

(** The lifecycle methods a caller may invoke, and what they give back. *)
Inductive op : Type :=
| op_initialize
| op_start_api (host : option string) (port : option Z)
| op_stop_api.

Inductive op_value : Type :=
| V_bool (b : bool)
| V_none.

Definition op_coro (o : op) : coro op_value :=
  match o with
  | op_initialize => b ← initialize; mret (V_bool b)
  | op_start_api host port => start_api host port;; mret V_none
  | op_stop_api => stop_api;; mret V_none
  end.

(** The caller: between two methods, or stopped at an [await] inside one. *)
Inductive main_status : Type :=
| Idle
| MainAwaiting (o : op) {X : Type} (c : call X) (k : outcome X → CogneeCore → res op_value).

Record system (W : Type) : Type := {
  sys_self : CogneeCore;
  sys_world : W;
  sys_tasks : list task;
  sys_main : main_status;
  sys_returned : list (op * outcome op_value);
  sys_trace : list event
}.
Arguments sys_self {W} s.
Arguments sys_world {W} s.
Arguments sys_tasks {W} s.
Arguments sys_main {W} s.
Arguments sys_returned {W} s.
Arguments sys_trace {W} s.

(** How far a coroutine gets when it is given the processor. *)
Inductive pause (A : Type) : Type :=
| Done (o : outcome A)
| AtAwait {X : Type} (c : call X) (k : outcome X → CogneeCore → res A).
Arguments Done {A} o.
Arguments AtAwait {A} {X} c k.

Record advanced (A W : Type) : Type := {
  adv_pause : pause A;
  adv_self : CogneeCore;
  adv_world : W;
  adv_tasks : list task;
  adv_events : list event
}.
Arguments adv_pause {A W} a.
Arguments adv_self {A W} a.
Arguments adv_world {A W} a.
Arguments adv_tasks {A W} a.
Arguments adv_events {A W} a.

Definition task_done (ts : list task) (h : handle) : bool :=
  match ts !! h with
  | Some t => terminated (t_status t)
  | None => true
  end.

(** Whose turn it is: the caller invokes a method, the caller goes on from
    its [await], or task [h] runs. *)
Inductive turn : Type :=
| Invoke (o : op)
| RunMain
| RunTask (h : handle).

Section EventLoop.

Context {W : Type} (respond : responder W).

(** A call that is not awaited is answered on the spot: by the event loop
    for [create_task] and [cancel], by the environment otherwise. *)
Definition plain_call {X : Type} (c : call X) (w : W) (ts : list task)
  : outcome X * W * list task :=
  match c in call X return outcome X * W * list task with
  | create_task name => (Returns (length ts), w, (ts ++ [new_task name])%list)
  | task_cancel h =>
      match ts !! h with
      | Some t =>
          if terminated (t_status t) then (Returns false, w, ts)
          else (Returns true, w, <[h := request_cancel t]> ts)
      | None => (Returns false, w, ts)
      end
  | c' => let ow := respond _ c' w in (ow.1, ow.2, ts)
  end.

(** The outcome of an awaited call, when it is ready: [asyncio.sleep]
    returns; [gather(..., return_exceptions=True)] returns once every task
    it was given is finished; a collaborator answers. *)
Definition awaited_outcome {X : Type} (c : call X) (w : W) (ts : list task)
  : option (outcome X * W) :=
  match c in call X return option (outcome X * W) with
  | asyncio_sleep _ => Some (Returns tt, w)
  | gather hs => if forallb (task_done ts) hs then Some (Returns tt, w) else None
  | c' => Some (respond _ c' w)
  end.

(** Run a coroutine up to its next [await] (or its end). *)
Fixpoint advance {A : Type} (r : res A) (w : W) (ts : list task) : advanced A W :=
  match r with
  | Finished o s =>
      {| adv_pause := Done o; adv_self := s; adv_world := w; adv_tasks := ts;
         adv_events := [] |}
  | Calling true c s k =>
      {| adv_pause := AtAwait c k; adv_self := s; adv_world := w; adv_tasks := ts;
         adv_events := [] |}
  | Calling false c s k =>
      let '(o, w', ts') := plain_call c w ts in
      let a := advance (k o s) w' ts' in
      {| adv_pause := adv_pause a; adv_self := adv_self a; adv_world := adv_world a;
         adv_tasks := adv_tasks a; adv_events := Ev c o :: adv_events a |}
  end.

(** The status of a loop task after it ran: an iteration that ended
    normally leaves it at the [while] test. *)
Definition status_of (p : pause unit) : task_status :=
  match p with
  | Done (Returns _) => AtTop
  | Done (Raises e) => Failed e
  | AtAwait c k => Awaiting c k
  end.

Definition put_task (h : handle) (st : task_status) (a : advanced unit W)
    (evs : list event) (sys : system W) : system W :=
  {| sys_self := adv_self a;
     sys_world := adv_world a;
     sys_tasks := alter (with_status st) h (adv_tasks a);
     sys_main := sys_main sys;
     sys_returned := sys_returned sys;
     sys_trace := sys_trace sys ++ evs ++ adv_events a |}.

(** [while self._running:] — the test, then the iteration up to its first
    [await]. *)
Definition enter_loop (h : handle) (name : loop_name) (s : CogneeCore) (w : W)
    (ts : list task) (evs : list event) (sys : system W) : system W :=
  if _running s then
    let a := advance (loop_iteration name s) w ts in
    put_task h (status_of (adv_pause a)) a evs sys
  else
    put_task h Returned
      {| adv_pause := Done (Returns tt); adv_self := s; adv_world := w; adv_tasks := ts;
         adv_events := [] |} evs sys.

(** The task goes on from the [await] it stopped at, with outcome [o]. *)
Definition resume_task (h : handle) (name : loop_name) {X : Type} (c : call X)
    (k : outcome X → CogneeCore → res unit) (o : outcome X) (w : W) (evs : list event)
    (sys : system W) : system W :=
  let a := advance (k o (sys_self sys)) w (sys_tasks sys) in
  match adv_pause a with
  | Done (Returns _) =>
      enter_loop h name (adv_self a) (adv_world a) (adv_tasks a) (evs ++ adv_events a) sys
  | p => put_task h (status_of p) a evs sys
  end.

(** The event loop runs task [h]. *)
Definition task_step (h : handle) (sys : system W) : option (system W) :=
  t ← sys_tasks sys !! h;
  match t_status t with
  | Returned | Failed _ => None
  | AtTop =>
      if t_must_cancel t then
        Some (put_task h (Failed CancelledError)
                {| adv_pause := Done (Raises CancelledError); adv_self := sys_self sys;
                   adv_world := sys_world sys; adv_tasks := sys_tasks sys;
                   adv_events := [] |} [] sys)
      else
        Some (enter_loop h (t_name t) (sys_self sys) (sys_world sys) (sys_tasks sys) [] sys)
  | Awaiting c k =>
      if t_must_cancel t then
        Some (resume_task h (t_name t) c k (Raises CancelledError) (sys_world sys)
                [Ev c (Raises CancelledError)] sys)
      else
        ow ← awaited_outcome c (sys_world sys) (sys_tasks sys);
        Some (resume_task h (t_name t) c k ow.1 ow.2 [Ev c ow.1] sys)
  end.

Definition put_main (o : op) (a : advanced op_value W) (evs : list event) (sys : system W)
  : system W :=
  {| sys_self := adv_self a;
     sys_world := adv_world a;
     sys_tasks := adv_tasks a;
     sys_main := match adv_pause a with
                 | Done _ => Idle
                 | AtAwait c k => MainAwaiting o c k
                 end;
     sys_returned := match adv_pause a with
                     | Done r => sys_returned sys ++ [(o, r)]
                     | AtAwait _ _ => sys_returned sys
                     end;
     sys_trace := sys_trace sys ++ evs ++ adv_events a |}.

(** The caller invokes a method (it must not be inside another one). *)
Definition invoke_step (o : op) (sys : system W) : option (system W) :=
  match sys_main sys with
  | Idle =>
      Some (put_main o (advance (op_coro o (sys_self sys)) (sys_world sys) (sys_tasks sys))
              [] sys)
  | MainAwaiting _ _ _ => None
  end.

(** The caller goes on from its [await]. *)
Definition main_step (sys : system W) : option (system W) :=
  match sys_main sys with
  | Idle => None
  | MainAwaiting o c k =>
      ow ← awaited_outcome c (sys_world sys) (sys_tasks sys);
      Some (put_main o (advance (k ow.1 (sys_self sys)) ow.2 (sys_tasks sys))
              [Ev c ow.1] sys)
  end.

Definition sys_step (ch : turn) (sys : system W) : option (system W) :=
  match ch with
  | Invoke o => invoke_step o sys
  | RunMain => main_step sys
  | RunTask h => task_step h sys
  end.

Fixpoint exec (schedule : list turn) (sys : system W) : option (system W) :=
  match schedule with
  | [] => Some sys
  | ch :: rest => sys' ← sys_step ch sys; exec rest sys'
  end.

(** A fresh instance: nothing invoked, no task. *)
Definition boot (cfg : CogneeConfig) (w : W) : system W :=
  {| sys_self := CogneeCore_init cfg; sys_world := w; sys_tasks := [];
     sys_main := Idle; sys_returned := []; sys_trace := [] |}.

End EventLoop.

(** ** A scripted environment *)

(** Modelled from the spec: the collaborators of section 6, whose modules
    are not part of the embedded file.  The cache is the mapping behind
    [get(key) → value|miss] and [set(key, value)]; the search collaborator
    answers every query with [sim_found]; a collaborator listed in
    [sim_failing] raises from its [initialize]; the server's [start] raises
    when [sim_server_down]; the clock advances by one second per reading.
    It only serves to run the code on concrete inputs: the theorems below
    hold for every environment. *)
Record sim : Type := {
  sim_cache : gmap string results;
  sim_found : results;
  sim_failing : list component;
  sim_server_down : bool;
  sim_healthy : bool;
  sim_clock : Q;
  sim_next_task : nat
}.

Definition sim_set_cache (m : gmap string results) (w : sim) : sim :=
  {| sim_cache := m; sim_found := sim_found w; sim_failing := sim_failing w;
     sim_server_down := sim_server_down w; sim_healthy := sim_healthy w;
     sim_clock := sim_clock w; sim_next_task := sim_next_task w |}.

Definition sim_tick (w : sim) : sim :=
  {| sim_cache := sim_cache w; sim_found := sim_found w; sim_failing := sim_failing w;
     sim_server_down := sim_server_down w; sim_healthy := sim_healthy w;
     sim_clock := (sim_clock w + 1)%Q; sim_next_task := sim_next_task w |}.

Definition sim_spawn (w : sim) : sim :=
  {| sim_cache := sim_cache w; sim_found := sim_found w; sim_failing := sim_failing w;
     sim_server_down := sim_server_down w; sim_healthy := sim_healthy w;
     sim_clock := sim_clock w; sim_next_task := S (sim_next_task w) |}.

Definition sim_respond : responder sim :=
  λ X c, match c in call X return sim → outcome X * sim with
  | initialize_of x =>
      λ w, if bool_decide (x ∈ sim_failing w)
           then (Raises (Exception "initialize failed"), w) else (Returns tt, w)
  | node_count | edge_count | total_embeddings | total_queries | total_requests =>
      λ w, (Returns 0, w)
  | complexity_score | average_processing_time | search_average_response_time | hit_rate
  | optimizer_memory_usage | optimizer_cpu_usage | optimizer_gpu_usage =>
      λ w, (Returns 0%Q, w)
  | collect _ => λ w, (Returns tt, w)
  | check_health =>
      λ w, if sim_healthy w
           then (Returns {| healthy := true; health_detail := "ok" |}, w)
           else (Raises (Exception "probe failed"), w)
  | optimize => λ w, (Returns {| optimized := false; optimization_detail := "" |}, w)
  | optimizer_get_status => λ w, (Returns "idle", w)
  | cache_get key => λ w, (Returns (sim_cache w !! key), w)
  | cache_set key v => λ w, (Returns tt, sim_set_cache (<[key := v]> (sim_cache w)) w)
  | semantic_search _ _ _ => λ w, (Returns (sim_found w), w)
  | server_start _ _ =>
      λ w, if sim_server_down w
           then (Raises (Exception "address in use"), w) else (Returns tt, w)
  | server_stop => λ w, (Returns tt, w)
  | time_time => λ w, (Returns (sim_clock w), sim_tick w)
  | HostProfile_detect => λ w, (Returns "host", w)
  | optimize_config _ cfg => λ w, (Returns cfg, w)
  | config_update _ optimized => λ w, (Returns optimized, w)
  | config_to_dict cfg => λ w, (Returns cfg, w)
  | create_task _ => λ w, (Returns (sim_next_task w), sim_spawn w)
  | task_cancel _ => λ w, (Returns true, w)
  | gather _ => λ w, (Returns tt, w)
  | asyncio_sleep _ => λ w, (Returns tt, w)
  end.

Definition sim_config : CogneeConfig :=
  {| dynamic_config := false; collection_interval := 60%Q; check_interval := 30%Q;
     optimization_interval := 300%Q |}.

Definition sim_world : sim :=
  {| sim_cache := ∅; sim_found := [[("id", PyStr "n1")]]; sim_failing := [];
     sim_server_down := false; sim_healthy := true; sim_clock := 1000%Q;
     sim_next_task := 0 |}.

(** A stand-in for the builtin [hash], used on concrete inputs only: the
    polynomial string hash of CPython 2 without the final folding. *)
Fixpoint sim_hash_from (acc : Z) (s : string) : Z :=
  match s with
  | EmptyString => acc
  | String a s' =>
      sim_hash_from (Z.lxor (1000003 * acc) (Z.of_N (N_of_ascii a)) mod 2 ^ 63) s'
  end.

Definition sim_hash (s : string) : Z := sim_hash_from 0 s.

(** ** Reading traces and trees *)

(** A call, whatever the type of its outcome. *)
Definition some_call {X : Type} (c : call X) : sigT call := existT X c.

(** The call of an event, without its outcome. *)
Definition the_call (e : event) : sigT call :=
  match e with Ev c _ => some_call c end.

Definition returned (e : event) : bool :=
  match e with
  | Ev _ (Returns _) => true
  | Ev _ (Raises _) => false
  end.

(** The collaborator whose [initialize] the event awaited. *)
Definition initialized_component (e : event) : option component :=
  match e with
  | Ev c _ => match c with initialize_of x => Some x | _ => None end
  end.

(** A collaborator's [initialize] raised an instance of [Exception]. *)
Definition init_raised (e : event) : bool :=
  match e with
  | Ev c (Raises x) =>
      match c with initialize_of _ => isinstance_Exception x | _ => false end
  | Ev _ (Returns _) => false
  end.

Definition is_sleep {X : Type} (c : call X) : bool :=
  match c with asyncio_sleep _ => true | _ => false end.

(** The calls answered by [asyncio] rather than by a collaborator. *)
Definition asyncio_call {X : Type} (c : call X) : bool :=
  match c with
  | create_task _ | task_cancel _ | gather _ | asyncio_sleep _ => true
  | _ => false
  end.

(** The first collaborator call of a loop's iteration. *)
Definition polls_first (name : loop_name) {X : Type} (c : call X) : bool :=
  match name, c with
  | metrics_collection, node_count => true
  | health_monitoring, check_health => true
  | performance_optimization, optimize => true
  | _, _ => false
  end.

(** The task has begun an iteration of its loop. *)
Definition begun_iteration (t : task) : bool :=
  match t_status t with
  | Awaiting c _ => polls_first (t_name t) c
  | _ => false
  end.

(** The task sleeps for [delay]. *)
Definition sleeping_for (delay : Q) (t : task) : Prop :=
  match t_status t with
  | Awaiting c _ => match c with asyncio_sleep d => d = delay | _ => False end
  | _ => False
  end.

(** The task stands at the top of its loop: not started yet, or in the
    sleep that ends an iteration. *)
Definition at_loop_top (t : task) : bool :=
  match t_status t with
  | AtTop => true
  | Awaiting c _ => is_sleep c
  | _ => false
  end.

(** The message each loop logs when an iteration fails. *)
Definition loop_error_text (name : loop_name) : string :=
  match name with
  | metrics_collection => "Metrics collection failed: {}"
  | health_monitoring => "Health monitoring failed: {}"
  | performance_optimization => "Performance optimization failed: {}"
  end.

Definition loop_error_record (name : loop_name) (e : exn) : log_record :=
  {| lvl := ERROR; fmt := loop_error_text name; fmt_args := [A_exn e] |}.

(** [r] is the guarded block of an iteration, or what is left of it: it
    only awaits collaborators, and an exception raised by one of them is
    raised by the block at once. *)
Fixpoint in_try (r : res unit) : Prop :=
  match r with
  | Finished _ _ => True
  | Calling aw c _ k =>
      aw = true ∧ asyncio_call c = false ∧
      (∀ e s', k (Raises e) s' = Finished (Raises e) s') ∧
      (∀ o s', in_try (k o s'))
  end.

Definition sleep_delay {X : Type} (c : call X) : option Q :=
  match c with asyncio_sleep d => Some d | _ => None end.

(** The continuation [k] of an awaited call [c] inside an iteration of
    loop [name]: after the sleep the iteration is over; after a collaborator
    call what is left satisfies [rest], and an [Exception] raised by the
    collaborator is logged and followed by the sleep of the configured
    interval. *)
Definition node_ok (rest : res unit → Prop) (name : loop_name) {X : Type} (c : call X)
    (k : outcome X → CogneeCore → res unit) : Prop :=
  match c in call X return (outcome X → CogneeCore → res unit) → Prop with
  | asyncio_sleep _ => λ k, ∀ o s', k o s' = Finished o s'
  | create_task _ | task_cancel _ | gather _ => λ _, False
  | _ =>
      λ k, (∀ o s', rest (k o s')) ∧
           (∀ e s', isinstance_Exception e = true →
              k (Raises e) s' =
              Calling true (asyncio_sleep (loop_interval name (config s')))
                (set_logger (logger s' ++ [loop_error_record name e]) s')
                (λ o s'', Finished o s''))
  end k.

(** [r] is an iteration of loop [name], or what is left of it: it ends
    with the sleep of the configured interval, unless an exception that is
    not an [Exception] leaves it. *)
Fixpoint in_iteration (name : loop_name) (r : res unit) : Prop :=
  match r with
  | Finished (Returns _) _ => False
  | Finished (Raises e) _ => isinstance_Exception e = false
  | Calling aw c s k =>
      aw = true ∧
      (∀ d, sleep_delay c = Some d → d = loop_interval name (config s)) ∧
      node_ok (in_iteration name) name c k
  end.

(** What the event loop holds for a task that is inside an iteration. *)
Definition task_ok (t : task) : Prop :=
  match t_status t with
  | Awaiting c k => node_ok (in_iteration (t_name t)) (t_name t) c k
  | _ => True
  end.

(** The scripted system after a schedule. *)
Definition sim_after (w : sim) (schedule : list turn) : option (system sim) :=
  exec sim_respond schedule (boot sim_config w).

(** The event loop holds every task inside its loop. *)
Definition tasks_ok (ts : list task) : Prop := Forall task_ok ts.

(** A status in which the loop has not ended, unless by an exception that
    is not an [Exception]. *)
Definition never_ends_loop (st : task_status) : Prop :=
  match st with
  | AtTop | Returned => False
  | Failed e => isinstance_Exception e = false
  | Awaiting _ _ => True
  end.

(** The outcome of a call, without the value it returned. *)
Definition forget_value {X : Type} (o : outcome X) : outcome unit :=
  match o with
  | Returns _ => Returns tt
  | Raises e => Raises e
  end.

(** [later tr r]: the run [r], made after the calls [tr]. *)
Definition later {A W : Type} (tr : list event) (r : ran A W) : ran A W :=
  {| value := value r; self_after := self_after r; world_after := world_after r;
     trace := tr ++ trace r |}.

(** The fields with which a coroutine ends, whatever the answers. *)
Fixpoint ends_with {A : Type} (P : CogneeCore → Prop) (r : res A) : Prop :=
  match r with
  | Finished _ s => P s
  | Calling _ _ s k => ∀ o, ends_with P (k o s)
  end.

(** ** Concrete runs *)

(** Where a task stands, without its continuation. *)
Inductive phase : Type :=
| NotStarted
| InCall
| Sleeping (delay : Q)
| HasReturned
| HasFailed (e : exn).

Definition phase_of (t : task) : phase :=
  match t_status t with
  | AtTop => NotStarted
  | Awaiting c _ => match sleep_delay c with Some d => Sleeping d | None => InCall end
  | Returned => HasReturned
  | Failed e => HasFailed e
  end.

(** An event of a background loop: a poll of a collaborator it starts an
    iteration with, or its sleep. *)
Definition is_loop_event (e : event) : bool :=
  match e with
  | Ev c _ =>
      polls_first metrics_collection c || polls_first health_monitoring c
      || polls_first performance_optimization c || is_sleep c
  end.

(** [await core.initialize()], each [await] of a collaborator answered in
    turn. *)
Definition schedule_initialize : list turn :=
  Invoke op_initialize :: replicate 11 RunMain.

(** [await core.initialize(); await asyncio.sleep(0); await core.start_api()]:
    the caller gives the event loop a turn between the two methods, so the
    three tasks run before [start_api]. *)
Definition schedule_yield : list turn :=
  schedule_initialize
  ++ [RunTask 0; RunTask 1; RunTask 2; Invoke (op_start_api None None); RunMain].

(** [await core.initialize(); await core.start_api()] with no turn given in
    between; the health loop then polls once and goes to sleep. *)
Definition schedule_started : list turn :=
  schedule_initialize ++ [Invoke (op_start_api None None); RunMain; RunTask 1].

(** The same, then [stop_api] is invoked while the health loop sleeps. *)
Definition schedule_stopping : list turn :=
  schedule_started ++ [RunTask 1; Invoke op_stop_api].

(** The scripted system after a schedule (the fresh system when the
    schedule cannot be followed). *)
Definition sim_state (w : sim) (schedule : list turn) : system sim :=
  default (boot sim_config w) (sim_after w schedule).

(** The environment in which the health probe raises. *)
Definition sim_unhealthy : sim :=
  {| sim_cache := ∅; sim_found := []; sim_failing := []; sim_server_down := false;
     sim_healthy := false; sim_clock := 0%Q; sim_next_task := 0 |}.

(** The environment in which the embedding manager cannot be initialised. *)
Definition sim_broken : sim :=
  {| sim_cache := ∅; sim_found := []; sim_failing := [embedding_manager];
     sim_server_down := false; sim_healthy := true; sim_clock := 0%Q; sim_next_task := 0 |}.

(** The environment in which the server cannot be started. *)
Definition sim_down : sim :=
  {| sim_cache := ∅; sim_found := []; sim_failing := []; sim_server_down := true;
     sim_healthy := true; sim_clock := 0%Q; sim_next_task := 3 |}.

(** The scripted environment with the first collaborator of every loop
    failing: the graph's [node_count], the health probe and the optimiser
    raise. *)
Definition sim_respond_degraded : responder sim :=
  λ X c, match c in call X return sim → outcome X * sim with
  | node_count => λ w, (Raises (Exception "graph offline"), w)
  | check_health => λ w, (Raises (Exception "probe failed"), w)
  | optimize => λ w, (Raises (Exception "optimizer offline"), w)
  | c' => sim_respond _ c'
  end.

(** [await core.initialize(); await core.start_api()], then each loop gets
    a turn and stops at its first collaborator call. *)
Definition schedule_polling : list turn :=
  schedule_initialize
  ++ [Invoke (op_start_api None None); RunMain; RunTask 0; RunTask 1; RunTask 2].

(** The system after [schedule_polling] in the degraded environment. *)
Definition sim_degraded : system sim :=
  default (boot sim_config sim_world)
    (exec sim_respond_degraded schedule_polling (boot sim_config sim_world)).

(** An initialised instance, as [initialize] leaves it in [sim_world]. *)
Definition sim_initialized : ran bool sim :=
  run sim_respond (initialize (CogneeCore_init sim_config)) sim_world.

(** Two filter mappings with the same pairs, inserted in different orders. *)
Definition filters_ab : pydict := [("a", PyInt 1); ("b", PyInt 2)].
Definition filters_ba : pydict := [("b", PyInt 2); ("a", PyInt 1)].

(** The environment after [query_knowledge("x", filters_ab, 10)] has stored
    its result. *)
Definition sim_cached_ab : sim :=
  world_after
    (run sim_respond
       (query_knowledge sim_hash "x" (Some filters_ab) (Some 10) (self_after sim_initialized))
       (world_after sim_initialized)).

(** An environment whose cache holds the empty result list for
    [query_knowledge("x", {}, 10)]. *)
Definition sim_cached_empty : sim :=
  sim_set_cache {[ cache_key sim_hash "x" (Some []) (Some 10) := [] ]} sim_world.

(** ** The context manager *)

(** [__aenter__]: the result of [initialize] is dropped; what is returned
    is the instance itself. *)
Definition __aenter__ : coro unit :=
  initialize;;
  mret tt.

(** [__aexit__]: returns [None], so an exception of the [async with] body
    is not suppressed. *)
Definition __aexit__ : coro unit :=
  s ← get_self;
  if _running s then stop_api else mret tt.

(** ** Knowledge, insights and integrations

    [add_knowledge], [get_insights], [integrate_provider] and
    [integrate_model] call methods of the collaborators that the lifecycle
    and the loops do not use. *)

(** [data: Union[str, Dict, List]]. *)
Inductive knowledge : Type :=
| K_str (text : string)
| K_dict (d : pydict)
| K_list (items : list pyval).

(** What [data_processor.process] and
    [embedding_manager.generate_embeddings] give back; [core.py] only hands
    them on. *)
Definition ProcessedData : Type := list pydict.
Definition Embeddings : Type := list (list Q).

(** The calls of [core.py]: those above and the ones of the pipelines. *)
Inductive xcall : Type → Type :=
| core {X : Type} (c : call X) : xcall X
| process (data : knowledge) (metadata : option pydict) : xcall ProcessedData
| generate_embeddings (processed_data : ProcessedData) : xcall Embeddings
| add_nodes (processed_data : ProcessedData) (embeddings : Embeddings) : xcall (list string)
| cache_knowledge (node_ids : list string) (processed_data : ProcessedData) : xcall unit
| analyze (analysis_type : string) (parameters : option pydict) : xcall pydict
| orchestrator_integrate_provider (provider_name : string) (provider_config : pydict)
  : xcall pyval
| orchestrator_integrate_model (provider_name model_name : string) (model_config : pydict)
  : xcall pyval.

(** Resumption trees over [xcall], with the same reading as [res]. *)
Inductive xres (A : Type) : Type :=
| XFinished (o : outcome A) (s : CogneeCore)
| XCalling (awaited : bool) {X : Type} (c : xcall X) (s : CogneeCore)
    (k : outcome X → CogneeCore → xres A).
Arguments XFinished {A} o s.
Arguments XCalling {A} awaited {X} c s k.

Definition xcoro (A : Type) : Type := CogneeCore → xres A.

Fixpoint xres_bind {A B : Type} (r : xres A) (f : A → xcoro B) : xres B :=
  match r with
  | XFinished (Returns a) s => f a s
  | XFinished (Raises e) s => XFinished (Raises e) s
  | XCalling aw c s k => XCalling aw c s (λ o s', xres_bind (k o s') f)
  end.

Global Instance xcoro_ret : MRet xcoro := λ A a s, XFinished (Returns a) s.
Global Instance xcoro_bind : MBind xcoro := λ A B f m s, xres_bind (m s) f.

(** A coroutine over [call] is one over [xcall]. *)
Fixpoint lift_res {A : Type} (r : res A) : xres A :=
  match r with
  | Finished o s => XFinished o s
  | Calling aw c s k => XCalling aw (core c) s (λ o s', lift_res (k o s'))
  end.

Definition lift {A : Type} (m : coro A) : xcoro A := λ s, lift_res (m s).

Definition xawait {X : Type} (c : xcall X) : xcoro X :=
  λ s, XCalling true c s (λ o s', XFinished o s').

(** [try: body / except Exception as e: handler e]. *)
Fixpoint xres_try {A : Type} (r : xres A) (handler : exn → xcoro A) : xres A :=
  match r with
  | XFinished (Returns a) s => XFinished (Returns a) s
  | XFinished (Raises e) s =>
      if isinstance_Exception e then handler e s else XFinished (Raises e) s
  | XCalling aw c s k => XCalling aw c s (λ o s', xres_try (k o s') handler)
  end.

Definition xtry_except {A : Type} (body : xcoro A) (handler : exn → xcoro A) : xcoro A :=
  λ s, xres_try (body s) handler.

Definition set_processed_documents (v : Z) (m : CogneeMetrics) : CogneeMetrics :=
  {| total_nodes := total_nodes m; total_edges := total_edges m; graph_complexity :=
     graph_complexity m; processed_documents := v; processing_time := processing_time m;
     embeddings_generated := embeddings_generated m; search_queries := search_queries m;
     average_response_time := average_response_time m; cache_hit_rate := cache_hit_rate
     m; memory_usage := memory_usage m; cpu_usage := cpu_usage m; gpu_usage := gpu_usage
     m; provider_connections := provider_connections m; model_integrations :=
     model_integrations m; api_requests := api_requests m |}.

(** [add_knowledge]. *)
Definition add_knowledge (data : knowledge) (metadata : option pydict)
  : xcoro (list string) :=
  s ← lift get_self;
  if negb (_initialized s) then lift (raise (RuntimeError "Cognee not initialized"))
  else
    xtry_except
      (processed_data ← xawait (process data metadata);
       embeddings ← xawait (generate_embeddings processed_data);
       node_ids ← xawait (add_nodes processed_data embeddings);
       xawait (cache_knowledge node_ids processed_data);;
       lift (modify (λ s', set_metrics
                             (set_processed_documents
                                (processed_documents (_metrics s') + 1) (_metrics s'))
                             s'));;
       lift (log INFO "Added {} knowledge nodes" [A_len (length node_ids)]);;
       mret node_ids)
      (λ e, lift (log ERROR "Failed to add knowledge: {}" [A_exn e]);; lift (raise e)).

(** The dict returned by [_generate_ai_insights]. *)
Record AIInsights : Type := {
  ai_analysis : string;
  recommendations : list pyval;
  confidence_scores : pydict;
  related_concepts : list pyval
}.

(** The dict returned by [get_insights]. *)
Record Insights : Type := {
  in_graph_insights : pydict;
  in_ai_insights : AIInsights;
  in_analysis_type : string;
  in_parameters : option pydict;
  in_timestamp : Q
}.

(** [_generate_ai_insights]. *)
Definition _generate_ai_insights (graph_insights : pydict) : xcoro AIInsights :=
  mret {| ai_analysis := "Advanced AI insights would be generated here";
          recommendations := [];
          confidence_scores := [];
          related_concepts := [] |}.

(** [get_insights]. *)
Definition get_insights (analysis_type : string) (parameters : option pydict)
  : xcoro Insights :=
  s ← lift get_self;
  if negb (_initialized s) then lift (raise (RuntimeError "Cognee not initialized"))
  else
    xtry_except
      (insights ← xawait (analyze analysis_type parameters);
       ai_insights ← _generate_ai_insights insights;
       timestamp ← lift (invoke time_time);
       let combined_insights :=
         {| in_graph_insights := insights;
            in_ai_insights := ai_insights;
            in_analysis_type := analysis_type;
            in_parameters := parameters;
            in_timestamp := timestamp |} in
       lift (log INFO "Generated insights for {}" [A_str analysis_type]);;
       mret combined_insights)
      (λ e, lift (log ERROR "Failed to generate insights: {}" [A_exn e]);; lift (raise e)).

(** Python truth value of what the orchestrator gives back for an
    integration. *)
Definition bool_of (v : pyval) : bool :=
  match v with
  | PyNone => false
  | PyBool b => b
  | PyInt z => negb (z =? 0)
  | PyStr s => negb (String.eqb s "")
  end.

Definition _configure_provider_integration (provider_name : string) (integration : pyval)
  : xcoro unit := mret tt.

Definition _configure_model_integration (provider_name model_name : string)
    (integration : pyval) : xcoro unit := mret tt.

(** [integrate_provider]. *)
Definition integrate_provider (provider_name : string) (provider_config : pydict)
  : xcoro bool :=
  xtry_except
    (integration ← xawait (orchestrator_integrate_provider provider_name provider_config);
     if bool_of integration then
       _configure_provider_integration provider_name integration;;
       lift (log INFO "Successfully integrated provider: {}" [A_str provider_name]);;
       mret true
     else mret false)
    (λ e,
       lift (log ERROR "Failed to integrate provider {}: {}" [A_str provider_name; A_exn e]);;
       mret false).

(** [integrate_model]. *)
Definition integrate_model (provider_name model_name : string) (model_config : pydict)
  : xcoro bool :=
  xtry_except
    (integration ← xawait (orchestrator_integrate_model provider_name model_name model_config);
     if bool_of integration then
       _configure_model_integration provider_name model_name integration;;
       lift (log INFO "Successfully integrated model: {}/{}"
               [A_str provider_name; A_str model_name]);;
       mret true
     else mret false)
    (λ e,
       lift (log ERROR "Failed to integrate model {}/{}: {}"
               [A_str provider_name; A_str model_name; A_exn e]);;
       mret false).

(** A call of a pipeline together with its outcome. *)
Inductive xevent : Type :=
| XEv {X : Type} (c : xcall X) (o : outcome X).

Record xran (A W : Type) : Type := {
  xvalue : outcome A;
  xself_after : CogneeCore;
  xworld_after : W;
  xtrace : list xevent
}.
Arguments xvalue {A W} _.
Arguments xself_after {A W} _.
Arguments xworld_after {A W} _.
Arguments xtrace {A W} _.

Definition xresponder (W : Type) : Type := ∀ X : Type, xcall X → W → outcome X * W.

(** [xrun respond r w]: the pipeline runs alone, every call answered by the
    environment. *)
Fixpoint xrun {W A : Type} (respond : xresponder W) (r : xres A) (w : W) : xran A W :=
  match r with
  | XFinished o s => {| xvalue := o; xself_after := s; xworld_after := w; xtrace := [] |}
  | XCalling _ c s k =>
      let ow := respond _ c w in
      let r' := xrun respond (k ow.1 s) ow.2 in
      {| xvalue := xvalue r'; xself_after := xself_after r'; xworld_after := xworld_after r';
         xtrace := XEv c ow.1 :: xtrace r' |}
  end.

Definition xreturned (e : xevent) : bool :=
  match e with
  | XEv _ (Returns _) => true
  | XEv _ (Raises _) => false
  end.

(** The exception an event raised, if it raised. *)
Definition xraised (e : xevent) : option exn :=
  match e with
  | XEv _ (Returns _) => None
  | XEv _ (Raises x) => Some x
  end.

(** The stages of [add_knowledge], in the order of the source. *)
Inductive stage : Type := Process | Embed | AddNodes | CacheKnowledge.

Global Instance stage_eq_dec : EqDecision stage.
Proof. solve_decision. Defined.

Definition stage_of (e : xevent) : option stage :=
  match e with
  | XEv c _ =>
      match c with
      | process _ _ => Some Process
      | generate_embeddings _ => Some Embed
      | add_nodes _ _ => Some AddNodes
      | cache_knowledge _ _ => Some CacheKnowledge
      | _ => None
      end
  end.

(** The first stages of the pipeline, up to [last_stage]. *)
Definition stages_up_to (last_stage : stage) : list stage :=
  match last_stage with
  | Process => [Process]
  | Embed => [Process; Embed]
  | AddNodes => [Process; Embed; AddNodes]
  | CacheKnowledge => [Process; Embed; AddNodes; CacheKnowledge]
  end.

(** Modelled from the spec: the collaborators of the pipelines (section 6),
    whose modules are not part of the embedded file.  The processor turns
    the data into documents, the embedding generator gives one vector per
    document, the graph store numbers the nodes it adds, the cache refuses
    the knowledge when [xs_cache_down], and the orchestrator knows the
    providers of [xs_providers].  It only serves to run the pipelines on
    concrete inputs. *)
Record xsim : Type := {
  xs_core : sim;
  xs_nodes : list string;
  xs_cached : list string;
  xs_cache_down : bool;
  xs_providers : list string
}.

Definition xsim_process (data : knowledge) (metadata : option pydict) : ProcessedData :=
  match data with
  | K_str text => [("content", PyStr text) :: default [] metadata]
  | K_dict d => [(d ++ default [] metadata)%list]
  | K_list items => (λ v, ("item", v) :: default [] metadata) <$> items
  end.

Definition xsim_respond : xresponder xsim :=
  λ X c, match c in xcall X return xsim → outcome X * xsim with
  | core c' =>
      λ w, let ow := sim_respond _ c' (xs_core w) in
           (ow.1, {| xs_core := ow.2; xs_nodes := xs_nodes w; xs_cached := xs_cached w;
                     xs_cache_down := xs_cache_down w; xs_providers := xs_providers w |})
  | process data metadata => λ w, (Returns (xsim_process data metadata), w)
  | generate_embeddings processed_data =>
      λ w, (Returns ((λ _, [1%Q]) <$> processed_data), w)
  | add_nodes processed_data _ =>
      λ w, let ids := imap (λ i _, "n" +:+ pretty (length (xs_nodes w) + i)%nat)
                        processed_data in
           (Returns ids,
            {| xs_core := xs_core w; xs_nodes := (xs_nodes w ++ ids)%list;
               xs_cached := xs_cached w; xs_cache_down := xs_cache_down w;
               xs_providers := xs_providers w |})
  | cache_knowledge node_ids _ =>
      λ w, if xs_cache_down w then (Raises (Exception "cache unavailable"), w)
           else (Returns tt,
                 {| xs_core := xs_core w; xs_nodes := xs_nodes w;
                    xs_cached := (xs_cached w ++ node_ids)%list;
                    xs_cache_down := xs_cache_down w; xs_providers := xs_providers w |})
  | analyze _ _ => λ w, (Returns [("nodes", PyInt (Z.of_nat (length (xs_nodes w))))], w)
  | orchestrator_integrate_provider provider_name _ =>
      λ w, if bool_decide (provider_name ∈ xs_providers w)
           then (Returns (PyStr provider_name), w) else (Returns PyNone, w)
  | orchestrator_integrate_model provider_name model_name _ =>
      λ w, if bool_decide (provider_name ∈ xs_providers w)
           then (Returns (PyStr (provider_name +:+ "/" +:+ model_name)), w)
           else (Raises (Exception "unknown provider"), w)
  end.

Definition xsim_world : xsim :=
  {| xs_core := sim_world; xs_nodes := []; xs_cached := []; xs_cache_down := false;
     xs_providers := ["openai"] |}.

(** The environment in which the cache refuses new knowledge. *)
Definition xsim_cache_down : xsim :=
  {| xs_core := sim_world; xs_nodes := []; xs_cached := []; xs_cache_down := true;
     xs_providers := [] |}.

(** ** Reading failures *)

(** The exception an event raised, if it raised. *)
Definition raised (e : event) : option exn :=
  match e with
  | Ev _ (Returns _) => None
  | Ev _ (Raises x) => Some x
  end.

(** The exception raised by the last call of a trace. *)
Definition failure (tr : list event) : option exn := last tr ≫= raised.

(** The event is a call of [server.stop()]. *)
Definition stops_server (e : event) : bool :=
  match e with
  | Ev c _ => match c with server_stop => true | _ => false end
  end.

(** A call of [_apply_host_optimization] raised an instance of [Exception]. *)
Definition host_call_failed (e : event) : bool :=
  match e with
  | Ev c (Raises x) =>
      match c with
      | HostProfile_detect | optimize_config _ _ | config_update _ _ => isinstance_Exception x
      | _ => false
      end
  | Ev _ (Returns _) => false
  end.

(** One line of the log. *)
Definition log_record_of (lv : level) (text : string) (args : list log_arg) : log_record :=
  {| lvl := lv; fmt := text; fmt_args := args |}.

(** ** What a turn may do to the fields *)

(** [moves R from r]: the coroutine [r], resumed with the fields [from],
    reaches each of its calls, and its end, with fields related by [R] to
    the fields it was last resumed with. *)
Fixpoint moves {A : Type} (R : relation CogneeCore) (from : CogneeCore) (r : res A) : Prop :=
  match r with
  | Finished _ s => R from s
  | Calling _ _ s k => R from s ∧ ∀ o s', moves R s' (k o s')
  end.

(** A coroutine built from the combinators in which every field update is
    a step of [R]. *)
Inductive steps_by (R : relation CogneeCore) : ∀ {A : Type}, coro A → Prop :=
| sb_ret {A : Type} (a : A) : steps_by R (mret a)
| sb_raise {A : Type} (e : exn) : steps_by R (raise (A:=A) e)
| sb_get_self : steps_by R get_self
| sb_modify (f : CogneeCore → CogneeCore) : (∀ s, R s (f s)) → steps_by R (modify f)
| sb_await {X : Type} (c : call X) : steps_by R (await c)
| sb_invoke {X : Type} (c : call X) : steps_by R (invoke c)
| sb_bind {A B : Type} (m : coro A) (f : A → coro B) :
    steps_by R m → (∀ a, steps_by R (f a)) → steps_by R (m ≫= f)
| sb_try {A : Type} (body : coro A) (handler : exn → coro A) :
    steps_by R body → (∀ e, steps_by R (handler e)) → steps_by R (try_except body handler)
| sb_for_each {X : Type} (l : list X) (body : X → coro unit) :
    (∀ x, steps_by R (body x)) → steps_by R (for_each l body)
| sb_if {A : Type} (b : bool) (m1 m2 : coro A) :
    steps_by R m1 → steps_by R m2 → steps_by R (if b then m1 else m2).

(** What no turn does: reset [_initialized], set [_running] on an instance
    that is not initialised, assign [_start_time], or drop a task handle. *)
Definition evolves (s s' : CogneeCore) : Prop :=
  (_initialized s = true → _initialized s' = true) ∧
  (_running s' = true → _running s = true ∨ _initialized s' = true) ∧
  _start_time s' = _start_time s ∧
  _background_tasks s ⊆ _background_tasks s'.

(** A turn of the caller, inside [initialize], [start_api] or [stop_api]:
    the metrics are not touched. *)
Definition lifecycle_step (s s' : CogneeCore) : Prop :=
  evolves s s' ∧ _metrics s' = _metrics s.

(** A turn of a background loop: only [_metrics] and the log may change. *)
Definition loop_step (s s' : CogneeCore) : Prop :=
  _initialized s' = _initialized s ∧ _running s' = _running s ∧ config s' = config s ∧
  _background_tasks s' = _background_tasks s ∧ _start_time s' = _start_time s.

(** What the turn [ch] may do. *)
Definition turn_step (ch : turn) : relation CogneeCore :=
  match ch with
  | RunTask _ => loop_step
  | Invoke _ | RunMain => lifecycle_step
  end.

(** What the event loop holds for the caller and for the tasks. *)
Definition main_moves (m : main_status) : Prop :=
  match m with
  | Idle => True
  | MainAwaiting _ _ k => ∀ o s', moves lifecycle_step s' (k o s')
  end.

Definition task_moves (t : task) : Prop :=
  match t_status t with
  | Awaiting _ k => ∀ o s', moves loop_step s' (k o s')
  | _ => True
  end.

Definition system_moves {W : Type} (sys : system W) : Prop :=
  main_moves (sys_main sys) ∧ Forall task_moves (sys_tasks sys).

(** ** Shutdown *)

(** The continuation [k] ends the method whatever the awaited call answers,
    and leaves the task handles as they are. *)
Definition finishes {X A : Type} (k : outcome X → CogneeCore → res A) : Prop :=
  ∀ o s', ∃ v s'', k o s' = Finished v s'' ∧ _background_tasks s'' = _background_tasks s'.



(** The tasks after [task.cancel()] on each handle of [l] in turn. *)
Definition cancel_all (l : list handle) (ts : list task) : list task :=
  foldl (λ ts h, match ts !! h with
                 | Some t => if terminated (t_status t) then ts else <[h := request_cancel t]> ts
                 | None => ts
                 end) ts l.

(** [r] lets an exception that is not an [Exception] out at once, at
    whichever of its awaits the exception arrives. *)
Fixpoint abortable (r : res unit) : Prop :=
  match r with
  | Finished _ _ => True
  | Calling _ _ _ k =>
      (∀ e s', isinstance_Exception e = false → k (Raises e) s' = Finished (Raises e) s') ∧
      (∀ o s', abortable (k o s'))
  end.

(** A task that waits does so at an await of such a tree. *)
Definition task_abortable (t : task) : Prop :=
  match t_status t with
  | Awaiting _ k =>
      (∀ e s', isinstance_Exception e = false → k (Raises e) s' = Finished (Raises e) s') ∧
      (∀ o s', abortable (k o s'))
  | _ => True
  end.

(** ** More concrete runs *)

(** A configuration with host-aware optimisation switched on. *)
Definition sim_config_dynamic : CogneeConfig :=
  {| dynamic_config := true; collection_interval := 60%Q; check_interval := 30%Q;
     optimization_interval := 300%Q |}.

(** The scripted environment on a host whose profile cannot be detected. *)
Definition sim_respond_hostless : responder sim :=
  λ X c, match c in call X return sim → outcome X * sim with
  | HostProfile_detect => λ w, (Raises (Exception "no host profile"), w)
  | c' => sim_respond _ c'
  end.


(** An initialised instance ready for the pipelines. *)
Definition xsim_self : CogneeCore := self_after sim_initialized.

(** ** The package entry points ([cognee/__init__.py]) *)





(** ** Packaging ([setup.py]) *)

(** [str.isspace] for one character.  The characters of a [string] stand
    for the code points below 256; among them the whitespace of Python is
    tab to carriage return, the four separators 0x1c to 0x1f, the space,
    NEL (0x85) and the no-break space (0xa0). *)
Definition isspace (a : ascii) : bool :=
  let n := N_of_ascii a in
  ((9 <=? n) && (n <=? 13) || (28 <=? n) && (n <=? 32) || (n =? 133) || (n =? 160))%N.

(** [s.lstrip()], [s.rstrip()] and [s.strip()]. *)
Fixpoint lstrip (s : string) : string :=
  match s with
  | EmptyString => EmptyString
  | String a s' => if isspace a then lstrip s' else s
  end.

Fixpoint rstrip (s : string) : string :=
  match s with
  | EmptyString => EmptyString
  | String a s' =>
      match rstrip s' with
      | EmptyString => if isspace a then EmptyString else String a EmptyString
      | t => String a t
      end
  end.

Definition strip (s : string) : string := rstrip (lstrip s).

(** [s.startswith('#')]. *)
Definition is_comment (line : string) : bool :=
  match line with
  | String a _ => Ascii.eqb a "#"
  | EmptyString => false
  end.

(** Truth value of a [str]. *)
Definition nonempty (s : string) : bool :=
  match s with
  | EmptyString => false
  | String _ _ => true
  end.

(** The list comprehension of [read_requirements], over the lines that
    iterating the open file yields (each with its line end). *)
Definition requirements_of (lines : list string) : list string :=
  strip <$> filter (λ line, nonempty (strip line) && negb (is_comment line) = true) lines.

(** An open text file: what iterating it gives (its lines, or the
    exception raised on the way: [UnicodeDecodeError] for bytes that are
    not text in the default encoding, [OSError] for a failed read), and what
    closing it gives. *)
Record text_file : Type := {
  f_lines : outcome (list string);
  f_close : outcome unit
}.

(** [read_requirements(filename)].  [open_file filename] is what
    [open(filename, 'r')] gives: the file, or the exception raised
    ([OSError]).  The [with] statement closes the file on both ways out of
    its body, and an exception of [close] replaces what was on its way. *)
Definition read_requirements (open_file : string → outcome text_file) (filename : string)
  : outcome (list string) :=
  match open_file filename with
  | Raises e => Raises e
  | Returns f =>
      let body :=
        match f_lines f with
        | Returns lines => Returns (requirements_of lines)
        | Raises e => Raises e
        end in
      match f_close f with
      | Returns _ => body
      | Raises e => Raises e
      end
  end.

(** The first and the last character of a text. *)
Definition first_char (s : string) : option ascii :=
  match s with
  | EmptyString => None
  | String a _ => Some a
  end.

Fixpoint last_char (s : string) : option ascii :=
  match s with
  | EmptyString => None
  | String a EmptyString => Some a
  | String _ s' => last_char s'
  end.

(** A requirements file with a pinned package, a blank line, a comment in
    the first column and an indented comment. *)
Definition sim_requirements : list string :=
  [ String "r" (String "e" (String "q" (String "010" EmptyString)));
    String "010" EmptyString;
    String "#" (String "a" (String "010" EmptyString));
    String " " (String "#" (String "b" (String "010" EmptyString))) ].

(** The files of the package directory, for concrete runs: the
    requirements, an image that is not text, and nothing else.  [Exception]
    stands for the [UnicodeDecodeError] and the [FileNotFoundError]. *)
Definition sim_files (filename : string) : outcome text_file :=
  if String.eqb filename "requirements.txt"
  then Returns {| f_lines := Returns sim_requirements; f_close := Returns tt |}
  else if String.eqb filename "logo.png"
  then Returns {| f_lines := Raises (Exception "invalid start byte"); f_close := Returns tt |}
  else Raises (Exception "no such file").


(** The scripted environment with the search index offline. *)
Definition sim_respond_searchless : responder sim :=
  λ X c, match c in call X return sim → outcome X * sim with
  | semantic_search _ _ _ => λ w, (Raises (Exception "index offline"), w)
  | c' => sim_respond _ c'
  end.

(** ** Tactics *)

(** Unfold the coroutine combinators and the field updates. *)
Ltac coro_simpl :=
  cbv beta iota zeta delta
    [mbind coro_bind mret coro_ret get_self modify await invoke raise log try_except
     res_bind res_try run assign_metric
     initialize start_api stop_api get_status query_knowledge truthy from_option id
     _start_background_tasks start_task _apply_host_optimization
     fst snd negb value self_after world_after trace
     set_config set_logger set_initialized set_running set_metrics set_background_tasks
     dynamic_config config logger _initialized _running _metrics _background_tasks
     _start_time].

(** The same everywhere, leaving [run] folded. *)
Ltac coro_unfold :=
  cbv beta iota zeta delta
    [mbind coro_bind mret coro_ret get_self modify await invoke raise log try_except
     res_bind res_try assign_metric
     initialize start_api stop_api get_status
     _start_background_tasks start_task _apply_host_optimization
     fst snd negb
     set_config set_logger set_initialized set_running set_metrics set_background_tasks
     dynamic_config config logger _initialized _running _metrics _background_tasks
     _start_time] in *.

(** One step of symbolic execution: split on the next answer of the
    environment, or on the next test. *)
Ltac run_step respond :=
  match goal with
  | |- context [respond ?X ?c ?w] =>
      destruct (respond X c w) as [[?|?] ?] eqn:?; coro_simpl
  | |- context [if isinstance_Exception ?e then _ else _] =>
      destruct (isinstance_Exception e) eqn:?; coro_simpl
  | |- context [if ?b then _ else _] => is_var b; destruct b; coro_simpl
  end.

(** The same for the pipelines over [xcall]. *)
Ltac xcoro_simpl :=
  cbv beta iota zeta delta
    [mbind xcoro_bind coro_bind mret xcoro_ret coro_ret get_self modify await invoke raise
     log try_except res_bind res_try xres_bind xres_try xtry_except xawait lift lift_res
     xrun add_knowledge get_insights integrate_provider integrate_model
     _generate_ai_insights _configure_provider_integration _configure_model_integration
     query_knowledge truthy
     fst snd negb xvalue xself_after xworld_after xtrace
     set_config set_logger set_initialized set_running set_metrics set_background_tasks
     dynamic_config config logger _initialized _running _metrics _background_tasks
     _start_time].

Ltac xrun_step respond :=
  match goal with
  | |- context [respond ?X ?c ?w] =>
      destruct (respond X c w) as [[?|?] ?] eqn:?; xcoro_simpl
  | |- context [if isinstance_Exception ?e then _ else _] =>
      destruct (isinstance_Exception e) eqn:?; xcoro_simpl
  | |- context [if bool_of ?v then _ else _] =>
      destruct (bool_of v) eqn:?; xcoro_simpl
  end.

(** Unfold a loop body as well. *)
Ltac loop_simpl :=
  cbv beta iota zeta delta
    [mbind coro_bind mret coro_ret get_self modify await invoke raise log try_except
     res_bind res_try run assign_metric
     initialize start_api stop_api _start_background_tasks start_task
     loop_iteration loop_try
     _collect_metrics_try _health_monitoring_try _performance_optimization_try
     _get_provider_connections _get_model_integrations _handle_health_issue
     _apply_performance_optimizations _apply_host_optimization
     fst snd negb value self_after world_after trace
     set_config set_logger set_initialized set_running set_metrics set_background_tasks
     dynamic_config config logger _initialized _running _metrics _background_tasks
     _start_time].

(** Relate the fields before and after the updates of a turn. *)
Ltac solve_step :=
  cbn [moves];
  match goal with |- _ ?s _ => try (is_var s; destruct s) end;
  unfold lifecycle_step, evolves, loop_step; cbn;
  repeat split; first [done | set_solver | by intros; auto].

(** Derive [steps_by] along the structure of a coroutine. *)
Ltac steps_tac :=
  repeat match goal with
  | |- ∀ _, _ => intro
  | |- lifecycle_step _ _ => solve_step
  | |- loop_step _ _ => solve_step
  | |- steps_by _ _ => constructor
  end.

(** * Proofs *)

(** ** Rendering *)

Example str_dict_ab : str_dict [("a", PyInt 1); ("b", PyInt 2)] = "{'a': 1, 'b': 2}".
Proof. reflexivity. Qed.

Example repr_str_quote : repr_str "it's" = String dquote ("it's" +:+ String dquote "").
Proof. reflexivity. Qed.

(** ** Running coroutines *)
Lemma initialize_when_initialized {W : Type} (respond : responder W) s w :
    _initialized s = true →
    run respond (initialize s) w =
    {| value := Returns true; self_after := s; world_after := w; trace := [] |}.
Proof.
  intros Hi. destruct s as [cfg lg ini rn mt bt st]. simpl in Hi; subst ini. reflexivity.
Qed.

Section Sequential.

Context {W : Type} (respond : responder W).

Lemma run_bind {A B : Type} (r : res A) (f : A → coro B) w :
  run respond (res_bind r f) w =
  match value (run respond r w) with
  | Returns a =>
      later (trace (run respond r w))
        (run respond (f a (self_after (run respond r w))) (world_after (run respond r w)))
  | Raises e =>
      {| value := Raises e; self_after := self_after (run respond r w);
         world_after := world_after (run respond r w); trace := trace (run respond r w) |}
  end.
Proof.
  revert w. induction r as [[a|e] s|aw X c s k IH]; intros w; simpl.
  - destruct (run respond (f a s) w); reflexivity.
  - done.
  - rewrite IH. destruct (run respond (k _ s) _) as [[a|e] s1 w1 tr]; simpl; [|done].
    destruct (run respond (f a s1) w1); reflexivity.
Qed.

Lemma run_try {A : Type} (r : res A) (h : exn → coro A) w :
  run respond (res_try r h) w =
  match value (run respond r w) with
  | Returns a => run respond r w
  | Raises e =>
      if isinstance_Exception e then
        later (trace (run respond r w))
          (run respond (h e (self_after (run respond r w))) (world_after (run respond r w)))
      else run respond r w
  end.
Proof.
  revert w. induction r as [[a|e] s|aw X c s k IH]; intros w; simpl.
  - done.
  - destruct (isinstance_Exception e); [|reflexivity]. destruct (run respond (h e s) w); reflexivity.
  - rewrite IH. destruct (run respond (k _ s) _) as [[a|e] s1 w1 tr]; simpl; [done|].
    destruct (isinstance_Exception e); [|done].
    destruct (run respond (h e s1) w1); reflexivity.
Qed.

Lemma ends_with_run {A : Type} (P : CogneeCore → Prop) (r : res A) w :
  ends_with P r → P (self_after (run respond r w)).
Proof.
  revert w. induction r as [o s|aw X c s k IH]; intros w Hr; simpl in *; auto.
Qed.

Lemma ends_with_bind {A B : Type} (P : CogneeCore → Prop) (r : res A) (f : A → coro B) :
  ends_with (λ s, P s ∧ ∀ a, ends_with P (f a s)) r → ends_with P (res_bind r f).
Proof.
  induction r as [[a|e] s|aw X c s k IH]; simpl.
  - intros [_ H]. apply H.
  - intros [H _]. exact H.
  - intros H o. apply IH, H.
Qed.

Lemma ends_with_try {A : Type} (P : CogneeCore → Prop) (r : res A) (h : exn → coro A) :
  ends_with (λ s, P s ∧ ∀ e, ends_with P (h e s)) r → ends_with P (res_try r h).
Proof.
  induction r as [[a|e] s|aw X c s k IH]; simpl.
  - intros [H _]. exact H.
  - intros [H1 H2]. destruct (isinstance_Exception e); [apply H2 | exact H1].
  - intros H o. apply IH, H.
Qed.

(** [task.cancel()] on every handle: the fields are not touched, and when
    every call returns the calls are the cancellations, in order. *)
Lemma run_cancel_each (l : list handle) s w :
  self_after (run respond (for_each l (λ task, invoke (task_cancel task);; mret tt) s) w) = s ∧
  (forallb returned
     (trace (run respond (for_each l (λ task, invoke (task_cancel task);; mret tt) s) w))
   = true ↔
   value (run respond (for_each l (λ task, invoke (task_cancel task);; mret tt) s) w)
   = Returns tt) ∧
  (value (run respond (for_each l (λ task, invoke (task_cancel task);; mret tt) s) w)
   = Returns tt →
   the_call <$>
     trace (run respond (for_each l (λ task, invoke (task_cancel task);; mret tt) s) w)
   = (λ h, some_call (task_cancel h)) <$> l).
Proof.
  revert w. induction l as [|h l IH]; intros w; simpl.
  - repeat split; done.
  - coro_simpl. destruct (respond _ (task_cancel h) w) as [[b|e] w1]; simpl.
    + fold (for_each l (λ task : handle, invoke (task_cancel task);; mret ()) s).
      destruct (IH w1) as (Hs & Hr & Ht). repeat split; try tauto.
      intros Hv. simpl. f_equal. by apply Ht.
    + repeat split; try done.
Qed.

Lemma ends_with_cancel_each (P : CogneeCore → Prop) (l : list handle) s :
  P s → ends_with P (for_each l (λ task, invoke (task_cancel task);; mret tt) s).
Proof.
  intros HP. induction l as [|h l IH]; simpl; [exact HP|].
  intros [b|e]; simpl; [exact IH | exact HP].
Qed.

Lemma stop_api_ends s :
  ends_with (λ s', _initialized s' = _initialized s ∧
                   _background_tasks s' = _background_tasks s ∧
                   _running s' = false ∧ config s' = config s ∧
                   _metrics s' = _metrics s) (stop_api s).
Proof.
  destruct s as [cfg lg ini rn mt bt st]. coro_simpl.
  apply ends_with_try, ends_with_bind, ends_with_cancel_each.
  split; [split|].
  - simpl. done.
  - intros e. simpl. done.
  - intros []. simpl. intros [[]|e]; simpl; [|done].
    intros [[]|e]; simpl; done.
Qed.

Lemma stop_api_calls s w :
  forallb returned (trace (run respond (stop_api s) w)) = true →
  value (run respond (stop_api s) w) = Returns tt ∧
  the_call <$> trace (run respond (stop_api s) w) =
    (((λ h, some_call (task_cancel h)) <$> elements (_background_tasks s))
     ++ [some_call (gather (elements (_background_tasks s))); some_call server_stop])%list.
Proof.
  destruct s as [cfg lg ini rn mt bt st]. coro_unfold.
  rewrite run_try, run_bind.
  match goal with
  | |- context [run respond (for_each ?l ?b ?s0) w] =>
      pose proof (run_cancel_each l s0 w) as (Hs & Hr & Ht); coro_unfold;
      destruct (run respond (for_each l b s0) w) as [[[]|e] s1 w1 tr]
  end; simpl in *.
  - subst s1. unfold later. coro_simpl.
    destruct (respond _ (gather (elements bt)) w1) as [[[]|e] w2] eqn:Hg; coro_simpl.
    + destruct (respond _ server_stop w2) as [[[]|e] w3] eqn:Hstop; coro_simpl.
      * rewrite (forallb_app returned), (fmap_app the_call). simpl. intros _.
        split; [reflexivity|]. by rewrite Ht.
      * destruct (isinstance_Exception e); simpl; rewrite ?(forallb_app returned); simpl;
          rewrite ?andb_false_r; discriminate.
    + destruct (isinstance_Exception e); simpl; rewrite ?(forallb_app returned); simpl;
        rewrite ?andb_false_r; discriminate.
  - assert (forallb returned tr = false) as Hf.
    { destruct (forallb returned tr); [|done]. by destruct Hr as [Hr _]; specialize (Hr eq_refl). }
    unfold later.
    destruct (isinstance_Exception e); simpl; rewrite ?(forallb_app returned), ?Hf;
      discriminate.
Qed.

End Sequential.

(** ** Lifecycle *)

Section Lifecycle.

Context {W : Type} (respond : responder W).

(** What a run of [initialize] that starts uninitialised and returns
    [True] has done. *)
Lemma initialize_success s w :
  _initialized s = false →
  value (run respond (initialize s) w) = Returns true →
  _initialized (self_after (run respond (initialize s) w)) = true ∧
  omap initialized_component (trace (run respond (initialize s) w)) = initialization_order ∧
  (∀ x, count (is_initialize_of x) (trace (run respond (initialize s) w)) = 1%nat) ∧
  count is_create_task (trace (run respond (initialize s) w)) = 3%nat.
Proof.
  intros Hi. destruct s as [[dc i1 i2 i3] lg ini rn mt bt st]. simpl in Hi; subst ini.
  coro_simpl. repeat run_step respond; intros Hv; try discriminate Hv.
  all: repeat split; try reflexivity; intros []; reflexivity.
Qed.

Lemma initialize_true_initialized s w :
  value (run respond (initialize s) w) = Returns true →
  _initialized (self_after (run respond (initialize s) w)) = true.
Proof.
  intros Hv. destruct (_initialized s) eqn:Hi.
  - rewrite initialize_when_initialized by done. done.
  - by apply initialize_success.
Qed.

(** C6.  Once [initialize] has returned [True], calling it again returns
    [True] at once: it makes no call at all (no collaborator is
    initialised again, host optimisation is not applied again, no task is
    created) and leaves every field as it was.  Over the two calls, when
    the first one started from an uninitialised instance, every
    collaborator was initialised exactly once and exactly three tasks were
    created. *)
Theorem initialize_is_idempotent {W' : Type} (respond' : responder W') s w w' :
  value (run respond (initialize s) w) = Returns true →
  let first := run respond (initialize s) w in
  let second := run respond' (initialize (self_after first)) w' in
  second = {| value := Returns true; self_after := self_after first;
              world_after := w'; trace := [] |} ∧
  (_initialized s = false →
     (∀ x, count (is_initialize_of x) (trace first ++ trace second) = 1%nat) ∧
     count is_create_task (trace first ++ trace second) = 3%nat).
Proof.
  intros Hv first second.
  assert (Hsecond : second = {| value := Returns true; self_after := self_after first;
                                world_after := w'; trace := [] |}).
  { subst second. apply initialize_when_initialized.
    by apply initialize_true_initialized. }
  split; [exact Hsecond|]. intros Hi. rewrite Hsecond. simpl. rewrite app_nil_r.
  destruct (initialize_success s w Hi Hv) as (_ & _ & Hcomponents & Htasks).
  split; [exact Hcomponents | exact Htasks].
Qed.

(** A run of [initialize] on an uninitialised instance in which every call
    returns goes through the whole sequence. *)
Lemma initialize_all_return s w :
  _initialized s = false →
  forallb returned (trace (run respond (initialize s) w)) = true →
  value (run respond (initialize s) w) = Returns true ∧
  omap initialized_component (trace (run respond (initialize s) w)) = initialization_order ∧
  count is_create_task (trace (run respond (initialize s) w)) = 3%nat.
Proof.
  intros Hi. destruct s as [[dc i1 i2 i3] lg ini rn mt bt st]. simpl in Hi; subst ini.
  coro_simpl. repeat run_step respond; simpl; intros Hr; try discriminate Hr.
  all: repeat split; reflexivity.
Qed.

Lemma initialize_raised s w :
  existsb init_raised (trace (run respond (initialize s) w)) = true →
  value (run respond (initialize s) w) = Returns false ∧
  _initialized (self_after (run respond (initialize s) w)) = false ∧
  init_raised <$> last (trace (run respond (initialize s) w)) = Some true ∧
  _background_tasks (self_after (run respond (initialize s) w)) = _background_tasks s.
Proof.
  destruct s as [[dc i1 i2 i3] lg ini rn mt bt st].
  coro_simpl. destruct ini; coro_simpl; [discriminate|].
  repeat run_step respond; simpl; intros Hr; try discriminate Hr.
  all: try match goal with
           | H : isinstance_Exception ?e = false |- _ => rewrite H in Hr; discriminate Hr
           end.
  all: repeat split; try reflexivity.
  all: simpl; match goal with H : isinstance_Exception _ = true |- _ => by rewrite H end.
Qed.

(** C7.  When a collaborator's [initialize] raises (an instance of
    [Exception]) during [initialize]: the sequence stops there (that call is
    the last one made), [initialize] returns [False], [_initialized] is
    still false and no task has been created.  A later [initialize] starts
    the sequence again from the beginning: if every call then returns, the
    eleven collaborators are initialised in order, the three tasks are
    created and the result is [True]. *)
Theorem initialize_failure_then_retry s w :
  existsb init_raised (trace (run respond (initialize s) w)) = true →
  let failed := run respond (initialize s) w in
  value failed = Returns false ∧
  _initialized (self_after failed) = false ∧
  init_raised <$> last (trace failed) = Some true ∧
  _background_tasks (self_after failed) = _background_tasks s ∧
  ∀ w',
    let retry := run respond (initialize (self_after failed)) w' in
    forallb returned (trace retry) = true →
    value retry = Returns true ∧
    _initialized (self_after retry) = true ∧
    omap initialized_component (trace retry) = initialization_order ∧
    count is_create_task (trace retry) = 3%nat.
Proof.
  intros Hraised failed.
  destruct (initialize_raised s w Hraised) as (Hv & Hi & Hlast & Htasks).
  repeat split; try assumption.
  all: destruct (initialize_all_return (self_after failed) w' Hi H) as (Hv' & Ho & Hc);
    try assumption.
  by apply initialize_true_initialized.
Qed.

(** C8.  [start_api] before a successful [initialize] raises
    [RuntimeError] without calling anything or touching a field.
    Otherwise its first action outside the class is [await
    self.server.start(host, port)], made with [_running] already true; if
    that call returns, [start_api] returns with [_running] true; if it
    raises (an instance of [Exception]), [_running] is false again and the
    same exception reaches the caller. *)
Theorem start_api_contract host port s w :
  (_initialized s = false →
     run respond (start_api host port s) w =
     {| value := Raises (RuntimeError "Cognee not initialized"); self_after := s;
        world_after := w; trace := [] |}) ∧
  (_initialized s = true →
     (∃ k, start_api host port s = Calling true (server_start host port) (set_running true s) k) ∧
     let r := run respond (start_api host port s) w in
     trace r = [Ev (server_start host port) (respond _ (server_start host port) w).1] ∧
     match (respond _ (server_start host port) w).1 with
     | Returns _ => value r = Returns tt ∧ _running (self_after r) = true
     | Raises e =>
         value r = Raises e ∧
         (isinstance_Exception e = true → _running (self_after r) = false)
     end ∧
     _initialized (self_after r) = true).
Proof.
  destruct s as [cfg lg ini rn mt bt st]. split; simpl; intros ->.
  - reflexivity.
  - split; [eexists; reflexivity|]. coro_simpl.
    destruct (respond _ (server_start host port) w) as [[[]|e] w1]; coro_simpl.
    + repeat split; reflexivity.
    + destruct (isinstance_Exception e) eqn:He; coro_simpl; repeat split; try reflexivity.
      intros; discriminate.
Qed.

(** C10.  [stop_api] leaves [_initialized] and the set of task handles as
    they were and ends with [_running] false.  When none of its calls
    raises, these calls are: [cancel()] on every handle of
    [_background_tasks], the joining [gather] of the same handles, then
    [server.stop()].  So, on an initialised instance, a later [initialize]
    returns [True] at once without calling anything: no collaborator is
    initialised again and no loop is created again. *)
Theorem stop_api_keeps_initialized s w :
  let r := run respond (stop_api s) w in
  _initialized (self_after r) = _initialized s ∧
  _background_tasks (self_after r) = _background_tasks s ∧
  _running (self_after r) = false ∧
  (forallb returned (trace r) = true →
     value r = Returns tt ∧
     the_call <$> trace r =
       (((λ h, some_call (task_cancel h)) <$> elements (_background_tasks s))
        ++ [some_call (gather (elements (_background_tasks s))); some_call server_stop])%list) ∧
  (_initialized s = true →
     ∀ w', run respond (initialize (self_after r)) w' =
           {| value := Returns true; self_after := self_after r; world_after := w';
              trace := [] |}).
Proof.
  intros r.
  destruct (ends_with_run respond _ _ w (stop_api_ends s)) as (Hi & Ht & Hr & _).
  repeat split; try assumption.
  - by apply stop_api_calls.
  - by apply stop_api_calls.
  - intros Hs w'. apply initialize_when_initialized. subst r. by rewrite Hi.
Qed.

End Lifecycle.

(** ** Status *)

Section StatusProofs.

Context {W : Type} (respond : responder W).

(** No path through [initialize] assigns [self._start_time]. *)
Lemma initialize_keeps_start_time s :
  ends_with (λ s', _start_time s' = _start_time s) (initialize s).
Proof.
  destruct s as [[dc i1 i2 i3] lg ini rn mt bt st]. coro_simpl.
  destruct ini; [reflexivity|]. destruct dc; coro_simpl.
  all: repeat (simpl;
               match goal with
               | |- context [if isinstance_Exception ?e then _ else _] =>
                   destruct (isinstance_Exception e)
               | |- ∀ o, _ => intros [?|?]
               | |- _ = _ => reflexivity
               end).
Qed.

(** Without a [_start_time] attribute, [get_status] reports the uptime 0
    and does not read the clock. *)
Lemma get_status_without_start_time s w :
  _start_time s = None →
  match value (run respond (get_status s) w) with
  | Returns status => st_uptime status = 0%Q
  | Raises _ => True
  end.
Proof.
  destruct s as [cfg lg ini rn mt bt st]. simpl. intros ->. coro_simpl.
  repeat run_step respond; done.
Qed.

(** C3 (the code at the failing input).  After [initialize] on a fresh
    instance, whatever the environment and whether or not it succeeded, the
    instance has no [_start_time]; a [get_status] that returns then reports
    the uptime 0, whatever the clock reads. *)
Theorem uptime_is_reported_as_zero cfg w w' :
  _start_time (self_after (run respond (initialize (CogneeCore_init cfg)) w)) = None ∧
  match value (run respond
                 (get_status (self_after (run respond (initialize (CogneeCore_init cfg)) w)))
                 w') with
  | Returns status => st_uptime status = 0%Q
  | Raises _ => True
  end.
Proof.
  assert (_start_time (self_after (run respond (initialize (CogneeCore_init cfg)) w)) = None)
    as Hnone.
  { apply (ends_with_run respond (λ s', _start_time s' = None)).
    apply (initialize_keeps_start_time (CogneeCore_init cfg)). }
  split; [exact Hnone|]. by apply get_status_without_start_time.
Qed.

End StatusProofs.

(** ** The query pipeline *)

Section QueryPipeline.

Context (hash : string → Z) {W : Type} (respond : responder W).

(** C4 (amended).  A call of [query_knowledge] that returns normally has
    either performed the search, and then the search-query counter is one
    more than before; or it has returned what the cache gave it without
    searching, and then the counter is unchanged. *)
Theorem query_counter_counts_searches query filters limit s w v :
  value (run respond (query_knowledge hash query filters limit s) w) = Returns v →
  let r := run respond (query_knowledge hash query filters limit s) w in
  (existsb is_semantic_search (trace r) = true ∧
   search_queries (_metrics (self_after r)) = search_queries (_metrics s) + 1)
  ∨
  (existsb is_semantic_search (trace r) = false ∧
   search_queries (_metrics (self_after r)) = search_queries (_metrics s) ∧
   trace r = [Ev (cache_get (cache_key hash query filters limit)) (Returns (Some v))]).
Proof.
  destruct s as [cfg lg ini rn mt bt st]. coro_simpl.
  destruct ini; coro_simpl; [|discriminate].
  destruct (respond _ (cache_get (cache_key hash query filters limit)) w)
    as [[[[|item rest]|]|e] w1]; coro_simpl.
  - repeat run_step respond; intros Hv; try discriminate Hv. left. by destruct mt.
  - intros [= <-]. right. by destruct mt.
  - repeat run_step respond; intros Hv; try discriminate Hv. left. by destruct mt.
  - repeat run_step respond; intros Hv; discriminate Hv.
Qed.

(** X1.  [query_knowledge] on a hit: a non-empty cached value is returned
    without any other call (no search, no cache write). *)
Lemma query_hit query filters limit s w item rest w1 :
  _initialized s = true →
  respond _ (cache_get (cache_key hash query filters limit)) w
    = (Returns (Some (item :: rest)), w1) →
  let r := run respond (query_knowledge hash query filters limit s) w in
  value r = Returns (item :: rest) ∧
  trace r = [Ev (cache_get (cache_key hash query filters limit)) (Returns (Some (item :: rest)))].
Proof.
  destruct s as [cfg lg ini rn mt bt st]. simpl. intros -> Hget. coro_simpl.
  rewrite Hget. coro_simpl. done.
Qed.

(** X2.  [query_knowledge] when the cache has nothing: the search runs,
    its result is stored under the key and returned. *)
Lemma query_miss query filters limit s w w1 found w2 w3 :
  _initialized s = true →
  respond _ (cache_get (cache_key hash query filters limit)) w = (Returns None, w1) →
  respond _ (semantic_search query filters limit) w1 = (Returns found, w2) →
  respond _ (cache_set (cache_key hash query filters limit) found) w2 = (Returns tt, w3) →
  let r := run respond (query_knowledge hash query filters limit s) w in
  value r = Returns found ∧
  trace r = [Ev (cache_get (cache_key hash query filters limit)) (Returns None);
             Ev (semantic_search query filters limit) (Returns found);
             Ev (cache_set (cache_key hash query filters limit) found) (Returns tt)].
Proof.
  destruct s as [cfg lg ini rn mt bt st]. simpl. intros -> Hget Hsearch Hset. coro_simpl.
  rewrite Hget. coro_simpl. rewrite Hsearch. coro_simpl. rewrite Hset. coro_simpl. done.
Qed.

(** [query_knowledge] when the cache holds the empty list for the key:
    the value is not returned from the cache; the search runs again and
    the cache is written again. *)
Lemma query_empty_cached query filters limit s w w1 found w2 w3 :
  _initialized s = true →
  respond _ (cache_get (cache_key hash query filters limit)) w = (Returns (Some []), w1) →
  respond _ (semantic_search query filters limit) w1 = (Returns found, w2) →
  respond _ (cache_set (cache_key hash query filters limit) found) w2 = (Returns tt, w3) →
  let r := run respond (query_knowledge hash query filters limit s) w in
  value r = Returns found ∧
  trace r = [Ev (cache_get (cache_key hash query filters limit)) (Returns (Some []));
             Ev (semantic_search query filters limit) (Returns found);
             Ev (cache_set (cache_key hash query filters limit) found) (Returns tt)].
Proof.
  destruct s as [cfg lg ini rn mt bt st]. simpl. intros -> Hget Hsearch Hset. coro_simpl.
  rewrite Hget. coro_simpl. rewrite Hsearch. coro_simpl. rewrite Hset. coro_simpl. done.
Qed.

End QueryPipeline.

Lemma string_length_app (s t : string) :
  String.length (s +:+ t) = (String.length s + String.length t)%nat.
Proof. induction s as [|a s IH]; simpl; [done|]. by rewrite IH. Qed.

Lemma string_app_inv_tail (s1 s2 t : string) : s1 +:+ t = s2 +:+ t → s1 = s2.
Proof.
  revert s2. induction s1 as [|a s1 IH]; intros [|b s2] H; simpl in H.
  - done.
  - apply (f_equal String.length) in H. rewrite !string_length_app in H. simpl in H. lia.
  - apply (f_equal String.length) in H. rewrite !string_length_app in H. simpl in H. lia.
  - injection H as -> H. f_equal. by apply IH.
Qed.

(** Equal keys for the same query and limit: equal hashes. *)
Lemma cache_key_eq_hash (hash : string → Z) query limit filters1 filters2 :
  cache_key hash query filters1 limit = cache_key hash query filters2 limit →
  hash (str_filters filters1) = hash (str_filters filters2).
Proof.
  unfold cache_key. intros H. do 3 apply (inj (String.app _)) in H.
  apply string_app_inv_tail in H. by apply (inj pretty) in H.
Qed.

(** C2 (amended).  For a query and a limit, two filter mappings get the same
    cache key exactly when [hash(str(filters))] is the same for both, where
    [str] lists the pairs in insertion order; and the key is what
    [query_knowledge] asks the cache for first. *)
Theorem cache_key_same_iff_hash_same (hash : string → Z) query limit filters1 filters2 :
  (cache_key hash query filters1 limit = cache_key hash query filters2 limit
   ↔ hash (str_filters filters1) = hash (str_filters filters2)) ∧
  ∀ s, _initialized s = true →
       ∃ k, query_knowledge hash query filters1 limit s
            = Calling true (cache_get (cache_key hash query filters1 limit)) s k.
Proof.
  split.
  - split; [apply cache_key_eq_hash|]. unfold cache_key. by intros ->.
  - intros [cfg lg ini rn mt bt st]. simpl. intros ->. eexists. reflexivity.
Qed.

(** ** The background loops *)

Lemma node_ok_collaborator (rest : res unit → Prop) name {X : Type} (c : call X) k :
  asyncio_call c = false →
  (∀ o s', rest (k o s')) →
  (∀ e s', isinstance_Exception e = true →
     k (Raises e) s' =
     Calling true (asyncio_sleep (loop_interval name (config s')))
       (set_logger (logger s' ++ [loop_error_record name e]) s') (λ o s'', Finished o s'')) →
  node_ok rest name c k.
Proof. destruct c; simpl; try discriminate; auto. Qed.

Lemma node_ok_inv (rest : res unit → Prop) name {X : Type} (c : call X) k :
  node_ok rest name c k →
  is_sleep c = false →
  asyncio_call c = false ∧
  (∀ o s', rest (k o s')) ∧
  (∀ e s', isinstance_Exception e = true →
     k (Raises e) s' =
     Calling true (asyncio_sleep (loop_interval name (config s')))
       (set_logger (logger s' ++ [loop_error_record name e]) s') (λ o s'', Finished o s'')).
Proof. destruct c; simpl; try discriminate; try tauto. Qed.

(** After a collaborator call the iteration goes on; after the sleep it is
    over. *)
Lemma node_ok_cases (rest : res unit → Prop) name {X : Type} (c : call X) k :
  node_ok rest name c k →
  ∀ o s, is_sleep c = false ∧ rest (k o s) ∨
         is_sleep c = true ∧ k o s = Finished (forget_value o) s.
Proof.
  destruct c; simpl; try tauto; try (intros [Hk _] o s; left; split; [done|apply Hk]).
  intros Hk [[]|e] s; right; split; try done; apply Hk.
Qed.

(** The guarded block, then the sleep: an iteration. *)
Lemma in_try_iteration name (b : res unit) :
  in_try b →
  in_iteration name
    (res_bind (res_try b (λ e, log ERROR (loop_error_text name) [A_exn e]))
       (λ _, s ← get_self; await (asyncio_sleep (loop_interval name (config s))))).
Proof.
  induction b as [[[]|e] s|aw X c s k IH]; simpl.
  - intros _. split; [done|]. split; [by intros d [= <-]|done].
  - intros _. destruct (isinstance_Exception e) eqn:He; simpl; [|done].
    split; [done|]. split; [by intros d [= <-]|done].
  - intros (-> & Hc & Hraise & Hk). split; [done|]. split.
    { intros d Hd. destruct c; discriminate. }
    apply node_ok_collaborator; [done|by intros; apply IH|].
    intros e s' He. rewrite Hraise. simpl. by rewrite He.
Qed.

Lemma loop_try_in_try name s :
  ∃ b, loop_try name s = res_try b (λ e, log ERROR (loop_error_text name) [A_exn e]) ∧
       in_try b.
Proof.
  destruct name; (eexists; split; [reflexivity|]); simpl.
  - repeat (split; [done|]; split; [done|]; split; [done|]; intros [?|?] ?; simpl; try done).
  - split; [done|]. split; [done|]. split; [done|]. intros [hs|e] s'; simpl; [|done].
    by destruct (healthy hs).
  - split; [done|]. split; [done|]. split; [done|]. intros [r|e] s'; simpl; [|done].
    by destruct (optimized r).
Qed.

Lemma loop_iteration_in_iteration name s : in_iteration name (loop_iteration name s).
Proof.
  destruct (loop_try_in_try name s) as (b & Hb & Htry).
  pose proof (in_try_iteration name b Htry) as H.
  unfold loop_iteration. unfold mbind at 1, coro_bind at 1. by rewrite Hb.
Qed.

Lemma loop_iteration_polls_first name s :
  ∃ (X : Type) (c : call X) k,
    loop_iteration name s = Calling true c s k ∧ polls_first name c = true.
Proof. destruct name; do 3 eexists; (split; [reflexivity|reflexivity]). Qed.

(** ** The event loop keeps every task inside its loop *)

Section EventLoopInvariant.

Context {W : Type} (respond : responder W).

Lemma task_ok_request_cancel t : task_ok t → task_ok (request_cancel t).
Proof. by destruct t as [n [] b]. Qed.

Lemma plain_call_tasks_ok {X : Type} (c : call X) w ts :
  tasks_ok ts → tasks_ok (plain_call respond c w ts).2.
Proof.
  intros Hts. destruct c; simpl; try exact Hts.
  - apply Forall_app. split; [exact Hts|]. by apply Forall_singleton.
  - destruct (ts !! t) as [tk|] eqn:Ht; [|exact Hts].
    destruct (terminated (t_status tk)); [exact Hts|]. simpl.
    apply Forall_insert; [exact Hts|].
    apply task_ok_request_cancel. by eapply (Forall_lookup_1 task_ok).
Qed.

Lemma advance_tasks_ok {A : Type} (r : res A) w ts :
  tasks_ok ts → tasks_ok (adv_tasks (advance respond r w ts)).
Proof.
  revert w ts. induction r as [o s|[] X c s k IH]; intros w ts Hts; simpl; try done.
  pose proof (plain_call_tasks_ok c w ts Hts) as Hp.
  destruct (plain_call respond c w ts) as [[o w'] ts']. simpl in *. by apply IH.
Qed.

(** Inside an iteration every call is awaited: the task runs to its next
    [await] without calling anything on the way. *)
Lemma advance_in_iteration name (r : res unit) w ts :
  in_iteration name r →
  adv_world (advance respond r w ts) = w ∧
  adv_tasks (advance respond r w ts) = ts ∧
  adv_events (advance respond r w ts) = [] ∧
  match adv_pause (advance respond r w ts) with
  | Done (Returns _) => False
  | Done (Raises e) => isinstance_Exception e = false
  | AtAwait c k =>
      (∀ d, sleep_delay c = Some d →
            d = loop_interval name (config (adv_self (advance respond r w ts)))) ∧
      node_ok (in_iteration name) name c k
  end.
Proof.
  destruct r as [[[]|e] s|aw X c s k]; simpl; try done.
  intros (-> & Hd & Hk). simpl. done.
Qed.

Lemma put_task_lookup h st (a : advanced unit W) evs (sys : system W) t :
  adv_tasks a !! h = Some t →
  sys_tasks (put_task h st a evs sys) !! h = Some (with_status st t).
Proof. intros Ht. simpl. by rewrite list_lookup_alter_eq, Ht. Qed.

Lemma put_task_ok h st (a : advanced unit W) evs (sys : system W) :
  tasks_ok (adv_tasks a) →
  (∀ t, adv_tasks a !! h = Some t → task_ok (with_status st t)) →
  tasks_ok (sys_tasks (put_task h st a evs sys)).
Proof.
  intros Hts Hst. simpl. apply Forall_alter; [exact Hts|]. intros t Ht _. by apply Hst.
Qed.

Lemma enter_loop_ok h name s w ts evs (sys : system W) t :
  tasks_ok ts → ts !! h = Some t → t_name t = name →
  tasks_ok (sys_tasks (enter_loop respond h name s w ts evs sys)).
Proof.
  intros Hts Ht Hn. unfold enter_loop. destruct (_running s).
  - destruct (advance_in_iteration name (loop_iteration name s) w ts
                (loop_iteration_in_iteration name s)) as (_ & Hts' & _ & Hp).
    apply put_task_ok; [by rewrite Hts'|]. rewrite Hts'. intros t' Ht'.
    assert (t' = t) as -> by congruence.
    destruct (adv_pause _) as [[[]|e]|X c k]; try done.
    unfold task_ok. simpl. rewrite Hn. apply Hp.
  - apply put_task_ok; [done|]. done.
Qed.

Lemma task_step_ok h (sys sys' : system W) :
  tasks_ok (sys_tasks sys) → task_step respond h sys = Some sys' →
  tasks_ok (sys_tasks sys').
Proof.
  intros Hts. unfold task_step.
  destruct (sys_tasks sys !! h) as [t|] eqn:Ht; simpl; [|done].
  pose proof (Forall_lookup_1 task_ok _ _ _ Hts Ht) as Hok.
  destruct t as [name st cancel]. simpl in *. destruct st as [|X c k| |e]; try done.
  - destruct cancel; intros [= <-].
    + by apply put_task_ok.
    + by eapply enter_loop_ok.
  - assert (Hresume : ∀ o w evs,
               tasks_ok (sys_tasks (resume_task respond h name c k o w evs sys))).
    { intros o w evs. unfold resume_task.
      destruct (node_ok_cases _ _ _ _ Hok o (sys_self sys)) as [[_ Hr]|[_ Hr]].
      - destruct (advance_in_iteration name _ w (sys_tasks sys) Hr)
          as (_ & Hts' & _ & Hp).
        destruct (adv_pause _) as [[[]|e]|X' c' k'] eqn:Hpause; try done.
        + apply put_task_ok; [by rewrite Hts'|done].
        + apply put_task_ok; [by rewrite Hts'|]. intros t' Ht'.
          rewrite Hts', Ht in Ht'. injection Ht' as <-.
          unfold task_ok. simpl. apply Hp.
      - rewrite Hr. simpl. destruct (forget_value o) as [[]|e].
        + by eapply enter_loop_ok.
        + by apply put_task_ok. }
    destruct cancel.
    + intros [= <-]. apply Hresume.
    + destruct (awaited_outcome respond c (sys_world sys) (sys_tasks sys)) as [ow|];
        simpl; [|done].
      intros [= <-]. apply Hresume.
Qed.

Lemma put_main_ok o (a : advanced op_value W) evs (sys : system W) :
  tasks_ok (adv_tasks a) → tasks_ok (sys_tasks (put_main o a evs sys)).
Proof. done. Qed.

Lemma sys_step_ok ch (sys sys' : system W) :
  tasks_ok (sys_tasks sys) → sys_step respond ch sys = Some sys' →
  tasks_ok (sys_tasks sys').
Proof.
  intros Hts. destruct ch as [o| |h]; simpl.
  - unfold invoke_step. destruct (sys_main sys); [|done].
    intros [= <-]. by apply put_main_ok, advance_tasks_ok.
  - unfold main_step. destruct (sys_main sys) as [|o X c k]; [done|].
    destruct (awaited_outcome respond c (sys_world sys) (sys_tasks sys)) as [ow|];
      simpl; [|done].
    intros [= <-]. by apply put_main_ok, advance_tasks_ok.
  - by apply task_step_ok.
Qed.

Lemma exec_ok schedule (sys sys' : system W) :
  tasks_ok (sys_tasks sys) → exec respond schedule sys = Some sys' →
  tasks_ok (sys_tasks sys').
Proof.
  revert sys. induction schedule as [|ch schedule IH]; intros sys Hts; simpl.
  - by intros [= <-].
  - destruct (sys_step respond ch sys) as [sys1|] eqn:Hstep; simpl; [|done].
    apply IH. by eapply sys_step_ok.
Qed.

Lemma reachable_ok cfg w schedule (sys : system W) :
  exec respond schedule (boot cfg w) = Some sys → tasks_ok (sys_tasks sys).
Proof. apply exec_ok. by apply Forall_nil. Qed.

End EventLoopInvariant.

Section Loops.

Context {W : Type} (respond : responder W).

Lemma awaited_outcome_in_loop name {X : Type} (c : call X) k w ts :
  node_ok (in_iteration name) name c k →
  ∃ ow, awaited_outcome respond c w ts = Some ow ∧
        (is_sleep c = true → forget_value ow.1 = Returns tt ∧ ow.2 = w) ∧
        (is_sleep c = false → ow = respond _ c w).
Proof.
  destruct c; simpl; try done; intros _; eexists; (split; [reflexivity|]); done.
Qed.

(** What [while self._running:] does when the task reaches it. *)
Lemma enter_loop_spec h name s w ts evs (sys : system W) t :
  ts !! h = Some t → t_name t = name →
  ∃ t',
    sys_tasks (enter_loop respond h name s w ts evs sys) !! h = Some t' ∧
    t_name t' = name ∧ t_must_cancel t' = false ∧
    sys_self (enter_loop respond h name s w ts evs sys) = s ∧
    sys_main (enter_loop respond h name s w ts evs sys) = sys_main sys ∧
    sys_returned (enter_loop respond h name s w ts evs sys) = sys_returned sys ∧
    if _running s then begun_iteration t' = true else t_status t' = Returned.
Proof.
  intros Ht Hn. unfold enter_loop. destruct (_running s).
  - destruct (loop_iteration_polls_first name s) as (X & c & k & Hit & Hfirst).
    rewrite Hit. simpl. rewrite list_lookup_alter_eq, Ht. simpl.
    eexists; split; [reflexivity|]. unfold begun_iteration. simpl. by rewrite Hn.
  - simpl. rewrite list_lookup_alter_eq, Ht. simpl.
    eexists; split; [reflexivity|]. done.
Qed.

(** A task goes on after a collaborator's answer: it stays inside the
    iteration, unless an exception that is not an [Exception] leaves it. *)
Lemma resume_in_iteration h name {X : Type} (c : call X) k o w evs (sys : system W) t :
  node_ok (in_iteration name) name c k → is_sleep c = false →
  sys_tasks sys !! h = Some t → t_name t = name →
  ∃ t',
    sys_tasks (resume_task respond h name c k o w evs sys) !! h = Some t' ∧
    t_name t' = name ∧
    sys_main (resume_task respond h name c k o w evs sys) = sys_main sys ∧
    sys_returned (resume_task respond h name c k o w evs sys) = sys_returned sys ∧
    (∀ d, sleeping_for d t' →
          d = loop_interval name
                (config (sys_self (resume_task respond h name c k o w evs sys)))) ∧
    never_ends_loop (t_status t').
Proof.
  intros Hok Hc Ht Hn. unfold resume_task.
  destruct (node_ok_inv _ _ _ _ Hok Hc) as (_ & Hk & _).
  destruct (advance_in_iteration respond name _ w (sys_tasks sys) (Hk o (sys_self sys)))
    as (_ & Hts & _ & Hp).
  destruct (adv_pause _) as [[[]|e]|X' c' k'] eqn:Hpause; try done.
  - eexists. split; [apply put_task_lookup; by rewrite Hts|].
    unfold sleeping_for. simpl. repeat split; try done.
  - eexists. split; [apply put_task_lookup; rewrite Hts; exact Ht|].
    simpl. repeat split; try done.
    unfold sleeping_for. simpl. intros d Hd. apply Hp. destruct c'; try done. simpl in *. by subst.
Qed.

(** A collaborator raised an [Exception] inside the iteration: the error
    is logged and the task sleeps its interval. *)
Lemma resume_after_error h name {X : Type} (c : call X) k e w evs (sys : system W) t :
  node_ok (in_iteration name) name c k → is_sleep c = false →
  isinstance_Exception e = true →
  sys_tasks sys !! h = Some t → t_name t = name →
  ∃ k',
    sys_tasks (resume_task respond h name c k (Raises e) w evs sys) !! h
      = Some (with_status (Awaiting (asyncio_sleep (loop_interval name (config (sys_self sys)))) k') t) ∧
    (∀ o s', k' o s' = Finished o s') ∧
    logger (sys_self (resume_task respond h name c k (Raises e) w evs sys))
      = (logger (sys_self sys) ++ [loop_error_record name e])%list.
Proof.
  intros Hok Hc He Ht Hn. unfold resume_task.
  destruct (node_ok_inv _ _ _ _ Hok Hc) as (_ & _ & Hraise).
  rewrite (Hraise e (sys_self sys) He). simpl.
  eexists. split; [by rewrite list_lookup_alter_eq, Ht|]. done.
Qed.

(** A task goes on after its sleep: the iteration is over and the loop
    tests [_running]; a cancellation ends the task. *)
Lemma resume_after_sleep h name d k o w evs (sys : system W) t :
  node_ok (in_iteration name) name (asyncio_sleep d) k →
  sys_tasks sys !! h = Some t → t_name t = name →
  ∃ t',
    sys_tasks (resume_task respond h name (asyncio_sleep d) k o w evs sys) !! h = Some t' ∧
    t_name t' = name ∧
    match o with
    | Returns _ =>
        if _running (sys_self sys) then begun_iteration t' = true
        else t_status t' = Returned
    | Raises e => t_status t' = Failed e
    end.
Proof.
  intros Hok Ht Hn. unfold resume_task. rewrite (Hok o (sys_self sys)). simpl.
  destruct o as [[]|e]; simpl.
  - destruct (enter_loop_spec h name (sys_self sys) w (sys_tasks sys) (evs ++ []) sys t Ht Hn)
      as (t' & Ht' & Hn' & _ & _ & _ & _ & Hrun).
    by exists t'.
  - eexists. split; [by rewrite list_lookup_alter_eq, Ht|]. done.
Qed.

(** C1 (amended).  In every state the event loop can reach, a loop task
    that has not terminated can run, and when it does:
    - if it stood at the top of its loop (not started yet, or in the sleep
      that ends an iteration), no cancellation was pending and [_running]
      was true, it has begun an iteration: it awaits the first collaborator
      of its loop;
    - if it now sleeps, it sleeps the interval configured for its loop:
      [config.metrics.collection_interval] for the metrics loop,
      [config.health.check_interval] for the health loop and
      [config.performance.optimization_interval] for the optimisation
      loop;
    - if it has terminated, then either it returned, having stood at the
      top of its loop and found [_running] false, or an exception that is
      not an [Exception] left it (the [CancelledError] of [task.cancel()],
      or such an exception raised by a collaborator). *)
Theorem loop_task_lifecycle cfg w0 schedule (sys : system W) h t :
  exec respond schedule (boot cfg w0) = Some sys →
  sys_tasks sys !! h = Some t →
  terminated (t_status t) = false →
  ∃ sys' t',
    task_step respond h sys = Some sys' ∧
    sys_tasks sys' !! h = Some t' ∧
    t_name t' = t_name t ∧
    (at_loop_top t = true → t_must_cancel t = false → _running (sys_self sys) = true →
     begun_iteration t' = true) ∧
    (∀ d, sleeping_for d t' →
          d = match t_name t with
              | metrics_collection => collection_interval (config (sys_self sys'))
              | health_monitoring => check_interval (config (sys_self sys'))
              | performance_optimization => optimization_interval (config (sys_self sys'))
              end) ∧
    match t_status t' with
    | AtTop => False
    | Awaiting _ _ => True
    | Returned =>
        at_loop_top t = true ∧ t_must_cancel t = false ∧ _running (sys_self sys) = false
    | Failed e => isinstance_Exception e = false
    end.
Proof.
  intros Hreach Ht Hlive.
  pose proof (Forall_lookup_1 task_ok _ _ _ (reachable_ok respond _ _ _ _ Hreach) Ht) as Hok.
  unfold task_step. rewrite Ht. simpl.
  destruct t as [name st cancel]. simpl in *. destruct st as [|X c k| |e]; try done.
  - (* not started *)
    destruct cancel.
    + eexists _, _. split; [reflexivity|]. split; [apply put_task_lookup; exact Ht|].
      simpl. repeat split; try done.
    + destruct (enter_loop_spec h name (sys_self sys) (sys_world sys) (sys_tasks sys) []
                  sys _ Ht eq_refl) as (t' & Ht' & Hn & Hc & Hs & _ & _ & Hrun).
      eexists _, t'. split; [reflexivity|]. split; [exact Ht'|]. split; [exact Hn|].
      rewrite Hs. destruct (_running (sys_self sys)).
      * split; [done|]. unfold begun_iteration in Hrun. unfold sleeping_for.
        destruct (t_status t') as [|X c k| |e]; try done.
        split; [|done]. simpl in *. intros d Hd. destruct c; try done.
        by destruct (t_name t').
      * rewrite Hrun. unfold sleeping_for. rewrite Hrun. done.
  - (* stopped at an await *)
    unfold task_ok in Hok. simpl in Hok.
    destruct (is_sleep c) eqn:Hc.
    + (* in the sleep that ends an iteration *)
      destruct c; try discriminate Hc. unfold at_loop_top. simpl.
      assert (Hgo : ∀ o w evs,
        ∃ t', sys_tasks (resume_task respond h name (asyncio_sleep delay) k o w evs sys) !! h
                = Some t' ∧ t_name t' = name ∧
              match o with
              | Returns _ =>
                  if _running (sys_self sys) then begun_iteration t' = true
                  else t_status t' = Returned
              | Raises e => t_status t' = Failed e
              end).
      { intros o w evs. by eapply resume_after_sleep. }
      assert (Hnot_sleeping : ∀ t', begun_iteration t' = true → ∀ d, ¬ sleeping_for d t').
      { intros t'. unfold begun_iteration, sleeping_for.
        destruct (t_status t') as [|X c' k'| |e]; try done.
        destruct c'; try (by intros ? ? []). by destruct (t_name t'). }
      destruct cancel.
      * destruct (Hgo (Raises CancelledError) (sys_world sys)
                    [Ev (asyncio_sleep delay) (Raises CancelledError)])
          as (t' & Ht' & Hn & Hst).
        eexists _, t'. split; [reflexivity|]. split; [exact Ht'|]. split; [exact Hn|].
        unfold sleeping_for. rewrite Hst. done.
      * simpl.
        destruct (Hgo (Returns tt) (sys_world sys) [Ev (asyncio_sleep delay) (Returns tt)])
          as (t' & Ht' & Hn & Hst).
        eexists _, t'. split; [reflexivity|]. split; [exact Ht'|]. split; [exact Hn|].
        destruct (_running (sys_self sys)).
        -- split; [done|]. split; [intros d Hd; by destruct (Hnot_sleeping t' Hst d)|].
           unfold begun_iteration in Hst. by destruct (t_status t').
        -- unfold sleeping_for. rewrite Hst. done.
    + (* at a collaborator call *)
      unfold at_loop_top. simpl. rewrite Hc.
      assert (Hgo : ∀ o w evs,
        ∃ t', sys_tasks (resume_task respond h name c k o w evs sys) !! h = Some t' ∧
              t_name t' = name ∧
              (∀ d, sleeping_for d t' →
                    d = loop_interval name
                          (config (sys_self (resume_task respond h name c k o w evs sys)))) ∧
              never_ends_loop (t_status t')).
      { intros o w evs.
        destruct (resume_in_iteration h name c k o w evs sys _ Hok Hc Ht eq_refl)
          as (t' & Ht' & Hn & _ & _ & Hd & Hst).
        by exists t'. }
      destruct cancel.
      * destruct (Hgo (Raises CancelledError) (sys_world sys)
                    [Ev c (Raises CancelledError)]) as (t' & Ht' & Hn & Hd & Hst).
        eexists _, t'. split; [reflexivity|]. split; [exact Ht'|]. split; [exact Hn|].
        split; [done|]. split; [exact Hd|]. by destruct (t_status t').
      * destruct (awaited_outcome_in_loop name c k (sys_world sys) (sys_tasks sys) Hok)
          as (ow & -> & _). simpl.
        destruct (Hgo ow.1 ow.2 [Ev c ow.1]) as (t' & Ht' & Hn & Hd & Hst).
        eexists _, t'. split; [reflexivity|]. split; [exact Ht'|]. split; [exact Hn|].
        split; [done|]. split; [exact Hd|]. by destruct (t_status t').
Qed.

(** C9.  In every state the event loop can reach, when a loop task is
    stopped at a collaborator call of its iteration and the collaborator
    raises an [Exception]: the task catches it and logs its loop's error
    message, then sleeps the interval configured for its loop:
    [config.metrics.collection_interval] for the metrics loop,
    [config.health.check_interval] for the health loop and
    [config.performance.optimization_interval] for the optimisation loop.
    The task has not terminated, and the caller's coroutine and what it
    was given back are untouched.  When the task runs next with
    [_running] true, it begins the next iteration. *)
Theorem loop_error_is_contained cfg w0 schedule (sys : system W) h t
    {X : Type} (c : call X) k e w' :
  exec respond schedule (boot cfg w0) = Some sys →
  sys_tasks sys !! h = Some t →
  t_status t = Awaiting c k →
  t_must_cancel t = false →
  is_sleep c = false →
  respond X c (sys_world sys) = (Raises e, w') →
  isinstance_Exception e = true →
  ∃ sys' t',
    task_step respond h sys = Some sys' ∧
    sys_tasks sys' !! h = Some t' ∧
    t_name t' = t_name t ∧
    logger (sys_self sys') = (logger (sys_self sys) ++ [loop_error_record (t_name t) e])%list ∧
    sleeping_for (match t_name t with
                  | metrics_collection => collection_interval (config (sys_self sys))
                  | health_monitoring => check_interval (config (sys_self sys))
                  | performance_optimization => optimization_interval (config (sys_self sys))
                  end) t' ∧
    terminated (t_status t') = false ∧
    sys_main sys' = sys_main sys ∧
    sys_returned sys' = sys_returned sys ∧
    ∀ sys2 : system W,
      sys_tasks sys2 !! h = Some t' → _running (sys_self sys2) = true →
      ∃ sys3 t3,
        task_step respond h sys2 = Some sys3 ∧
        sys_tasks sys3 !! h = Some t3 ∧
        begun_iteration t3 = true.
Proof.
  intros Hreach Ht Hst Hcancel Hc Hanswer He.
  pose proof (Forall_lookup_1 task_ok _ _ _ (reachable_ok respond _ _ _ _ Hreach) Ht) as Hok.
  destruct t as [name st cancel]. simpl in *. subst st cancel.
  unfold task_ok in Hok. simpl in Hok.
  destruct (awaited_outcome_in_loop name c k (sys_world sys) (sys_tasks sys) Hok)
    as (ow & Hready & _ & Hcollab). rewrite (Hcollab Hc), Hanswer in Hready.
  destruct (resume_after_error h name c k e w' [Ev c (Raises e)] sys _ Hok Hc He Ht eq_refl)
    as (k' & Ht' & Hk' & Hlog).
  destruct (resume_in_iteration h name c k (Raises e) w' [Ev c (Raises e)] sys _
              Hok Hc Ht eq_refl) as (t'' & Ht'' & _ & Hmain & Hret & _ & _).
  eexists _, _. split.
  { unfold task_step. rewrite Ht. simpl. rewrite Hready. simpl. reflexivity. }
  split; [exact Ht'|]. split; [reflexivity|]. split; [exact Hlog|].
  split; [reflexivity|]. split; [reflexivity|]. split; [exact Hmain|]. split; [exact Hret|].
  intros sys2 Ht2 Hrun.
  destruct (resume_after_sleep h name (loop_interval name (config (sys_self sys))) k'
              (Returns tt) (sys_world sys2)
              [Ev (asyncio_sleep (loop_interval name (config (sys_self sys)))) (Returns tt)]
              sys2 _ Hk' Ht2 eq_refl) as (t3 & Ht3 & _ & Hbegun).
  rewrite Hrun in Hbegun.
  eexists _, t3. split; [|split; [exact Ht3|exact Hbegun]].
  unfold task_step. rewrite Ht2. reflexivity.
Qed.

End Loops.

(** ** The code on concrete inputs *)

(** C6, on a run: [initialize] twice in the scripted environment. *)
Lemma initialize_is_idempotent_witness :
  value sim_initialized = Returns true ∧
  run sim_respond (initialize (self_after sim_initialized)) (world_after sim_initialized)
  = {| value := Returns true; self_after := self_after sim_initialized;
       world_after := world_after sim_initialized; trace := [] |} ∧
  (_initialized (CogneeCore_init sim_config) = false →
     (∀ x, count (is_initialize_of x)
             (trace sim_initialized
              ++ trace (run sim_respond (initialize (self_after sim_initialized))
                          (world_after sim_initialized))) = 1%nat) ∧
     count is_create_task
       (trace sim_initialized
        ++ trace (run sim_respond (initialize (self_after sim_initialized))
                    (world_after sim_initialized))) = 3%nat).
Proof.
  split; [vm_compute; reflexivity|].
  apply (initialize_is_idempotent sim_respond sim_respond (CogneeCore_init sim_config)
           sim_world (world_after sim_initialized)).
  vm_compute; reflexivity.
Defined.

(** C7, on a run: the embedding manager cannot be initialised. *)
Lemma initialize_failure_then_retry_witness :
  existsb init_raised
    (trace (run sim_respond (initialize (CogneeCore_init sim_config)) sim_broken)) = true ∧
  value (run sim_respond (initialize (CogneeCore_init sim_config)) sim_broken)
  = Returns false ∧
  omap initialized_component
    (trace (run sim_respond (initialize (CogneeCore_init sim_config)) sim_broken))
  = [knowledge_graph; data_processor; embedding_manager].
Proof.
  assert (H : existsb init_raised
                (trace (run sim_respond (initialize (CogneeCore_init sim_config)) sim_broken))
              = true) by (vm_compute; reflexivity).
  split; [exact H|].
  split; [|vm_compute; reflexivity].
  exact (proj1 (initialize_failure_then_retry sim_respond (CogneeCore_init sim_config)
                  sim_broken H)).
Defined.

(** C4, on a run: a miss in the scripted environment searches and counts. *)
Lemma query_counter_counts_searches_witness :
  value (run sim_respond
           (query_knowledge sim_hash "x" (Some filters_ab) (Some 10)
              (self_after sim_initialized))
           (world_after sim_initialized))
  = Returns (sim_found sim_world) ∧
  search_queries
    (_metrics
       (self_after
          (run sim_respond
             (query_knowledge sim_hash "x" (Some filters_ab) (Some 10)
                (self_after sim_initialized))
             (world_after sim_initialized))))
  = search_queries (_metrics (self_after sim_initialized)) + 1.
Proof.
  assert (H : value (run sim_respond
                       (query_knowledge sim_hash "x" (Some filters_ab) (Some 10)
                          (self_after sim_initialized))
                       (world_after sim_initialized))
              = Returns (sim_found sim_world)) by (vm_compute; reflexivity).
  split; [exact H|].
  destruct (query_counter_counts_searches sim_hash sim_respond "x" (Some filters_ab)
              (Some 10) (self_after sim_initialized) (world_after sim_initialized)
              (sim_found sim_world) H) as [[_ Hcount]|[Hnone _]].
  - exact Hcount.
  - vm_compute in Hnone. discriminate Hnone.
Defined.

(** C4 as stated fails on a hit: [query_knowledge("x", filters_ab, 10)]
    called again after its result was cached returns normally — the cached
    value — and the search-query counter is what it was, not one more. *)
Lemma query_hit_leaves_counter :
  let before :=
    self_after
      (run sim_respond
         (query_knowledge sim_hash "x" (Some filters_ab) (Some 10) (self_after sim_initialized))
         (world_after sim_initialized)) in
  let again :=
    run sim_respond (query_knowledge sim_hash "x" (Some filters_ab) (Some 10) before)
      sim_cached_ab in
  value again = Returns (sim_found sim_world) ∧
  count is_semantic_search (trace again) = 0%nat ∧
  search_queries (_metrics (self_after again)) = search_queries (_metrics before) ∧
  search_queries (_metrics (self_after again)) ≠ search_queries (_metrics before) + 1.
Proof. vm_compute. repeat split; try reflexivity. discriminate. Qed.

(** C2 as stated fails: [filters_ab] and [filters_ba] hold the same pairs,
    [str] renders them differently, and the keys differ for every [hash]
    that tells the two renderings apart ([sim_hash] is one).  With the result
    for [filters_ab] cached, the call with [filters_ab] is a hit and the call
    with [filters_ba] is a miss. *)
Lemma cache_key_depends_on_insertion_order :
  filters_ab ≡ₚ filters_ba ∧
  str_filters (Some filters_ab) = "{'a': 1, 'b': 2}" ∧
  str_filters (Some filters_ba) = "{'b': 2, 'a': 1}" ∧
  (∀ hash : string → Z,
     hash "{'a': 1, 'b': 2}" ≠ hash "{'b': 2, 'a': 1}" →
     cache_key hash "x" (Some filters_ab) (Some 10)
     ≠ cache_key hash "x" (Some filters_ba) (Some 10)) ∧
  cache_key sim_hash "x" (Some filters_ab) (Some 10)
  ≠ cache_key sim_hash "x" (Some filters_ba) (Some 10) ∧
  count is_semantic_search
    (trace (run sim_respond
              (query_knowledge sim_hash "x" (Some filters_ab) (Some 10)
                 (self_after sim_initialized)) sim_cached_ab)) = 0%nat ∧
  count is_semantic_search
    (trace (run sim_respond
              (query_knowledge sim_hash "x" (Some filters_ba) (Some 10)
                 (self_after sim_initialized)) sim_cached_ab)) = 1%nat.
Proof.
  split; [apply Permutation_swap|]. split; [reflexivity|]. split; [reflexivity|].
  split.
  { intros hash Hne Hkey. apply Hne.
    exact (cache_key_eq_hash hash "x" (Some 10) (Some filters_ab) (Some filters_ba) Hkey). }
  split; [intros H; vm_compute in H; discriminate H|].
  split; vm_compute; reflexivity.
Qed.

(** C5 at the failing input: the cache holds the empty list for
    [query_knowledge("x", {}, 10)].  The cached value is not returned from
    the cache: the search collaborator is invoked and its result is written
    to the cache again. *)
Theorem query_empty_cached_searches_again :
  sim_cache sim_cached_empty !! cache_key sim_hash "x" (Some []) (Some 10) = Some [] ∧
  trace (run sim_respond
           (query_knowledge sim_hash "x" (Some []) (Some 10) (self_after sim_initialized))
           sim_cached_empty)
  = [ Ev (cache_get (cache_key sim_hash "x" (Some []) (Some 10))) (Returns (Some []));
      Ev (semantic_search "x" (Some []) (Some 10)) (Returns (sim_found sim_world));
      Ev (cache_set (cache_key sim_hash "x" (Some []) (Some 10)) (sim_found sim_world))
        (Returns tt) ].
Proof. split; vm_compute; reflexivity. Qed.

(** C1 as stated fails, in both of its parts.

    First run ([schedule_yield]): [initialize] returns [True], the event loop
    gets a turn, then [start_api] returns.  Each loop tested [_running] while
    it was still false and returned: with [_running] true, all three loops
    have terminated, none has executed an iteration and none can run again.

    Second run ([schedule_stopping], then the health task): [stop_api] has
    set [_running] false and cancelled the tasks; the health loop, asleep in
    an iteration, terminates with [CancelledError] at its sleep, without
    having tested [_running]. *)
Lemma loops_do_not_follow_running :
  (sys_returned <$> sim_after sim_world schedule_yield
   = Some [(op_initialize, Returns (V_bool true));
           (op_start_api None None, Returns V_none)] ∧
   (λ sys, _running (sys_self sys)) <$> sim_after sim_world schedule_yield = Some true ∧
   (λ sys, phase_of <$> sys_tasks sys) <$> sim_after sim_world schedule_yield
   = Some [HasReturned; HasReturned; HasReturned] ∧
   (λ sys, count is_loop_event (sys_trace sys)) <$> sim_after sim_world schedule_yield
   = Some 0%nat ∧
   sim_after sim_world (schedule_yield ++ [RunTask 0]) = None ∧
   sim_after sim_world (schedule_yield ++ [RunTask 1]) = None ∧
   sim_after sim_world (schedule_yield ++ [RunTask 2]) = None) ∧
  ((λ sys, _running (sys_self sys)) <$> sim_after sim_world schedule_stopping = Some false ∧
   (λ sys, phase_of <$> sys_tasks sys !! 1%nat) <$> sim_after sim_world schedule_stopping
   = Some (Some (Sleeping 30)) ∧
   (λ sys, phase_of <$> sys_tasks sys !! 1%nat)
     <$> sim_after sim_world (schedule_stopping ++ [RunTask 1])
   = Some (Some (HasFailed CancelledError)) ∧
   (λ sys, last (sys_trace sys)) <$> sim_after sim_world (schedule_stopping ++ [RunTask 1])
   = Some (Some (Ev (asyncio_sleep 30) (Raises CancelledError)))).
Proof. split; repeat split; vm_compute; reflexivity. Qed.

(** C1 (amended), on runs.  After [initialize] and [start_api] with no turn
    given in between, the metrics task, not started yet, runs and begins an
    iteration.  In the degraded environment each loop, stopped at its first
    collaborator call, runs and goes to sleep: the metrics loop for the 60
    seconds of [collection_interval], the health loop for the 30 of
    [check_interval], the optimisation loop for the 300 of
    [optimization_interval]. *)
Lemma loop_task_lifecycle_witness :
  (exec sim_respond schedule_started (boot sim_config sim_world)
   = Some (sim_state sim_world schedule_started) ∧
   sys_tasks (sim_state sim_world schedule_started) !! 0%nat
   = Some (new_task metrics_collection) ∧
   _running (sys_self (sim_state sim_world schedule_started)) = true ∧
   ∃ sys' t',
     task_step sim_respond 0 (sim_state sim_world schedule_started) = Some sys' ∧
     sys_tasks sys' !! 0%nat = Some t' ∧
     begun_iteration t' = true) ∧
  exec sim_respond_degraded schedule_polling (boot sim_config sim_world) = Some sim_degraded ∧
  t_name <$> sys_tasks sim_degraded
  = [metrics_collection; health_monitoring; performance_optimization] ∧
  (∃ sys' t',
     task_step sim_respond_degraded 0 sim_degraded = Some sys' ∧
     sys_tasks sys' !! 0%nat = Some t' ∧
     phase_of t' = Sleeping 60 ∧ ∀ d, sleeping_for d t' → d = 60%Q) ∧
  (∃ sys' t',
     task_step sim_respond_degraded 1 sim_degraded = Some sys' ∧
     sys_tasks sys' !! 1%nat = Some t' ∧
     phase_of t' = Sleeping 30 ∧ ∀ d, sleeping_for d t' → d = 30%Q) ∧
  (∃ sys' t',
     task_step sim_respond_degraded 2 sim_degraded = Some sys' ∧
     sys_tasks sys' !! 2%nat = Some t' ∧
     phase_of t' = Sleeping 300 ∧ ∀ d, sleeping_for d t' → d = 300%Q).
Proof.
  split.
  { assert (Hreach : exec sim_respond schedule_started (boot sim_config sim_world)
                     = Some (sim_state sim_world schedule_started))
      by (vm_compute; reflexivity).
    assert (Htask : sys_tasks (sim_state sim_world schedule_started) !! 0%nat
                    = Some (new_task metrics_collection)) by (vm_compute; reflexivity).
    assert (Hrun : _running (sys_self (sim_state sim_world schedule_started)) = true)
      by (vm_compute; reflexivity).
    split; [exact Hreach|]. split; [exact Htask|]. split; [exact Hrun|].
    destruct (loop_task_lifecycle sim_respond sim_config sim_world schedule_started
                (sim_state sim_world schedule_started) 0 (new_task metrics_collection)
                Hreach Htask eq_refl) as (sys' & t' & Hstep & Ht' & _ & Hbegin & _).
    exists sys', t'. split; [exact Hstep|]. split; [exact Ht'|].
    exact (Hbegin eq_refl eq_refl Hrun). }
  assert (Hreach : exec sim_respond_degraded schedule_polling (boot sim_config sim_world)
                   = Some sim_degraded) by (vm_compute; reflexivity).
  split; [exact Hreach|]. split; [vm_compute; reflexivity|].
  assert (Hphase : ∀ h,
            (h < 3)%nat →
            task_step sim_respond_degraded h sim_degraded
              ≫= (λ sys', (λ t', (phase_of t', config (sys_self sys'))) <$> sys_tasks sys' !! h)
            = Some (Sleeping (match h with 0%nat => 60 | 1%nat => 30 | _ => 300 end),
                    sim_config)).
  { intros [|[|[|h]]] Hh; [vm_compute; reflexivity..|lia]. }
  assert (Hsleeps : ∀ h sys' t',
            (h < 3)%nat →
            task_step sim_respond_degraded h sim_degraded = Some sys' →
            sys_tasks sys' !! h = Some t' →
            phase_of t' = Sleeping (match h with 0%nat => 60 | 1%nat => 30 | _ => 300 end) ∧
            config (sys_self sys') = sim_config).
  { intros h sys' t' Hh Hstep Ht'. specialize (Hphase h Hh).
    rewrite Hstep in Hphase. simpl in Hphase. rewrite Ht' in Hphase. simpl in Hphase.
    apply (inj Some), pair_equal_spec in Hphase. exact Hphase. }
  split; [|split].
  - lazymatch eval vm_compute in (sys_tasks sim_degraded !! 0%nat) with
    | Some ?t =>
        assert (Htask : sys_tasks sim_degraded !! 0%nat = Some t) by (vm_compute; reflexivity);
        destruct (loop_task_lifecycle sim_respond_degraded sim_config sim_world
                    schedule_polling sim_degraded 0 t Hreach Htask eq_refl)
          as (sys' & t' & Hstep & Ht' & _ & _ & Hd & _)
    end.
    exists sys', t'. split; [exact Hstep|]. split; [exact Ht'|].
    destruct (Hsleeps 0%nat sys' t' ltac:(lia) Hstep Ht') as [Hph Hcfg].
    split; [exact Hph|]. intros d Hsl. rewrite (Hd d Hsl). simpl. by rewrite Hcfg.
  - lazymatch eval vm_compute in (sys_tasks sim_degraded !! 1%nat) with
    | Some ?t =>
        assert (Htask : sys_tasks sim_degraded !! 1%nat = Some t) by (vm_compute; reflexivity);
        destruct (loop_task_lifecycle sim_respond_degraded sim_config sim_world
                    schedule_polling sim_degraded 1 t Hreach Htask eq_refl)
          as (sys' & t' & Hstep & Ht' & _ & _ & Hd & _)
    end.
    exists sys', t'. split; [exact Hstep|]. split; [exact Ht'|].
    destruct (Hsleeps 1%nat sys' t' ltac:(lia) Hstep Ht') as [Hph Hcfg].
    split; [exact Hph|]. intros d Hsl. rewrite (Hd d Hsl). simpl. by rewrite Hcfg.
  - lazymatch eval vm_compute in (sys_tasks sim_degraded !! 2%nat) with
    | Some ?t =>
        assert (Htask : sys_tasks sim_degraded !! 2%nat = Some t) by (vm_compute; reflexivity);
        destruct (loop_task_lifecycle sim_respond_degraded sim_config sim_world
                    schedule_polling sim_degraded 2 t Hreach Htask eq_refl)
          as (sys' & t' & Hstep & Ht' & _ & _ & Hd & _)
    end.
    exists sys', t'. split; [exact Hstep|]. split; [exact Ht'|].
    destruct (Hsleeps 2%nat sys' t' ltac:(lia) Hstep Ht') as [Hph Hcfg].
    split; [exact Hph|]. intros d Hsl. rewrite (Hd d Hsl). simpl. by rewrite Hcfg.
Defined.

(** C9, on runs: in the degraded environment every loop stands at its first
    collaborator call, which raises.  Each task logs the error message of
    its loop and sleeps the interval of its loop: the metrics loop 60
    seconds, the health loop 30, the optimisation loop 300. *)
Lemma loop_error_is_contained_witness :
  exec sim_respond_degraded schedule_polling (boot sim_config sim_world) = Some sim_degraded ∧
  phase_of <$> sys_tasks sim_degraded = [InCall; InCall; InCall] ∧
  (∃ sys' t',
     task_step sim_respond_degraded 0 sim_degraded = Some sys' ∧
     sys_tasks sys' !! 0%nat = Some t' ∧
     logger (sys_self sys')
     = (logger (sys_self sim_degraded)
        ++ [{| lvl := ERROR; fmt := "Metrics collection failed: {}";
               fmt_args := [A_exn (Exception "graph offline")] |}])%list ∧
     sleeping_for 60 t' ∧
     terminated (t_status t') = false) ∧
  (∃ sys' t',
     task_step sim_respond_degraded 1 sim_degraded = Some sys' ∧
     sys_tasks sys' !! 1%nat = Some t' ∧
     logger (sys_self sys')
     = (logger (sys_self sim_degraded)
        ++ [{| lvl := ERROR; fmt := "Health monitoring failed: {}";
               fmt_args := [A_exn (Exception "probe failed")] |}])%list ∧
     sleeping_for 30 t' ∧
     terminated (t_status t') = false) ∧
  (∃ sys' t',
     task_step sim_respond_degraded 2 sim_degraded = Some sys' ∧
     sys_tasks sys' !! 2%nat = Some t' ∧
     logger (sys_self sys')
     = (logger (sys_self sim_degraded)
        ++ [{| lvl := ERROR; fmt := "Performance optimization failed: {}";
               fmt_args := [A_exn (Exception "optimizer offline")] |}])%list ∧
     sleeping_for 300 t' ∧
     terminated (t_status t') = false).
Proof.
  assert (Hreach : exec sim_respond_degraded schedule_polling (boot sim_config sim_world)
                   = Some sim_degraded) by (vm_compute; reflexivity).
  split; [exact Hreach|]. split; [vm_compute; reflexivity|].
  split; [|split].
  - lazymatch eval vm_compute in (sys_tasks sim_degraded !! 0%nat) with
    | Some ?t =>
        assert (Htask : sys_tasks sim_degraded !! 0%nat = Some t) by (vm_compute; reflexivity);
        lazymatch t with
        | {| t_name := _; t_status := @Awaiting _ ?c ?k; t_must_cancel := _ |} =>
            destruct (loop_error_is_contained sim_respond_degraded sim_config sim_world
                        schedule_polling sim_degraded 0 t c k (Exception "graph offline")
                        (sys_world sim_degraded) Hreach Htask eq_refl eq_refl eq_refl
                        eq_refl eq_refl)
              as (sys' & t' & Hstep & Ht' & _ & Hlog & Hsleep & Hlive & _)
        end
    end.
    exists sys', t'. split; [exact Hstep|]. split; [exact Ht'|]. split; [exact Hlog|].
    split; [exact Hsleep|exact Hlive].
  - lazymatch eval vm_compute in (sys_tasks sim_degraded !! 1%nat) with
    | Some ?t =>
        assert (Htask : sys_tasks sim_degraded !! 1%nat = Some t) by (vm_compute; reflexivity);
        lazymatch t with
        | {| t_name := _; t_status := @Awaiting _ ?c ?k; t_must_cancel := _ |} =>
            destruct (loop_error_is_contained sim_respond_degraded sim_config sim_world
                        schedule_polling sim_degraded 1 t c k (Exception "probe failed")
                        (sys_world sim_degraded) Hreach Htask eq_refl eq_refl eq_refl
                        eq_refl eq_refl)
              as (sys' & t' & Hstep & Ht' & _ & Hlog & Hsleep & Hlive & _)
        end
    end.
    exists sys', t'. split; [exact Hstep|]. split; [exact Ht'|]. split; [exact Hlog|].
    split; [exact Hsleep|exact Hlive].
  - lazymatch eval vm_compute in (sys_tasks sim_degraded !! 2%nat) with
    | Some ?t =>
        assert (Htask : sys_tasks sim_degraded !! 2%nat = Some t) by (vm_compute; reflexivity);
        lazymatch t with
        | {| t_name := _; t_status := @Awaiting _ ?c ?k; t_must_cancel := _ |} =>
            destruct (loop_error_is_contained sim_respond_degraded sim_config sim_world
                        schedule_polling sim_degraded 2 t c k (Exception "optimizer offline")
                        (sys_world sim_degraded) Hreach Htask eq_refl eq_refl eq_refl
                        eq_refl eq_refl)
              as (sys' & t' & Hstep & Ht' & _ & Hlog & Hsleep & Hlive & _)
        end
    end.
    exists sys', t'. split; [exact Hstep|]. split; [exact Ht'|]. split; [exact Hlog|].
    split; [exact Hsleep|exact Hlive].
Defined.

(** C8, on runs: [start_api] on a fresh instance, on an initialised one,
    and on an initialised one whose server cannot be started. *)
Lemma start_api_contract_witness :
  run sim_respond (start_api None None (CogneeCore_init sim_config)) sim_world
  = {| value := Raises (RuntimeError "Cognee not initialized");
       self_after := CogneeCore_init sim_config; world_after := sim_world; trace := [] |} ∧
  value (run sim_respond (start_api None None (self_after sim_initialized))
           (world_after sim_initialized)) = Returns tt ∧
  _running (self_after (run sim_respond (start_api None None (self_after sim_initialized))
                          (world_after sim_initialized))) = true ∧
  value (run sim_respond (start_api None None (self_after sim_initialized)) sim_down)
  = Raises (Exception "address in use") ∧
  _running (self_after (run sim_respond (start_api None None (self_after sim_initialized))
                          sim_down)) = false.
Proof.
  assert (Hinit : _initialized (self_after sim_initialized) = true)
    by (vm_compute; reflexivity).
  split.
  { exact (proj1 (start_api_contract sim_respond None None (CogneeCore_init sim_config)
                    sim_world) eq_refl). }
  destruct (proj2 (start_api_contract sim_respond None None (self_after sim_initialized)
                     (world_after sim_initialized)) Hinit) as (_ & _ & Hup & _).
  destruct (proj2 (start_api_contract sim_respond None None (self_after sim_initialized)
                     sim_down) Hinit) as (_ & _ & Hdown & _).
  split; [exact (proj1 Hup)|]. split; [exact (proj2 Hup)|].
  split; [exact (proj1 Hdown)|]. exact (proj2 Hdown eq_refl).
Defined.

(** C10, on a run: [stop_api] after [initialize] and [start_api]. *)
Lemma stop_api_keeps_initialized_witness :
  let started :=
    run sim_respond (start_api None None (self_after sim_initialized))
      (world_after sim_initialized) in
  let stopped := run sim_respond (stop_api (self_after started)) (world_after started) in
  _initialized (self_after started) = true ∧
  forallb returned (trace stopped) = true ∧
  _initialized (self_after stopped) = true ∧
  _running (self_after stopped) = false ∧
  elements (_background_tasks (self_after stopped)) = [2; 1; 0]%nat ∧
  the_call <$> trace stopped
  = [some_call (task_cancel 2); some_call (task_cancel 1); some_call (task_cancel 0);
     some_call (gather [2; 1; 0]%nat); some_call server_stop] ∧
  run sim_respond (initialize (self_after stopped)) (world_after stopped)
  = {| value := Returns true; self_after := self_after stopped;
       world_after := world_after stopped; trace := [] |}.
Proof.
  intros started stopped.
  assert (Hinit : _initialized (self_after started) = true) by (vm_compute; reflexivity).
  assert (Hret : forallb returned (trace stopped) = true) by (vm_compute; reflexivity).
  destruct (stop_api_keeps_initialized sim_respond (self_after started) (world_after started))
    as (Hi & Ht & Hr & Hcalls & Hagain).
  split; [exact Hinit|]. split; [exact Hret|].
  split; [exact (eq_trans Hi Hinit)|]. split; [exact Hr|].
  split; [vm_compute; reflexivity|].
  split; [exact (proj2 (Hcalls Hret))|]. exact (Hagain Hinit (world_after stopped)).
Defined.

(** X1, on a run: a hit on the cached result for [filters_ab]. *)
Lemma query_hit_witness :
  value (run sim_respond
           (query_knowledge sim_hash "x" (Some filters_ab) (Some 10)
              (self_after sim_initialized)) sim_cached_ab)
  = Returns (sim_found sim_world) ∧
  length (trace (run sim_respond
                   (query_knowledge sim_hash "x" (Some filters_ab) (Some 10)
                      (self_after sim_initialized)) sim_cached_ab)) = 1%nat.
Proof.
  destruct (query_hit sim_hash sim_respond "x" (Some filters_ab) (Some 10)
              (self_after sim_initialized) sim_cached_ab [("id", PyStr "n1")] []
              sim_cached_ab eq_refl) as [Hv Ht].
  - vm_compute; reflexivity.
  - split; [exact Hv|]. by rewrite Ht.
Defined.

(** X2, on a run: the miss that cached it. *)
Lemma query_miss_witness :
  value (run sim_respond
           (query_knowledge sim_hash "x" (Some filters_ab) (Some 10)
              (self_after sim_initialized)) (world_after sim_initialized))
  = Returns (sim_found sim_world) ∧
  count is_cache_set
    (trace (run sim_respond
              (query_knowledge sim_hash "x" (Some filters_ab) (Some 10)
                 (self_after sim_initialized)) (world_after sim_initialized))) = 1%nat.
Proof.
  destruct (query_miss sim_hash sim_respond "x" (Some filters_ab) (Some 10)
              (self_after sim_initialized) (world_after sim_initialized)
              (world_after sim_initialized) (sim_found sim_world)
              (world_after sim_initialized) sim_cached_ab eq_refl) as [Hv Ht].
  - vm_compute; reflexivity.
  - vm_compute; reflexivity.
  - vm_compute; reflexivity.
  - split; [exact Hv|]. by rewrite Ht.
Defined.

(** ** Knowledge, insights and integrations *)

Section Pipelines.

Context {W : Type} (respond : xresponder W).


(** X4.  [add_knowledge] on an initialised instance, when it raises [e]:
    the stages ran in order up to one that raised [e], and none after it;
    the stages before it returned and are not undone; the exception that
    reaches the caller is the one the stage raised; [_metrics] is
    unchanged (the document is not counted); an instance of [Exception]
    is logged once, any other exception is not logged. *)
Theorem add_knowledge_failure data metadata s w e :
  _initialized s = true →
  xvalue (xrun respond (add_knowledge data metadata s) w) = Raises e →
  let r := xrun respond (add_knowledge data metadata s) w in
  (∃ failed,
     omap stage_of (xtrace r) = stages_up_to failed ∧
     xraised <$> xtrace r =
       (replicate (length (stages_up_to failed) - 1) None ++ [Some e])%list) ∧
  _metrics (xself_after r) = _metrics s ∧
  logger (xself_after r) =
    (logger s ++ if isinstance_Exception e
                 then [ {| lvl := ERROR; fmt := "Failed to add knowledge: {}";
                           fmt_args := [A_exn e] |} ]
                 else [])%list ∧
  _initialized (xself_after r) = true ∧
  _running (xself_after r) = _running s ∧
  config (xself_after r) = config s ∧
  _background_tasks (xself_after r) = _background_tasks s.
Proof.
  destruct s as [cfg lg ini rn mt bt st]. simpl. intros ->. xcoro_simpl.
  repeat xrun_step respond; intros Hv; try discriminate Hv.
  all: injection Hv as ->.
  all: repeat match goal with H : isinstance_Exception _ = _ |- _ => rewrite H end.
  all: rewrite ?app_nil_r.
  all: repeat split; try reflexivity.
  all: try congruence.
  all: first [ by exists Process | by exists Embed | by exists AddNodes
             | by exists CacheKnowledge ].
Qed.

(** X5.  Before a successful [initialize], [add_knowledge],
    [query_knowledge] and [get_insights] raise [RuntimeError("Cognee not
    initialized")] at once: no collaborator is called, nothing is logged
    and no field changes. *)
Theorem pipelines_require_initialize (hash : string → Z) s w :
  _initialized s = false →
  (∀ data metadata,
     xrun respond (add_knowledge data metadata s) w =
     {| xvalue := Raises (RuntimeError "Cognee not initialized"); xself_after := s;
        xworld_after := w; xtrace := [] |}) ∧
  (∀ query filters limit,
     xrun respond (lift (query_knowledge hash query filters limit) s) w =
     {| xvalue := Raises (RuntimeError "Cognee not initialized"); xself_after := s;
        xworld_after := w; xtrace := [] |}) ∧
  (∀ analysis_type parameters,
     xrun respond (get_insights analysis_type parameters s) w =
     {| xvalue := Raises (RuntimeError "Cognee not initialized"); xself_after := s;
        xworld_after := w; xtrace := [] |}).
Proof.
  destruct s as [cfg lg ini rn mt bt st]. simpl. intros ->. repeat split.
Qed.

(** X6.  [get_insights] on an initialised instance.  When it returns, it
    has awaited [knowledge_graph.analyze(analysis_type, parameters)] and
    then read the clock, and nothing else; the dict carries the analysis
    as [graph_insights], the clock reading as [timestamp], the two
    arguments unchanged, and as [ai_insights] the fixed placeholder,
    whatever the analysis was.  When it raises, the exception is the one
    raised by its last call, logged if it is an [Exception].  In both
    cases only the log has changed. *)
Theorem get_insights_contract analysis_type parameters s w :
  _initialized s = true →
  let r := xrun respond (get_insights analysis_type parameters s) w in
  match xvalue r with
  | Returns v =>
      xtrace r = [XEv (analyze analysis_type parameters) (Returns (in_graph_insights v));
                  XEv (core time_time) (Returns (in_timestamp v))] ∧
      in_analysis_type v = analysis_type ∧
      in_parameters v = parameters ∧
      in_ai_insights v =
        {| ai_analysis := "Advanced AI insights would be generated here";
           recommendations := []; confidence_scores := []; related_concepts := [] |} ∧
      logger (xself_after r) =
        (logger s ++ [ {| lvl := INFO; fmt := "Generated insights for {}";
                          fmt_args := [A_str analysis_type] |} ])%list
  | Raises e =>
      xraised <$> last (xtrace r) = Some (Some e) ∧
      logger (xself_after r) =
        (logger s ++ if isinstance_Exception e
                     then [ {| lvl := ERROR; fmt := "Failed to generate insights: {}";
                               fmt_args := [A_exn e] |} ]
                     else [])%list
  end ∧
  set_logger (logger s) (xself_after r) = s.
Proof.
  destruct s as [cfg lg ini rn mt bt st]. simpl. intros ->. xcoro_simpl.
  repeat xrun_step respond.
  all: repeat match goal with H : isinstance_Exception _ = _ |- _ => rewrite H end.
  all: rewrite ?app_nil_r.
  all: try congruence.
  all: repeat split; reflexivity.
Qed.

(** X7.  [integrate_provider], on any instance (it does not test
    [_initialized]): it awaits [orchestrator.integrate_provider(name,
    config)] and nothing else; the result is the truth value of what the
    orchestrator returned; an [Exception] raised by the orchestrator is
    logged and turned into [False], so no [Exception] reaches the caller;
    only the log changes. *)
Theorem integrate_provider_never_raises provider_name provider_config s w :
  let answer :=
    (respond _ (orchestrator_integrate_provider provider_name provider_config) w).1 in
  let r := xrun respond (integrate_provider provider_name provider_config s) w in
  xtrace r = [XEv (orchestrator_integrate_provider provider_name provider_config) answer] ∧
  xvalue r =
    match answer with
    | Returns integration => Returns (bool_of integration)
    | Raises e => if isinstance_Exception e then Returns false else Raises e
    end ∧
  logger (xself_after r) =
    (logger s ++
     match answer with
     | Returns integration =>
         if bool_of integration
         then [ {| lvl := INFO; fmt := "Successfully integrated provider: {}";
                   fmt_args := [A_str provider_name] |} ]
         else []
     | Raises e =>
         if isinstance_Exception e
         then [ {| lvl := ERROR; fmt := "Failed to integrate provider {}: {}";
                   fmt_args := [A_str provider_name; A_exn e] |} ]
         else []
     end)%list ∧
  set_logger (logger s) (xself_after r) = s.
Proof.
  destruct s as [cfg lg ini rn mt bt st]. xcoro_simpl.
  repeat xrun_step respond; rewrite ?app_nil_r; try congruence; repeat split; reflexivity.
Qed.

(** X8.  [integrate_model], on any instance: it awaits
    [orchestrator.integrate_model(provider, model, config)] and nothing
    else; the result is the truth value of what the orchestrator
    returned; an [Exception] raised by the orchestrator is logged and
    turned into [False]; only the log changes. *)
Theorem integrate_model_never_raises provider_name model_name model_config s w :
  let answer :=
    (respond _ (orchestrator_integrate_model provider_name model_name model_config) w).1 in
  let r := xrun respond (integrate_model provider_name model_name model_config s) w in
  xtrace r =
    [XEv (orchestrator_integrate_model provider_name model_name model_config) answer] ∧
  xvalue r =
    match answer with
    | Returns integration => Returns (bool_of integration)
    | Raises e => if isinstance_Exception e then Returns false else Raises e
    end ∧
  logger (xself_after r) =
    (logger s ++
     match answer with
     | Returns integration =>
         if bool_of integration
         then [ {| lvl := INFO; fmt := "Successfully integrated model: {}/{}";
                   fmt_args := [A_str provider_name; A_str model_name] |} ]
         else []
     | Raises e =>
         if isinstance_Exception e
         then [ {| lvl := ERROR; fmt := "Failed to integrate model {}/{}: {}";
                   fmt_args := [A_str provider_name; A_str model_name; A_exn e] |} ]
         else []
     end)%list ∧
  set_logger (logger s) (xself_after r) = s.
Proof.
  destruct s as [cfg lg ini rn mt bt st]. xcoro_simpl.
  repeat xrun_step respond; rewrite ?app_nil_r; try congruence; repeat split; reflexivity.
Qed.

End Pipelines.

(** ** Shutdown, context manager, host optimisation, status and loop bodies *)

Section Housekeeping.

Context {W : Type} (respond : responder W).

Lemma failure_app_cons (tr : list event) e tr' :
  failure (tr ++ e :: tr') = failure (e :: tr').
Proof.
  unfold failure. f_equal. rewrite !last_lookup. rewrite length_app. simpl.
  rewrite lookup_app_r by lia. f_equal. lia.
Qed.

Lemma failure_returned {X : Type} (c : call X) x tr :
  failure (Ev c (Returns x) :: tr) = failure tr.
Proof. destruct tr as [|e tr]; [done|]. apply (failure_app_cons [_]). Qed.

(** The cancelling loop of [stop_api] stops at the first call that
    raises. *)
Lemma run_cancel_each_failure (l : list handle) s w :
  failure (trace (run respond (for_each l (λ task, invoke (task_cancel task);; mret tt) s) w))
  = match value (run respond (for_each l (λ task, invoke (task_cancel task);; mret tt) s) w)
    with
    | Returns _ => None
    | Raises e => Some e
    end.
Proof.
  revert w. induction l as [|h l IH]; intros w; simpl; [done|].
  coro_unfold. simpl. destruct (respond _ (task_cancel h) w) as [[b|e] w1]; simpl; [|done].
  specialize (IH w1). simpl in IH.
  match goal with
  | |- context [run respond ?r w1] => destruct (run respond r w1) as [v s1 w2 tr]
  end.
  simpl in *. rewrite <- IH. by apply failure_returned.
Qed.

Lemma stop_api_cases s w :
  let r := run respond (stop_api s) w in
  match failure (trace r) with
  | None =>
      value r = Returns tt ∧
      logger (self_after r) = (logger s ++ [log_record_of INFO "Cognee API stopped" []])%list
  | Some e =>
      if isinstance_Exception e then
        value r = Returns tt ∧
        logger (self_after r)
        = (logger s ++ [log_record_of ERROR "Failed to stop API: {}" [A_exn e]])%list
      else value r = Raises e ∧ logger (self_after r) = logger s
  end.
Proof.
  destruct s as [cfg lg ini rn mt bt st]. coro_unfold.
  rewrite run_try, run_bind.
  match goal with
  | |- context [run respond (for_each ?l ?b ?s0) w] =>
      pose proof (run_cancel_each_failure l s0 w) as Hf;
      pose proof (run_cancel_each respond l s0 w) as (Hs & _ & _); coro_unfold;
      destruct (run respond (for_each l b s0) w) as [[[]|e] s1 w1 tr]
  end; simpl in *.
  - subst s1. unfold later. coro_simpl.
    destruct (respond _ (gather (elements bt)) w1) as [[[]|e] w2] eqn:Hg; coro_simpl.
    + destruct (respond _ server_stop w2) as [[[]|e] w3] eqn:Hstop; coro_simpl.
      * rewrite failure_app_cons. done.
      * destruct (isinstance_Exception e) eqn:He; simpl;
          rewrite ?app_nil_r, (failure_app_cons tr);
          unfold failure; simpl; rewrite He; done.
    + destruct (isinstance_Exception e) eqn:He; simpl;
        rewrite ?app_nil_r, (failure_app_cons tr);
        unfold failure; simpl; rewrite He; done.
  - subst s1. unfold later.
    destruct (isinstance_Exception e) eqn:He; simpl; rewrite ?app_nil_r, Hf, He; done.
Qed.

(** The cancelling loop of [stop_api]: it never calls [server.stop()];
    when it returns, every cancellation was made and returned; when it
    raises, the call that raised is its last one and the calls made are
    the first cancellations. *)
Lemma run_cancel_each_shape (l : list handle) s w :
  let r := run respond (for_each l (λ task, invoke (task_cancel task);; mret tt) s) w in
  existsb stops_server (trace r) = false ∧
  match value r with
  | Returns _ =>
      forallb returned (trace r) = true ∧
      the_call <$> trace r = (λ h, some_call (task_cancel h)) <$> l
  | Raises e =>
      ∃ pre X (c : call X),
        trace r = (pre ++ [Ev c (Raises e)])%list ∧ forallb returned pre = true ∧
        (the_call <$> trace r) `prefix_of` ((λ h, some_call (task_cancel h)) <$> l)
  end.
Proof.
  revert w. induction l as [|h l IH]; intros w; simpl; [done|].
  coro_unfold. simpl. destruct (respond _ (task_cancel h) w) as [[b|e] w1]; simpl.
  - specialize (IH w1). simpl in IH.
    match goal with
    | |- context [run respond ?r w1] => destruct (run respond r w1) as [[[]|e] s1 w2 tr]
    end; simpl in *.
    + destruct IH as (Hstop & Hret & Hcalls). split; [done|]. split; [done|].
      f_equal. exact Hcalls.
    + destruct IH as (Hstop & pre & X & c & -> & Hret & Hpre).
      split; [done|]. exists (Ev (task_cancel h) (Returns b) :: pre), X, c.
      split; [done|]. split; [done|]. by apply prefix_cons.
  - split; [done|]. exists [], _, (task_cancel h). split; [done|]. split; [done|].
    apply prefix_cons, prefix_nil.
Qed.

(** X9.  [stop_api] never lets an [Exception] reach its caller, and
    leaves every field but the log and [_running], which is false, as it
    was.  Its calls are [cancel] on every handle, [gather] on the handles
    and [server.stop()], in that order.  If all of them return it logs
    "Cognee API stopped".  If one raises, it is the last call made: the
    rest of the list is skipped, so a failing [cancel] or [gather] means
    that [server.stop()] is not called.  An instance of [Exception] is
    then logged and [stop_api] returns [None] all the same; any other
    exception passes through, unlogged. *)
Theorem stop_api_swallows_failures s w :
  let r := run respond (stop_api s) w in
  let handles := elements (_background_tasks s) in
  let calls :=
    (((λ h, some_call (task_cancel h)) <$> handles)
     ++ [some_call (gather handles); some_call server_stop])%list in
  self_after r = set_logger (logger (self_after r)) (set_running false s) ∧
  ((forallb returned (trace r) = true ∧
    the_call <$> trace r = calls ∧
    value r = Returns tt ∧
    logger (self_after r) = (logger s ++ [log_record_of INFO "Cognee API stopped" []])%list)
   ∨
   (∃ pre X (c : call X) e,
      trace r = (pre ++ [Ev c (Raises e)])%list ∧
      forallb returned pre = true ∧
      (the_call <$> trace r) `prefix_of` calls ∧
      (stops_server (Ev c (Raises e)) = false → existsb stops_server (trace r) = false) ∧
      if isinstance_Exception e then
        value r = Returns tt ∧
        logger (self_after r)
        = (logger s ++ [log_record_of ERROR "Failed to stop API: {}" [A_exn e]])%list
      else value r = Raises e ∧ logger (self_after r) = logger s)).
Proof.
  destruct s as [cfg lg ini rn mt bt st]. coro_unfold.
  rewrite run_try, run_bind.
  match goal with
  | |- context [run respond (for_each ?l ?b ?s0) w] =>
      pose proof (run_cancel_each_shape l s0 w) as (Hnostop & Hshape);
      pose proof (run_cancel_each respond l s0 w) as (Hs & _ & _); coro_unfold;
      destruct (run respond (for_each l b s0) w) as [[[]|e] s1 w1 tr]
  end; simpl in *.
  - subst s1. destruct Hshape as [Hret Hcalls]. unfold later. coro_simpl.
    destruct (respond _ (gather (elements bt)) w1) as [[[]|e] w2] eqn:Hg; coro_simpl.
    + destruct (respond _ server_stop w2) as [[[]|e] w3] eqn:Hstop; coro_simpl.
      * split; [done|]. left.
        rewrite (forallb_app returned), (fmap_app the_call), Hret, Hcalls. done.
      * assert (Hfull : the_call <$> (tr ++ [Ev (gather (elements bt)) (Returns tt);
                                             Ev server_stop (Raises e)])%list
                        = (((λ h, some_call (task_cancel h)) <$> elements bt)
                           ++ [some_call (gather (elements bt)); some_call server_stop])%list).
        { by rewrite (fmap_app the_call), Hcalls. }
        destruct (isinstance_Exception e) eqn:He; simpl; rewrite ?app_nil_r;
          (split; [done|]); right;
          exists (tr ++ [Ev (gather (elements bt)) (Returns tt)])%list, _, server_stop, e;
          rewrite He, <- app_assoc, Hfull, (forallb_app returned), Hret; simpl;
          repeat split; done.
    + assert (Hpart : (the_call <$> (tr ++ [Ev (gather (elements bt)) (Raises e)])%list)
                      `prefix_of`
                      (((λ h, some_call (task_cancel h)) <$> elements bt)
                       ++ [some_call (gather (elements bt)); some_call server_stop])%list).
      { rewrite (fmap_app the_call), Hcalls. apply prefix_app, prefix_cons, prefix_nil. }
      assert (Hno : existsb stops_server (tr ++ [Ev (gather (elements bt)) (Raises e)])%list
                    = false).
      { rewrite existsb_app, Hnostop. done. }
      destruct (isinstance_Exception e) eqn:He; simpl; rewrite ?app_nil_r;
        (split; [done|]); right; exists tr, _, (gather (elements bt)), e;
        rewrite He; repeat split; done.
  - subst s1. destruct Hshape as (pre & X & c & -> & Hret & Hpre). unfold later.
    destruct (isinstance_Exception e) eqn:He; simpl; rewrite ?app_nil_r;
      (split; [done|]); right; exists pre, X, c, e; rewrite He;
      (repeat split; try done); by apply prefix_app_r.
Qed.

Lemma stop_api_no_Exception s w :
  match value (run respond (stop_api s) w) with
  | Returns _ => True
  | Raises e => isinstance_Exception e = false
  end.
Proof.
  pose proof (stop_api_cases s w) as H. simpl in H.
  destruct (failure (trace (run respond (stop_api s) w))) as [e|].
  - destruct (isinstance_Exception e) eqn:He; destruct H as [-> _]; done.
  - by destruct H as [-> _].
Qed.

(** X10.  [__aexit__]: when [_running] is false it calls nothing and
    changes nothing; when [_running] is true it is [stop_api].  Either
    way [_running] is false afterwards, [_initialized] is what it was, and
    no [Exception] reaches the [async with] statement from it. *)
Theorem aexit_leaves_not_running s w :
  let r := run respond (__aexit__ s) w in
  (_running s = false →
     r = {| value := Returns tt; self_after := s; world_after := w; trace := [] |}) ∧
  (_running s = true → r = run respond (stop_api s) w) ∧
  _running (self_after r) = false ∧
  _initialized (self_after r) = _initialized s ∧
  match value r with
  | Returns _ => True
  | Raises e => isinstance_Exception e = false
  end.
Proof.
  intros r.
  assert (Hr : r = if _running s then run respond (stop_api s) w
                   else {| value := Returns tt; self_after := s; world_after := w;
                           trace := [] |}).
  { subst r. by destruct s as [cfg lg ini [] mt bt st]. }
  clearbody r. subst r.
  destruct (ends_with_run respond _ _ w (stop_api_ends s)) as (Hi & _ & Hrun & _).
  pose proof (stop_api_no_Exception s w) as Hv.
  destruct (_running s) eqn:Hrn; repeat split; try done.
Qed.

(** X11.  [__aenter__] makes the calls of [initialize] and leaves the
    fields as [initialize] does, but drops its result: when a
    collaborator's [initialize] raised an [Exception], so that
    [initialize] returned [False], [__aenter__] still returns normally,
    the body of the [async with] is entered with [_initialized] false, and
    [start_api] in it raises [RuntimeError]. *)
Theorem aenter_hides_failed_initialize s w :
  let i := run respond (initialize s) w in
  let r := run respond (__aenter__ s) w in
  trace r = trace i ∧ self_after r = self_after i ∧ world_after r = world_after i ∧
  value r = match value i with Returns _ => Returns tt | Raises e => Raises e end ∧
  (existsb init_raised (trace i) = true →
     value r = Returns tt ∧
     _initialized (self_after r) = false ∧
     ∀ host port w',
       run respond (start_api host port (self_after r)) w' =
       {| value := Raises (RuntimeError "Cognee not initialized");
          self_after := self_after r; world_after := w'; trace := [] |}).
Proof.
  intros i r.
  assert (Hr : r = {| value := match value i with
                               | Returns _ => Returns tt
                               | Raises e => Raises e
                               end;
                      self_after := self_after i; world_after := world_after i;
                      trace := trace i |}).
  { subst r i. change (__aenter__ s) with (res_bind (initialize s) (λ _, mret tt)).
    rewrite run_bind. destruct (run respond (initialize s) w) as [[b|e] s1 w1 tr]; simpl;
      [|done].
    unfold later. simpl. by rewrite app_nil_r. }
  clearbody r. subst r. simpl. repeat split.
  - destruct (initialize_raised respond s w H) as (Hv & _). subst i. by rewrite Hv.
  - by destruct (initialize_raised respond s w H) as (_ & Hi & _).
  - intros host port w'.
    destruct (initialize_raised respond s w H) as (_ & Hi & _). subst i.
    destruct (self_after (run respond (initialize s) w)) as [cfg lg ini rn mt bt st].
    simpl in Hi. subst ini. reflexivity.
Qed.

(** X12.  [_apply_host_optimization] changes nothing but [config] and
    the log.  If its three calls return ([HostProfile.detect()],
    [optimize_config(config)], [config.update(optimized)]), the
    configuration is what [update] left and the profile is logged.  If
    one of them raises, it is the last call and the configuration is
    unchanged; an instance of [Exception] is logged as a warning and the
    method returns normally. *)
Theorem host_optimization_is_best_effort s w :
  let r := run respond (_apply_host_optimization s) w in
  match failure (trace r) with
  | None =>
      value r = Returns tt ∧
      ∃ profile optimized,
        trace r = [Ev HostProfile_detect (Returns profile);
                   Ev (optimize_config profile (config s)) (Returns optimized);
                   Ev (config_update (config s) optimized)
                      (Returns (config (self_after r)))] ∧
        logger (self_after r) =
          (logger s ++ [log_record_of INFO "Applied host-aware optimization: {}"
                          [A_str profile]])%list
  | Some e =>
      config (self_after r) = config s ∧
      if isinstance_Exception e then
        value r = Returns tt ∧
        logger (self_after r) =
          (logger s ++ [log_record_of WARNING "Host optimization failed: {}" [A_exn e]])%list
      else value r = Raises e ∧ logger (self_after r) = logger s
  end ∧
  set_config (config s) (set_logger (logger s) (self_after r)) = s.
Proof.
  destruct s as [cfg lg ini rn mt bt st]. loop_simpl.
  repeat run_step respond; unfold failure; simpl;
    repeat match goal with H : isinstance_Exception _ = _ |- _ => rewrite H end;
    repeat split; eauto.
Qed.

(** X13.  A failure of host optimisation does not fail [initialize]: on
    an uninitialised instance, if a call of [_apply_host_optimization]
    raises an [Exception] and every other call returns, [initialize]
    goes on with the configuration it had, initialises the eleven
    collaborators in order, creates the three tasks, sets [_initialized]
    and returns [True]; the warning is in the log. *)
Theorem initialize_survives_host_failure s w :
  _initialized s = false →
  existsb host_call_failed (trace (run respond (initialize s) w)) = true →
  forallb (λ e, returned e || host_call_failed e) (trace (run respond (initialize s) w))
    = true →
  let r := run respond (initialize s) w in
  value r = Returns true ∧
  _initialized (self_after r) = true ∧
  config (self_after r) = config s ∧
  omap initialized_component (trace r) = initialization_order ∧
  count is_create_task (trace r) = 3%nat ∧
  ∃ e, log_record_of WARNING "Host optimization failed: {}" [A_exn e] ∈ logger (self_after r).
Proof.
  intros Hi. destruct s as [[dc i1 i2 i3] lg ini rn mt bt st]. simpl in Hi; subst ini.
  coro_simpl. repeat run_step respond; simpl; intros Hx Hr; try discriminate Hx;
    try discriminate Hr.
  all: repeat match goal with
              | H : isinstance_Exception _ = _ |- _ => rewrite H in *
              end; try discriminate Hx; try discriminate Hr.
  all: try congruence.
  all: repeat split; try reflexivity.
  all: match goal with H : isinstance_Exception ?e = true |- _ => exists e end.
  all: rewrite !elem_of_app, !list_elem_of_singleton; unfold log_record_of; tauto.
Qed.

(** X14.  [get_status] changes no field and logs nothing.  When it
    returns, [initialized], [running] and [metrics] are those of the
    instance, [health], [performance] and [config] are what
    [check_health()], [get_status()] of the optimizer and
    [config.to_dict()] returned, called in this order, and the clock is
    read only if [_start_time] exists.  It has no handler: when it raises,
    the exception is the one raised by its last call. *)
Theorem get_status_observes s w :
  let r := run respond (get_status s) w in
  self_after r = s ∧
  match value r with
  | Returns st =>
      st_initialized st = _initialized s ∧
      st_running st = _running s ∧
      st_metrics st = _metrics s ∧
      match _start_time s with
      | None =>
          st_uptime st = 0%Q ∧
          trace r = [Ev check_health (Returns (st_health st));
                     Ev optimizer_get_status (Returns (st_performance st));
                     Ev (config_to_dict (config s)) (Returns (st_config st))]
      | Some t0 =>
          ∃ now,
            st_uptime st = (now - t0)%Q ∧
            trace r = [Ev check_health (Returns (st_health st));
                       Ev optimizer_get_status (Returns (st_performance st));
                       Ev (config_to_dict (config s)) (Returns (st_config st));
                       Ev time_time (Returns now)]
      end
  | Raises e => failure (trace r) = Some e ∧ logger (self_after r) = logger s
  end.
Proof.
  destruct s as [cfg lg ini rn mt bt [t0|]]; coro_simpl.
  all: repeat run_step respond; repeat split; eauto.
Qed.

(** X15.  The guarded block of the metrics loop.  It never touches
    [processed_documents], and [provider_connections] and
    [model_integrations] keep their values (they are refreshed from
    themselves); only [_metrics] and the log change.  When all its calls
    return, these are the twelve polls in the order of the source
    followed by [collect]: each polled field holds what its collaborator
    returned — [search_queries] is overwritten with
    [search_engine.total_queries()], whatever [query_knowledge] had
    counted — and [collect] receives the metrics as the block leaves
    them. *)
Theorem metrics_iteration_refreshes s w :
  let r := run respond (_collect_metrics_try s) w in
  let m := _metrics (self_after r) in
  processed_documents m = processed_documents (_metrics s) ∧
  provider_connections m = provider_connections (_metrics s) ∧
  model_integrations m = model_integrations (_metrics s) ∧
  set_metrics (_metrics s) (set_logger (logger s) (self_after r)) = s ∧
  (forallb returned (trace r) = true →
     trace r = [Ev node_count (Returns (total_nodes m));
                Ev edge_count (Returns (total_edges m));
                Ev complexity_score (Returns (graph_complexity m));
                Ev average_processing_time (Returns (processing_time m));
                Ev total_embeddings (Returns (embeddings_generated m));
                Ev total_queries (Returns (search_queries m));
                Ev search_average_response_time (Returns (average_response_time m));
                Ev hit_rate (Returns (cache_hit_rate m));
                Ev optimizer_memory_usage (Returns (memory_usage m));
                Ev optimizer_cpu_usage (Returns (cpu_usage m));
                Ev optimizer_gpu_usage (Returns (gpu_usage m));
                Ev total_requests (Returns (api_requests m));
                Ev (collect m) (Returns tt)]).
Proof.
  destruct s as [cfg lg ini rn mt bt st]. loop_simpl.
  repeat run_step respond; simpl; repeat split; try reflexivity; try discriminate.
  all: destruct mt; try reflexivity.
  all: intros _; repeat match goal with u : unit |- _ => destruct u end; reflexivity.
Qed.

(** X16.  The guarded blocks of the health loop and of the performance
    loop make one call each ([check_health()], [optimize()]) and act on
    the answer only by logging: a warning for an unhealthy report, an
    info line for an applied optimisation, an error line for an
    [Exception], which is swallowed.  No field other than the log
    changes. *)
Theorem watch_iterations_only_log s w :
  (let answer := (respond _ check_health w).1 in
   let r := run respond (_health_monitoring_try s) w in
   trace r = [Ev check_health answer] ∧
   value r = match answer with
             | Returns _ => Returns tt
             | Raises e => if isinstance_Exception e then Returns tt else Raises e
             end ∧
   logger (self_after r) =
     (logger s ++
      match answer with
      | Returns health_status =>
          if healthy health_status then []
          else [log_record_of WARNING "Health check failed: {}" [A_health health_status]]
      | Raises e =>
          if isinstance_Exception e
          then [log_record_of ERROR "Health monitoring failed: {}" [A_exn e]]
          else []
      end)%list ∧
   set_logger (logger s) (self_after r) = s) ∧
  (let answer := (respond _ optimize w).1 in
   let r := run respond (_performance_optimization_try s) w in
   trace r = [Ev optimize answer] ∧
   value r = match answer with
             | Returns _ => Returns tt
             | Raises e => if isinstance_Exception e then Returns tt else Raises e
             end ∧
   logger (self_after r) =
     (logger s ++
      match answer with
      | Returns optimization_result =>
          if optimized optimization_result
          then [log_record_of INFO "Performance optimization applied: {}"
                  [A_result optimization_result]]
          else []
      | Raises e =>
          if isinstance_Exception e
          then [log_record_of ERROR "Performance optimization failed: {}" [A_exn e]]
          else []
      end)%list ∧
   set_logger (logger s) (self_after r) = s).
Proof.
  destruct s as [cfg lg ini rn mt bt st]. split; loop_simpl.
  - destruct (respond _ check_health w) as [[[[] detail]|e] w1]; loop_simpl;
      [| |destruct (isinstance_Exception e)]; simpl; rewrite ?app_nil_r; done.
  - destruct (respond _ optimize w) as [[[[] detail]|e] w1]; loop_simpl;
      [| |destruct (isinstance_Exception e)]; simpl; rewrite ?app_nil_r; done.
Qed.

End Housekeeping.

(** ** Failures of the query pipeline *)

Section QueryFailure.

Context (hash : string → Z) {W : Type} (respond : responder W).

(** X24.  [query_knowledge] on an initialised instance, when it raises
    [e]: either [cache_manager.get] raised [e] and nothing else was
    called; or the cache had nothing usable, the search raised [e] and
    the cache was not written; or the search returned and
    [cache_manager.set] raised [e], so that the result of the search is
    lost to the caller.  In every case the search-query counter is
    unchanged, the error is logged exactly when [e] is an [Exception], and
    no field but the log changes. *)
Theorem query_knowledge_failure query filters limit s w e :
  _initialized s = true →
  value (run respond (query_knowledge hash query filters limit s) w) = Raises e →
  let r := run respond (query_knowledge hash query filters limit s) w in
  let key := cache_key hash query filters limit in
  (trace r = [Ev (cache_get key) (Raises e)]
   ∨ (∃ cached, truthy cached = false ∧
                trace r = [Ev (cache_get key) (Returns cached);
                           Ev (semantic_search query filters limit) (Raises e)])
   ∨ (∃ cached found, truthy cached = false ∧
                      trace r = [Ev (cache_get key) (Returns cached);
                                 Ev (semantic_search query filters limit) (Returns found);
                                 Ev (cache_set key found) (Raises e)])) ∧
  _metrics (self_after r) = _metrics s ∧
  logger (self_after r) =
    (logger s ++ if isinstance_Exception e
                 then [log_record_of ERROR "Failed to query knowledge: {}" [A_exn e]]
                 else [])%list ∧
  set_logger (logger s) (self_after r) = s.
Proof.
  destruct s as [cfg lg ini rn mt bt st]. simpl. intros ->. coro_simpl.
  destruct (respond _ (cache_get (cache_key hash query filters limit)) w)
    as [[[[|item rest]|]|e0] w1]; coro_simpl.
  2: discriminate.
  all: repeat run_step respond; intros Hv; try discriminate Hv; injection Hv as ->.
  all: repeat match goal with H : isinstance_Exception _ = _ |- _ => rewrite H end.
  all: rewrite ?app_nil_r; try congruence; (split; [|try done]).
  all: first [ left; reflexivity
             | right; left; eexists; split; [|reflexivity]; reflexivity
             | right; right; eexists _, _; split; [|reflexivity]; reflexivity ].
Qed.

End QueryFailure.

(** ** The cache key *)

Lemma contains_app a (s t : string) : contains a (s +:+ t) = contains a s || contains a t.
Proof. induction s as [|b s IH]; simpl; [done|]. by destruct (Ascii.eqb a b). Qed.

(** A character that is not a decimal digit does not occur in the digits
    of a number. *)
Lemma pretty_N_go_contains a (x : N) s :
  (∀ d, Ascii.eqb a (pretty_N_char d) = false) →
  contains a s = false → contains a (pretty_N_go x s) = false.
Proof.
  intros Ha. revert s. induction (N.lt_wf_0 x) as [x _ IH]; intros s Hs.
  assert (x = 0 ∨ 0 < x)%N as [->|?] by lia.
  - by rewrite pretty_N_go_0.
  - rewrite pretty_N_go_step by done. apply IH; [by apply N.div_lt|].
    simpl. by rewrite Ha.
Qed.

Lemma pretty_Z_contains a (z : Z) :
  (∀ d, Ascii.eqb a (pretty_N_char d) = false) → Ascii.eqb a "-" = false →
  contains a (pretty z) = false.
Proof.
  intros Ha Hdash.
  assert (HN : ∀ n : N, contains a (pretty n) = false).
  { intros n. unfold pretty, pretty_N. destruct (decide (n = 0%N)).
    - simpl. specialize (Ha 0%N). simpl in Ha. by rewrite Ha.
    - by apply pretty_N_go_contains. }
  destruct z as [|p|p]; unfold pretty, pretty_Z.
  - simpl. specialize (Ha 0%N). simpl in Ha. by rewrite Ha.
  - apply HN.
  - simpl. rewrite Hdash. apply HN.
Qed.

Lemma not_a_digit_colon d : Ascii.eqb ":" (pretty_N_char d) = false.
Proof. unfold pretty_N_char. by repeat case_match. Qed.

Lemma not_a_digit_N d : Ascii.eqb "N" (pretty_N_char d) = false.
Proof. unfold pretty_N_char. by repeat case_match. Qed.

Lemma str_limit_no_colon limit : contains ":" (str_limit limit) = false.
Proof.
  destruct limit as [n|]; simpl; [|done].
  by apply pretty_Z_contains; [apply not_a_digit_colon|].
Qed.

Lemma str_limit_inj limit1 limit2 : str_limit limit1 = str_limit limit2 → limit1 = limit2.
Proof.
  assert (HN : ∀ n : Z, pretty n ≠ "None").
  { intros n Hn. pose proof (pretty_Z_contains "N" n not_a_digit_N eq_refl) as H.
    by rewrite Hn in H. }
  destruct limit1 as [n1|], limit2 as [n2|]; simpl; intros H.
  - f_equal. by apply (inj pretty).
  - by destruct (HN n1).
  - by destruct (HN n2).
  - done.
Qed.

(** The text after the last colon of a string is determined. *)
Lemma split_at_last_colon (s1 t1 s2 t2 : string) :
  contains ":" t1 = false → contains ":" t2 = false →
  s1 +:+ ":" +:+ t1 = s2 +:+ ":" +:+ t2 → s1 = s2 ∧ t1 = t2.
Proof.
  intros H1 H2. revert s2. induction s1 as [|a s1 IH]; intros [|b s2] H; simpl in H.
  - injection H. done.
  - injection H as <- H. change ("" +:+ t1) with t1 in H. rewrite H, contains_app in H1. simpl in H1.
    by rewrite orb_true_r in H1.
  - injection H as -> H. change ("" +:+ t2) with t2 in H. rewrite <- H, contains_app in H2. simpl in H2.
    by rewrite orb_true_r in H2.
  - injection H as -> H. destruct (IH s2 H) as [-> ->]. done.
Qed.

Lemma string_app_assoc3 (a b c : string) : (a +:+ b) +:+ c = a +:+ b +:+ c.
Proof.
  induction a as [|x a IH]; [done|].
  change (String x ((a +:+ b) +:+ c) = String x (a +:+ b +:+ c)). by f_equal.
Qed.

(** X17.  Two calls of [query_knowledge] use the same cache key exactly
    when they have the same query string, the same limit and filters whose
    [str] has the same [hash]: neither a colon in the query nor the
    rendering of the limit can make two different (query, limit) pairs
    share a key. *)
Theorem cache_key_separates_queries_and_limits (hash : string → Z)
    query1 filters1 limit1 query2 filters2 limit2 :
  cache_key hash query1 filters1 limit1 = cache_key hash query2 filters2 limit2
  ↔ query1 = query2 ∧
    hash (str_filters filters1) = hash (str_filters filters2) ∧
    limit1 = limit2.
Proof.
  split; [|by intros (-> & Hh & ->); unfold cache_key; rewrite Hh].
  unfold cache_key. intros H. apply (inj (String.app _)) in H.
  assert (Hre : ∀ q h l : string,
             q +:+ ":" +:+ h +:+ ":" +:+ l = (q +:+ ":" +:+ h) +:+ ":" +:+ l).
  { intros q h l. by rewrite !string_app_assoc3. }
  rewrite !Hre in H.
  apply split_at_last_colon in H as [H Hl]; try apply str_limit_no_colon.
  apply split_at_last_colon in H as [Hq Hh];
    try (by apply pretty_Z_contains; [apply not_a_digit_colon|]).
  split; [exact Hq|]. split; [by apply (inj pretty)|by apply str_limit_inj].
Qed.

(** ** What a turn may do to the fields *)

Lemma evolves_refl s : evolves s s.
Proof. unfold evolves. repeat split; auto. Qed.

Lemma evolves_trans a b c : evolves a b → evolves b c → evolves a c.
Proof.
  unfold evolves. intros (Hi1 & Hr1 & Hs1 & Ht1) (Hi2 & Hr2 & Hs2 & Ht2).
  repeat split; [auto| |congruence|set_solver].
  intros Hc. destruct (Hr2 Hc) as [Hb|Hb]; [|by right].
  destruct (Hr1 Hb) as [Ha|Ha]; [by left|right; auto].
Qed.

Lemma lifecycle_step_refl s : lifecycle_step s s.
Proof. split; [apply evolves_refl|done]. Qed.

Lemma lifecycle_step_trans a b c :
  lifecycle_step a b → lifecycle_step b c → lifecycle_step a c.
Proof. intros [H1 M1] [H2 M2]. split; [by eapply evolves_trans|congruence]. Qed.

Lemma loop_step_refl s : loop_step s s.
Proof. unfold loop_step. done. Qed.

Lemma loop_step_trans a b c : loop_step a b → loop_step b c → loop_step a c.
Proof. unfold loop_step. intros (?&?&?&?&?) (?&?&?&?&?). repeat split; congruence. Qed.

Lemma loop_step_evolves a b : loop_step a b → evolves a b.
Proof.
  unfold loop_step, evolves. intros (Hi & Hr & _ & Ht & Hs).
  rewrite Hi, Hr, Ht, Hs. repeat split; auto.
Qed.

Lemma turn_step_evolves ch a b : turn_step ch a b → evolves a b.
Proof. destruct ch; simpl; [by intros []|by intros []|apply loop_step_evolves]. Qed.

Section Moves.

Context (R : relation CogneeCore).
Hypothesis R_refl : ∀ s, R s s.
Hypothesis R_trans : ∀ a b c, R a b → R b c → R a c.

Lemma moves_from {A : Type} a b (r : res A) : R a b → moves R b r → moves R a r.
Proof. destruct r; simpl; [eauto|]. intros Hab [Hb Hk]. split; eauto. Qed.

Lemma moves_res_bind {A B : Type} from (r : res A) (f : A → coro B) :
  moves R from r → (∀ a s, moves R s (f a s)) → moves R from (res_bind r f).
Proof.
  revert from. induction r as [[a|e] s|aw X c s k IH]; intros from; simpl.
  - intros H Hf. eapply moves_from; [exact H|apply Hf].
  - auto.
  - intros [H Hk] Hf. split; [exact H|]. intros o s'. apply IH; auto.
Qed.

Lemma moves_res_try {A : Type} from (r : res A) (h : exn → coro A) :
  moves R from r → (∀ e s, moves R s (h e s)) → moves R from (res_try r h).
Proof.
  revert from. induction r as [[a|e] s|aw X c s k IH]; intros from; simpl.
  - auto.
  - intros H Hh. destruct (isinstance_Exception e); [|exact H].
    eapply moves_from; [exact H|apply Hh].
  - intros [H Hk] Hh. split; [exact H|]. intros o s'. apply IH; auto.
Qed.

Lemma steps_by_moves {A : Type} (m : coro A) : steps_by R m → ∀ s, moves R s (m s).
Proof.
  induction 1 as [A a|A e| |f Hf|X c|X c|A B m f _ IHm _ IHf|A body h _ IHb _ IHh
                 |X l body _ IHbody|A b m1 m2 _ IH1 _ IH2]; intros s.
  - apply R_refl.
  - apply R_refl.
  - apply R_refl.
  - apply Hf.
  - split; [apply R_refl|]. intros o s'. apply R_refl.
  - split; [apply R_refl|]. intros o s'. apply R_refl.
  - apply moves_res_bind; [apply IHm|]. intros a s'. apply IHf.
  - apply moves_res_try; [apply IHb|]. intros e s'. apply IHh.
  - revert s. induction l as [|x l IH]; intros s; simpl; [apply R_refl|].
    apply moves_res_bind; [apply IHbody|]. intros _ s'. apply IH.
  - destruct b; [apply IH1|apply IH2].
Qed.

End Moves.

Lemma initialize_moves s : moves lifecycle_step s (initialize s).
Proof.
  apply (steps_by_moves _ lifecycle_step_refl lifecycle_step_trans).
  unfold initialize, _apply_host_optimization, _start_background_tasks, start_task, log.
  steps_tac.
Qed.

Lemma start_api_moves host port s : moves lifecycle_step s (start_api host port s).
Proof.
  destruct s as [cfg lg [] rn mt bt st]; simpl.
  - split; [solve_step|]. intros [[]|e] s'; simpl.
    + solve_step.
    + destruct (isinstance_Exception e); solve_step.
  - solve_step.
Qed.

Lemma stop_api_moves s : moves lifecycle_step s (stop_api s).
Proof.
  apply (steps_by_moves _ lifecycle_step_refl lifecycle_step_trans).
  unfold stop_api, log. steps_tac.
Qed.

Lemma op_coro_moves o s : moves lifecycle_step s (op_coro o s).
Proof.
  destruct o as [|host port|]; unfold op_coro;
    (apply (moves_res_bind _ lifecycle_step_trans);
     [|intros; apply lifecycle_step_refl]).
  - apply initialize_moves.
  - apply start_api_moves.
  - apply stop_api_moves.
Qed.

Lemma loop_iteration_moves name s : moves loop_step s (loop_iteration name s).
Proof.
  apply (steps_by_moves _ loop_step_refl loop_step_trans).
  unfold loop_iteration.
  destruct name; unfold loop_try, _collect_metrics_try, _health_monitoring_try,
    _performance_optimization_try, _get_provider_connections, _get_model_integrations,
    _handle_health_issue, _apply_performance_optimizations, assign_metric, log.
  all: steps_tac.
Qed.

Section Turns.

Context {W : Type} (respond : responder W).

Lemma plain_call_task_moves {X : Type} (c : call X) w ts :
  Forall task_moves ts → Forall task_moves (plain_call respond c w ts).2.
Proof.
  intros Hts. destruct c; simpl; try exact Hts.
  - apply Forall_app. split; [exact Hts|]. by apply Forall_singleton.
  - destruct (ts !! t) as [tk|] eqn:Ht; [|exact Hts].
    destruct (terminated (t_status tk)); [exact Hts|]. simpl.
    apply Forall_insert; [exact Hts|].
    apply (Forall_lookup_1 task_moves _ _ _ Hts Ht).
Qed.

Lemma advance_task_moves {A : Type} (r : res A) w ts :
  Forall task_moves ts → Forall task_moves (adv_tasks (advance respond r w ts)).
Proof.
  revert w ts. induction r as [o s|[] X c s k IH]; intros w ts Hts; simpl; try done.
  pose proof (plain_call_task_moves c w ts Hts) as Hp.
  destruct (plain_call respond c w ts) as [[o w'] ts']. simpl in *. by apply IH.
Qed.

Lemma advance_moves {A : Type} (R : relation CogneeCore)
    (R_trans : ∀ a b c, R a b → R b c → R a c) (r : res A) w ts from :
  moves R from r →
  R from (adv_self (advance respond r w ts)) ∧
  match adv_pause (advance respond r w ts) with
  | Done _ => True
  | AtAwait _ k => ∀ o s', moves R s' (k o s')
  end.
Proof.
  revert w ts from. induction r as [o s|[] X c s k IH]; intros w ts from; simpl.
  - done.
  - intros [H Hk]. done.
  - intros [H Hk]. destruct (plain_call respond c w ts) as [[o w'] ts']. simpl.
    destruct (IH o s w' ts' s (Hk o s)) as [H1 H2]. split; [by eapply R_trans|done].
Qed.

Lemma put_task_moves h st (a : advanced unit W) evs (sys : system W) :
  Forall task_moves (adv_tasks a) →
  match st with Awaiting _ k => ∀ o s', moves loop_step s' (k o s') | _ => True end →
  Forall task_moves (sys_tasks (put_task h st a evs sys)).
Proof.
  intros Hts Hst. simpl. apply Forall_alter; [exact Hts|]. intros t _ _. exact Hst.
Qed.

Lemma enter_loop_moves h name s w ts evs (sys : system W) :
  Forall task_moves ts →
  loop_step s (sys_self (enter_loop respond h name s w ts evs sys)) ∧
  Forall task_moves (sys_tasks (enter_loop respond h name s w ts evs sys)) ∧
  sys_main (enter_loop respond h name s w ts evs sys) = sys_main sys.
Proof.
  intros Hts. unfold enter_loop. destruct (_running s).
  - destruct (advance_moves loop_step loop_step_trans (loop_iteration name s) w ts s
                (loop_iteration_moves name s)) as [Hs Hp].
    split; [exact Hs|]. split; [|done].
    apply put_task_moves; [by apply advance_task_moves|].
    by destruct (adv_pause _) as [[[]|e]|X c k].
  - split; [apply loop_step_refl|]. split; [|done]. by apply put_task_moves.
Qed.

Lemma resume_task_moves h name {X : Type} (c : call X) k o w evs (sys : system W) :
  Forall task_moves (sys_tasks sys) →
  (∀ o s', moves loop_step s' (k o s')) →
  loop_step (sys_self sys) (sys_self (resume_task respond h name c k o w evs sys)) ∧
  Forall task_moves (sys_tasks (resume_task respond h name c k o w evs sys)) ∧
  sys_main (resume_task respond h name c k o w evs sys) = sys_main sys.
Proof.
  intros Hts Hk. unfold resume_task.
  destruct (advance_moves loop_step loop_step_trans (k o (sys_self sys)) w (sys_tasks sys)
              (sys_self sys) (Hk o (sys_self sys))) as [Hs Hp].
  pose proof (advance_task_moves (k o (sys_self sys)) w (sys_tasks sys) Hts) as Hts'.
  destruct (adv_pause _) as [[[]|e]|X' c' k'].
  - destruct (enter_loop_moves h name (adv_self (advance respond (k o (sys_self sys)) w
                                                    (sys_tasks sys)))
                (adv_world (advance respond (k o (sys_self sys)) w (sys_tasks sys)))
                _ (evs ++ adv_events (advance respond (k o (sys_self sys)) w
                                        (sys_tasks sys))) sys Hts') as (H1 & H2 & H3).
    split; [by eapply loop_step_trans|]. done.
  - split; [exact Hs|]. split; [|done]. by apply put_task_moves.
  - split; [exact Hs|]. split; [|done]. by apply put_task_moves.
Qed.

Lemma task_step_moves h (sys sys' : system W) :
  system_moves sys → task_step respond h sys = Some sys' →
  system_moves sys' ∧ loop_step (sys_self sys) (sys_self sys').
Proof.
  intros [Hmain Hts]. unfold task_step.
  destruct (sys_tasks sys !! h) as [t|] eqn:Ht; simpl; [|done].
  pose proof (Forall_lookup_1 task_moves _ _ _ Hts Ht) as Hok.
  destruct t as [name st cancel]. unfold task_moves in Hok. simpl in *.
  destruct st as [|X c k| |e]; try done.
  - destruct cancel; intros [= <-].
    + split; [|apply loop_step_refl]. split; [exact Hmain|]. by apply put_task_moves.
    + destruct (enter_loop_moves h name (sys_self sys) (sys_world sys) (sys_tasks sys) []
                  sys Hts) as (H1 & H2 & H3).
      split; [|exact H1]. split; [by rewrite H3|exact H2].
  - assert (Hresume : ∀ o w evs,
               system_moves (resume_task respond h name c k o w evs sys) ∧
               loop_step (sys_self sys)
                 (sys_self (resume_task respond h name c k o w evs sys))).
    { intros o w evs.
      destruct (resume_task_moves h name c k o w evs sys Hts Hok) as (H1 & H2 & H3).
      split; [|exact H1]. split; [by rewrite H3|exact H2]. }
    destruct cancel.
    + intros [= <-]. apply Hresume.
    + destruct (awaited_outcome respond c (sys_world sys) (sys_tasks sys)) as [ow|];
        simpl; [|done].
      intros [= <-]. apply Hresume.
Qed.

Lemma put_main_moves o (r : res op_value) w evs (sys : system W) :
  Forall task_moves (sys_tasks sys) →
  moves lifecycle_step (sys_self sys) r →
  system_moves (put_main o (advance respond r w (sys_tasks sys)) evs sys) ∧
  lifecycle_step (sys_self sys)
    (sys_self (put_main o (advance respond r w (sys_tasks sys)) evs sys)).
Proof.
  intros Hts Hr.
  destruct (advance_moves lifecycle_step lifecycle_step_trans r w (sys_tasks sys)
              (sys_self sys) Hr) as [Hs Hp].
  split; [|exact Hs]. split; simpl.
  - by destruct (adv_pause _) as [v|X c k].
  - by apply advance_task_moves.
Qed.

Lemma sys_step_moves ch (sys sys' : system W) :
  system_moves sys → sys_step respond ch sys = Some sys' →
  system_moves sys' ∧ turn_step ch (sys_self sys) (sys_self sys').
Proof.
  intros Hsys. destruct ch as [o| |h]; simpl.
  - destruct Hsys as [Hmain Hts]. unfold invoke_step.
    destruct (sys_main sys); [|done].
    intros [= <-]. apply put_main_moves; [exact Hts|apply op_coro_moves].
  - destruct Hsys as [Hmain Hts]. unfold main_step.
    destruct (sys_main sys) as [|o X c k]; [done|].
    destruct (awaited_outcome respond c (sys_world sys) (sys_tasks sys)) as [ow|];
      simpl; [|done].
    intros [= <-]. apply put_main_moves; [exact Hts|apply Hmain].
  - by apply task_step_moves.
Qed.

Lemma exec_moves schedule (sys sys' : system W) :
  system_moves sys → exec respond schedule sys = Some sys' →
  system_moves sys' ∧ evolves (sys_self sys) (sys_self sys').
Proof.
  revert sys. induction schedule as [|ch schedule IH]; intros sys Hsys; simpl.
  - intros [= <-]. split; [exact Hsys|apply evolves_refl].
  - destruct (sys_step respond ch sys) as [sys1|] eqn:Hstep; simpl; [|done].
    intros Hexec. destruct (sys_step_moves ch sys sys1 Hsys Hstep) as [Hsys1 Hturn].
    destruct (IH sys1 Hsys1 Hexec) as [Hsys' Hev].
    split; [exact Hsys'|]. eapply evolves_trans; [|exact Hev].
    by eapply turn_step_evolves.
Qed.

Lemma boot_moves cfg (w : W) : system_moves (boot cfg w).
Proof. split; simpl; [done|apply Forall_nil_2]. Qed.

(** X18.  In every state the event loop can reach, whatever runs next:
    a turn of a background task leaves [_initialized], [_running],
    [config], [_background_tasks] and [_start_time] as they were (it can
    change only [_metrics] and the log); a turn of the caller, invoking
    or continuing [initialize], [start_api] or [stop_api], leaves
    [_metrics] and [_start_time] as they were, drops no task handle, does
    not reset [_initialized], and sets [_running] only on an initialised
    instance. *)
Theorem turn_changes_only_its_fields cfg w0 schedule (sys : system W) ch sys' :
  exec respond schedule (boot cfg w0) = Some sys →
  sys_step respond ch sys = Some sys' →
  turn_step ch (sys_self sys) (sys_self sys').
Proof.
  intros Hreach Hstep.
  destruct (exec_moves schedule _ _ (boot_moves cfg w0) Hreach) as [Hsys _].
  by destruct (sys_step_moves ch sys sys' Hsys Hstep).
Qed.

(** X19.  In every state the event loop can reach from a fresh instance,
    under every interleaving of the caller and the tasks: [_running]
    implies [_initialized], and [_start_time] does not exist. *)
Theorem running_implies_initialized cfg w0 schedule (sys : system W) :
  exec respond schedule (boot cfg w0) = Some sys →
  (_running (sys_self sys) = true → _initialized (sys_self sys) = true) ∧
  _start_time (sys_self sys) = None.
Proof.
  intros Hreach.
  destruct (exec_moves schedule _ _ (boot_moves cfg w0) Hreach)
    as [_ (_ & Hrun & Hstart & _)].
  split; [|exact Hstart]. intros Hr. by destruct (Hrun Hr).
Qed.

(** X20.  Once [_initialized] is true it stays true, whatever is invoked
    and whatever fails afterwards ([stop_api], a failed [start_api], the
    loops), and no handle ever leaves [_background_tasks]. *)
Theorem initialized_is_never_reset cfg w0 schedule (sys : system W) schedule' sys' :
  exec respond schedule (boot cfg w0) = Some sys →
  exec respond schedule' sys = Some sys' →
  _initialized (sys_self sys) = true →
  _initialized (sys_self sys') = true ∧
  _background_tasks (sys_self sys) ⊆ _background_tasks (sys_self sys').
Proof.
  intros Hreach Hexec Hi.
  destruct (exec_moves schedule _ _ (boot_moves cfg w0) Hreach) as [Hsys _].
  destruct (exec_moves schedule' _ _ Hsys Hexec) as [_ (Hini & _ & _ & Hbt)].
  split; [by apply Hini|exact Hbt].
Qed.

End Turns.

(** ** Shutdown joins the loops *)

Section Shutdown.

Context {W : Type} (respond : responder W).

(** [task.cancel()] on every handle, inside [stop_api]: the cancellations
    are answered by the event loop and leave the fields alone. *)
Lemma advance_cancel_each {A : Type} (F : res unit → res A) (l : list handle) s w ts :
  (∀ aw X (c : call X) s0 k, F (Calling aw c s0 k) = Calling aw c s0 (λ o s', F (k o s'))) →
  ∃ evs,
    adv_pause (advance respond (F (for_each l (λ task, invoke (task_cancel task);; mret tt) s))
                 w ts)
    = adv_pause (advance respond (F (Finished (Returns tt) s)) w (cancel_all l ts)) ∧
    adv_self (advance respond (F (for_each l (λ task, invoke (task_cancel task);; mret tt) s))
                 w ts)
    = adv_self (advance respond (F (Finished (Returns tt) s)) w (cancel_all l ts)) ∧
    adv_tasks (advance respond (F (for_each l (λ task, invoke (task_cancel task);; mret tt) s))
                 w ts)
    = adv_tasks (advance respond (F (Finished (Returns tt) s)) w (cancel_all l ts)) ∧
    adv_events (advance respond
                  (F (for_each l (λ task, invoke (task_cancel task);; mret tt) s)) w ts)
    = (evs ++ adv_events (advance respond (F (Finished (Returns tt) s)) w
                            (cancel_all l ts)))%list.
Proof.
  intros HF. revert ts. induction l as [|h l IH]; intros ts.
  - exists []. done.
  - assert (Hcons :
              for_each (h :: l) (λ task, invoke (task_cancel task);; mret tt) s
              = Calling false (task_cancel h) s
                  (λ (o : outcome bool) s',
                     res_bind (res_bind (Finished o s') (λ _, mret tt))
                       (λ _, for_each l (λ task, invoke (task_cancel task);; mret tt))))
      by reflexivity.
    rewrite Hcons, HF. clear Hcons. cbn [advance].
    assert (∃ b, plain_call respond (task_cancel h) w ts = (Returns b, w, cancel_all [h] ts))
      as (b & ->).
    { simpl. destruct (ts !! h) as [t|]; [destruct (terminated (t_status t))|]; eauto. }
    destruct (IH (cancel_all [h] ts)) as (evs & Hp & Hs & Ht & He).
    exists (Ev (task_cancel h) (Returns b) :: evs).
    cbn [adv_pause adv_self adv_tasks adv_events].
    split; [exact Hp|]. split; [exact Hs|]. split; [exact Ht|].
    rewrite <- app_comm_cons. f_equal. exact He.
Qed.

(** [stop_api], invoked: it runs up to its [gather]. *)
Lemma advance_stop_api s w ts :
  ∃ k, adv_pause (advance respond (op_coro op_stop_api s) w ts)
       = AtAwait (gather (elements (_background_tasks s))) k ∧
       adv_self (advance respond (op_coro op_stop_api s) w ts) = set_running false s ∧
       adv_tasks (advance respond (op_coro op_stop_api s) w ts)
       = cancel_all (elements (_background_tasks s)) ts ∧
       ∀ s', ∃ k', k (Returns tt) s' = Calling true server_stop s' k' ∧ finishes k'.
Proof.
  destruct s as [cfg lg ini rn mt bt st].
  pose (s1 := {| config := cfg; logger := lg; _initialized := ini; _running := false;
                 _metrics := mt; _background_tasks := bt; _start_time := st |}).
  pose (f1 := λ (_ : unit) (s2 : CogneeCore),
          Calling true (gather (elements (_background_tasks s2))) s2
            (λ o s', res_bind (Finished o s')
                       (λ _, await server_stop;; log INFO "Cognee API stopped" []))).
  pose (F := λ r : res unit,
          res_bind (res_try (res_bind r f1)
                      (λ e, log ERROR "Failed to stop API: {}" [A_exn e]))
            (λ _, mret V_none : coro op_value)).
  destruct (advance_cancel_each F (elements bt) s1 w ts) as (evs & Hp & Hs & Ht & _).
  { done. }
  change (op_coro op_stop_api
            {| config := cfg; logger := lg; _initialized := ini; _running := rn;
               _metrics := mt; _background_tasks := bt; _start_time := st |})
    with (F (for_each (elements bt) (λ task, invoke (task_cancel task);; mret tt) s1)).
  rewrite Hp, Hs, Ht. simpl. eexists. split; [reflexivity|]. split; [reflexivity|].
  split; [reflexivity|].
  intros s'. eexists. split; [reflexivity|].
  intros [[]|e] s''; simpl.
  - eexists _, _. split; [reflexivity|]. by destruct s''.
  - destruct (isinstance_Exception e); eexists _, _; (split; [reflexivity|]); by destruct s''.
Qed.









End Shutdown.

(** ** A loop that has ended *)

Section EndedLoops.

Context {W : Type} (respond : responder W).






End EndedLoops.

(** ** Cancellation *)

Lemma in_try_abortable name (b : res unit) :
  in_try b →
  abortable
    (res_bind (res_try b (λ e, log ERROR (loop_error_text name) [A_exn e]))
       (λ _, s ← get_self; await (asyncio_sleep (loop_interval name (config s))))).
Proof.
  induction b as [[[]|e] s|aw X c s k IH]; simpl.
  - intros _. done.
  - intros _. destruct (isinstance_Exception e) eqn:He; simpl; done.
  - intros (-> & Hc & Hraise & Hk). split.
    + intros e s' He. rewrite Hraise. simpl. by rewrite He.
    + intros o s'. apply IH, Hk.
Qed.

Lemma loop_iteration_abortable name s : abortable (loop_iteration name s).
Proof.
  destruct (loop_try_in_try name s) as (b & Hb & Htry).
  pose proof (in_try_abortable name b Htry) as H.
  unfold loop_iteration. unfold mbind at 1, coro_bind at 1. by rewrite Hb.
Qed.

(** What [cancel_all] does to a task: it keeps its name and its status, and
    leaves it with a cancellation pending if it had one, or if it is live
    and among the handles. *)
Lemma cancel_all_lookup l ts h t :
  cancel_all l ts !! h = Some t →
  ∃ t0, ts !! h = Some t0 ∧ t_name t = t_name t0 ∧ t_status t = t_status t0 ∧
        (t_must_cancel t0 = true → t_must_cancel t = true) ∧
        (h ∈ l → terminated (t_status t0) = false → t_must_cancel t = true).
Proof.
  revert ts. induction l as [|h0 l IH]; intros ts; simpl.
  - intros Ht. exists t. repeat split; try done. by intros ?%elem_of_nil.
  - intros Ht. destruct (IH _ Ht) as (t1 & Ht1 & Hn & Hs & Hc & Hl). clear IH Ht.
    destruct (ts !! h0) as [t0|] eqn:Ht0.
    + destruct (terminated (t_status t0)) eqn:Hend.
      * exists t1. repeat split; try done. intros [->|Hin]%elem_of_cons Hlive; [|by apply Hl].
        congruence.
      * destruct (decide (h = h0)) as [->|Hne].
        -- rewrite list_lookup_insert_eq in Ht1 by (by eapply lookup_lt_Some).
           injection Ht1 as <-. exists t0. simpl in *. repeat split; try done.
           ++ intros _. by apply Hc.
           ++ intros _ _. by apply Hc.
        -- rewrite list_lookup_insert_ne in Ht1 by done.
           exists t1. repeat split; try done.
           intros [->|Hin]%elem_of_cons Hlive; [done|by apply Hl].
    + exists t1. repeat split; try done.
      intros [->|Hin]%elem_of_cons Hlive; [congruence|by apply Hl].
Qed.

Section Cancellation.

Context {W : Type} (respond : responder W).

Lemma advance_tasks_Forall (P : task → Prop) {A : Type} (r : res A) w ts :
  (∀ name, P (new_task name)) → (∀ t, P t → P (request_cancel t)) →
  Forall P ts → Forall P (adv_tasks (advance respond r w ts)).
Proof.
  intros Hnew Hcancel. revert w ts.
  induction r as [o s|[] X c s k IH]; intros w ts Hts; simpl; try done.
  assert (Hp : Forall P (plain_call respond c w ts).2).
  { destruct c; simpl; try exact Hts.
    - apply Forall_app. split; [exact Hts|]. by apply Forall_singleton.
    - destruct (ts !! t) as [tk|] eqn:Ht; [|exact Hts].
      destruct (terminated (t_status tk)); [exact Hts|]. simpl.
      apply Forall_insert; [exact Hts|].
      apply Hcancel, (Forall_lookup_1 P _ _ _ Hts Ht). }
  destruct (plain_call respond c w ts) as [[o w'] ts']. simpl in *. by apply IH.
Qed.

Lemma advance_abortable (r : res unit) w ts :
  abortable r →
  match adv_pause (advance respond r w ts) with
  | Done _ => True
  | AtAwait _ k =>
      (∀ e s', isinstance_Exception e = false → k (Raises e) s' = Finished (Raises e) s') ∧
      (∀ o s', abortable (k o s'))
  end.
Proof.
  revert w ts. induction r as [o s|[] X c s k IH]; intros w ts; simpl; try done.
  intros [_ Hk]. destruct (plain_call respond c w ts) as [[o w'] ts']. simpl.
  apply IH, Hk.
Qed.

Lemma put_task_abortable h st (a : advanced unit W) evs (sys : system W) :
  Forall task_abortable (adv_tasks a) →
  (∀ t, task_abortable (with_status st t)) →
  Forall task_abortable (sys_tasks (put_task h st a evs sys)).
Proof.
  intros Hts Hst. simpl. apply Forall_alter; [exact Hts|]. intros t _ _. apply Hst.
Qed.

Lemma enter_loop_abortable h name s w ts evs (sys : system W) :
  Forall task_abortable ts →
  Forall task_abortable (sys_tasks (enter_loop respond h name s w ts evs sys)).
Proof.
  intros Hts. unfold enter_loop. destruct (_running s).
  - pose proof (advance_abortable (loop_iteration name s) w ts
                  (loop_iteration_abortable name s)) as Hp.
    apply put_task_abortable.
    + apply advance_tasks_Forall; [done| |done]. by intros [n [] b].
    + by destruct (adv_pause _) as [[[]|e]|X c k].
  - by apply put_task_abortable.
Qed.

Lemma sys_step_abortable ch (sys sys' : system W) :
  Forall task_abortable (sys_tasks sys) → sys_step respond ch sys = Some sys' →
  Forall task_abortable (sys_tasks sys').
Proof.
  intros Hts.
  assert (Hadv : ∀ A (r : res A) w,
             Forall task_abortable (adv_tasks (advance respond r w (sys_tasks sys)))).
  { intros. apply advance_tasks_Forall; [done| |done]. by intros [n [] b]. }
  destruct ch as [o| |h]; simpl.
  - unfold invoke_step. destruct (sys_main sys); [|done]. intros [= <-]. apply Hadv.
  - unfold main_step. destruct (sys_main sys) as [|o X c k]; [done|].
    destruct (awaited_outcome respond c (sys_world sys) (sys_tasks sys)) as [ow|];
      simpl; [|done].
    intros [= <-]. apply Hadv.
  - unfold task_step. destruct (sys_tasks sys !! h) as [t|] eqn:Ht; simpl; [|done].
    pose proof (Forall_lookup_1 task_abortable _ _ _ Hts Ht) as Hok.
    destruct t as [name st cancel]. unfold task_abortable in Hok. simpl in *.
    assert (Hresume : ∀ X (c : call X) k o w evs,
               (∀ o s', abortable (k o s')) →
               Forall task_abortable
                 (sys_tasks (resume_task respond h name c k o w evs sys))).
    { intros X c k o w evs Hk. unfold resume_task.
      pose proof (advance_abortable (k o (sys_self sys)) w (sys_tasks sys)
                    (Hk o (sys_self sys))) as Hp.
      destruct (adv_pause _) as [[[]|e]|X' c' k'].
      - apply enter_loop_abortable, Hadv.
      - apply put_task_abortable; [apply Hadv|done].
      - apply put_task_abortable; [apply Hadv|intros ?; exact Hp]. }
    destruct st as [|X c k| |e]; try done.
    + destruct cancel; intros [= <-].
      * by apply put_task_abortable.
      * by apply enter_loop_abortable.
    + destruct Hok as [_ Hk]. destruct cancel.
      * intros [= <-]. by apply Hresume.
      * destruct (awaited_outcome respond c (sys_world sys) (sys_tasks sys)) as [ow|];
          simpl; [|done].
        intros [= <-]. by apply Hresume.
Qed.

Lemma reachable_abortable cfg w0 schedule (sys : system W) :
  exec respond schedule (boot cfg w0) = Some sys → Forall task_abortable (sys_tasks sys).
Proof.
  assert (H : ∀ sys0 : system W,
             Forall task_abortable (sys_tasks sys0) →
             exec respond schedule sys0 = Some sys → Forall task_abortable (sys_tasks sys)).
  { induction schedule as [|ch schedule IH]; intros sys0 Hts; simpl.
    - by intros [= <-].
    - destruct (sys_step respond ch sys0) as [sys1|] eqn:Hstep; simpl; [|done].
      apply IH. by eapply sys_step_abortable. }
  apply H. apply Forall_nil_2.
Qed.

(** X26.  In every state the event loop can reach, a live task with a
    cancellation pending ends at its next turn: the [CancelledError]
    thrown into it, at the top of its loop or at the await where it
    stands, leaves the loop at once.  The task calls nothing, logs
    nothing and changes no field, and no other task is touched. *)
Theorem cancellation_ends_a_loop cfg w0 schedule (sys : system W) h t :
  exec respond schedule (boot cfg w0) = Some sys →
  sys_tasks sys !! h = Some t →
  terminated (t_status t) = false →
  t_must_cancel t = true →
  ∃ sys',
    sys_step respond (RunTask h) sys = Some sys' ∧
    sys_tasks sys'
    = <[h := {| t_name := t_name t; t_status := Failed CancelledError;
                t_must_cancel := false |}]> (sys_tasks sys) ∧
    sys_self sys' = sys_self sys ∧
    sys_world sys' = sys_world sys ∧
    sys_trace sys'
    = (sys_trace sys ++ match t_status t with
                        | Awaiting c _ => [Ev c (Raises CancelledError)]
                        | _ => []
                        end)%list.
Proof.
  intros Hreach Ht Hlive Hcancel.
  pose proof (Forall_lookup_1 task_abortable _ _ _
                (reachable_abortable cfg w0 schedule sys Hreach) Ht) as Hok.
  assert (Halter : ∀ st, alter (with_status st) h (sys_tasks sys)
                         = <[h := {| t_name := t_name t; t_status := st;
                                     t_must_cancel := false |}]> (sys_tasks sys)).
  { intros st. apply list_eq. intros i. destruct (decide (i = h)) as [->|Hne].
    - rewrite list_lookup_alter_eq, Ht, list_lookup_insert_eq by (by eapply lookup_lt_Some).
      done.
    - by rewrite list_lookup_alter_ne, list_lookup_insert_ne. }
  simpl. unfold task_step. rewrite Ht. simpl.
  destruct t as [name st cancel]. unfold task_abortable in Hok. simpl in *. subst cancel.
  destruct st as [|X c k| |e]; try done.
  - eexists. split; [reflexivity|]. simpl. rewrite Halter. done.
  - destruct Hok as [Hraise _]. unfold resume_task.
    rewrite (Hraise CancelledError (sys_self sys) eq_refl). simpl.
    eexists. split; [reflexivity|]. simpl. rewrite Halter. done.
Qed.

(** X27.  [stop_api], invoked in any state of the event loop, runs up to
    its [gather] without giving a task a turn: [_running] is then false,
    the caller waits for the tasks of [_background_tasks], every task has
    kept its status, and every live task whose handle is in
    [_background_tasks] has a cancellation pending. *)
Theorem stop_api_cancels_live_loops (sys sys' : system W) :
  sys_step respond (Invoke op_stop_api) sys = Some sys' →
  _running (sys_self sys') = false ∧
  (∃ k, sys_main sys' = MainAwaiting op_stop_api
                          (gather (elements (_background_tasks (sys_self sys)))) k) ∧
  ∀ h t,
    sys_tasks sys' !! h = Some t →
    (∃ t0, sys_tasks sys !! h = Some t0 ∧ t_status t = t_status t0) ∧
    (h ∈ _background_tasks (sys_self sys) → terminated (t_status t) = false →
     t_must_cancel t = true).
Proof.
  simpl. unfold invoke_step. destruct (sys_main sys); [|done].
  intros [= <-].
  destruct (advance_stop_api respond (sys_self sys) (sys_world sys) (sys_tasks sys))
    as (k & Hp & Hself & Hts & _).
  simpl.
  change (_running (adv_self (advance respond (op_coro op_stop_api (sys_self sys))
                                (sys_world sys) (sys_tasks sys))) = false
          ∧ (∃ k0, match adv_pause (advance respond (op_coro op_stop_api (sys_self sys))
                                      (sys_world sys) (sys_tasks sys)) with
                   | Done _ => Idle
                   | AtAwait c k1 => MainAwaiting op_stop_api c k1
                   end
                   = MainAwaiting op_stop_api
                       (gather (elements (_background_tasks (sys_self sys)))) k0)
          ∧ ∀ h t,
              adv_tasks (advance respond (op_coro op_stop_api (sys_self sys))
                           (sys_world sys) (sys_tasks sys)) !! h = Some t →
              (∃ t0, sys_tasks sys !! h = Some t0 ∧ t_status t = t_status t0) ∧
              (h ∈ _background_tasks (sys_self sys) → terminated (t_status t) = false →
               t_must_cancel t = true)).
  rewrite Hp, Hself, Hts. split; [by destruct (sys_self sys)|]. split; [eauto|].
  intros h t Ht. destruct (cancel_all_lookup _ _ _ _ Ht) as (t0 & Ht0 & _ & Hs & _ & Hl).
  split; [eauto|]. intros Hh Hlive. apply Hl; [by apply elem_of_elements|by rewrite <- Hs].
Qed.

End Cancellation.

(** ** The package entry points *)


(** ** Packaging *)

Lemma lstrip_first s a : first_char (lstrip s) = Some a → isspace a = false.
Proof.
  induction s as [|b s IH]; simpl; [done|].
  destruct (isspace b) eqn:Hb; [exact IH|]. simpl. by intros [= <-].
Qed.

Lemma rstrip_last s a : last_char (rstrip s) = Some a → isspace a = false.
Proof.
  revert a. induction s as [|b s IH]; intros a; simpl; [done|].
  destruct (rstrip s) as [|c t] eqn:Hr.
  - destruct (isspace b) eqn:Hb; simpl; [done|]. by intros [= <-].
  - simpl. apply IH.
Qed.

Lemma rstrip_first s a : first_char (rstrip s) = Some a → first_char s = Some a.
Proof.
  destruct s as [|b s]; simpl; [done|].
  destruct (rstrip s) as [|c t]; [|done]. by destruct (isspace b).
Qed.

Lemma last_char_nonempty s a : first_char s = Some a → ∃ b, last_char s = Some b.
Proof.
  revert a. induction s as [|c s IH]; intros a; simpl; [done|]. intros _.
  destruct s as [|d t]; [eauto|]. by apply (IH d).
Qed.

Lemma lstrip_indented s a :
  first_char (lstrip s) = Some a → first_char s ≠ Some a →
  ∃ b, first_char s = Some b ∧ isspace b = true.
Proof.
  destruct s as [|b s]; simpl; [done|].
  destruct (isspace b) eqn:Hb; [eauto|]. simpl. by intros [= ->] [].
Qed.

Lemma requirements_of_spec lines :
  (∀ x, x ∈ requirements_of lines →
     (∃ a b, first_char x = Some a ∧ isspace a = false ∧
             last_char x = Some b ∧ isspace b = false) ∧
     ∃ line, line ∈ lines ∧ x = strip line ∧ is_comment line = false ∧
             (is_comment x = true → ∃ c, first_char line = Some c ∧ isspace c = true)) ∧
  (∀ line, line ∈ lines → strip line ≠ EmptyString → is_comment line = false →
           strip line ∈ requirements_of lines).
Proof.
  unfold requirements_of. split.
  - intros x Hx. apply list_elem_of_fmap in Hx as (line & -> & Hline).
    apply list_elem_of_filter in Hline as [Hkeep Hline].
    apply andb_true_iff in Hkeep as [Hne Hc]. apply negb_true_iff in Hc.
    split.
    + destruct (first_char (strip line)) as [a|] eqn:Ha;
        [|by destruct (strip line)].
      destruct (last_char_nonempty (strip line) a Ha) as [b Hb].
      exists a, b. split; [done|]. split.
      * eapply lstrip_first, rstrip_first, Ha.
      * split; [done|]. eapply rstrip_last, Hb.
    + exists line. split; [done|]. split; [done|]. split; [done|].
      intros Hx. destruct (first_char (strip line)) as [a|] eqn:Ha; [|by destruct (strip line)].
      assert (a = "#"%char) as ->.
      { destruct (strip line); simpl in *; [done|]. injection Ha as <-.
        by apply Ascii.eqb_eq. }
      apply rstrip_first in Ha. eapply lstrip_indented; [exact Ha|].
      intros Hfirst. destruct line as [|c line]; simpl in *; [done|].
      injection Hfirst as ->. done.
  - intros line Hline Hne Hc. apply list_elem_of_fmap. exists line. split; [done|].
    apply list_elem_of_filter. split; [|done].
    rewrite Hc. simpl. rewrite andb_true_r. by destruct (strip line).
Qed.

(** X23.  [read_requirements] raises exactly when [open], the iteration
    over the file or the closing of the file raises, and then with that
    exception (the one of [close] if both the iteration and [close] raise).
    Otherwise every entry it returns is a line of the file stripped of the
    whitespace around it: it is not empty, and it neither begins nor ends
    with whitespace.  A line is left out exactly when it is blank or has
    [#] as its very first character; so an entry begins with [#] only if
    its line was an indented comment, and such lines are kept. *)
Theorem read_requirements_keeps_trimmed_lines open_file filename :
  match open_file filename with
  | Raises e => read_requirements open_file filename = Raises e
  | Returns f =>
      match f_close f, f_lines f with
      | Raises e, _ => read_requirements open_file filename = Raises e
      | Returns _, Raises e => read_requirements open_file filename = Raises e
      | Returns _, Returns lines =>
          ∃ requirements,
            read_requirements open_file filename = Returns requirements ∧
            (∀ x, x ∈ requirements →
               (∃ a b, first_char x = Some a ∧ isspace a = false ∧
                       last_char x = Some b ∧ isspace b = false) ∧
               ∃ line, line ∈ lines ∧ x = strip line ∧ is_comment line = false ∧
                       (is_comment x = true →
                        ∃ c, first_char line = Some c ∧ isspace c = true)) ∧
            (∀ line, line ∈ lines → strip line ≠ EmptyString → is_comment line = false →
                     strip line ∈ requirements)
      end
  end.
Proof.
  unfold read_requirements. destruct (open_file filename) as [[[lines|e] [[]|e']]|e]; simpl;
    try reflexivity.
  exists (requirements_of lines). split; [reflexivity|]. apply requirements_of_spec.
Qed.

(** ** More runs on concrete inputs *)


(** X4, on a run: the cache refuses the knowledge after the node was added; the
    node stays in the graph and the document is not counted. *)
Lemma add_knowledge_failure_witness :
  xvalue (xrun xsim_respond (add_knowledge (K_str "hello") None xsim_self) xsim_cache_down)
  = Raises (Exception "cache unavailable") ∧
  xs_nodes (xworld_after
              (xrun xsim_respond (add_knowledge (K_str "hello") None xsim_self)
                 xsim_cache_down))
  = ["n0"] ∧
  processed_documents
    (_metrics (xself_after
                 (xrun xsim_respond (add_knowledge (K_str "hello") None xsim_self)
                    xsim_cache_down)))
  = 0.
Proof.
  assert (Hi : _initialized xsim_self = true) by (vm_compute; reflexivity).
  assert (Hv : xvalue (xrun xsim_respond (add_knowledge (K_str "hello") None xsim_self)
                         xsim_cache_down) = Raises (Exception "cache unavailable"))
    by (vm_compute; reflexivity).
  destruct (add_knowledge_failure xsim_respond (K_str "hello") None xsim_self xsim_cache_down
              (Exception "cache unavailable") Hi Hv) as (_ & Hm & _).
  split; [exact Hv|]. split; [vm_compute; reflexivity|]. by rewrite Hm.
Defined.

(** X5, on a fresh instance. *)
Lemma pipelines_require_initialize_witness :
  xvalue (xrun xsim_respond (add_knowledge (K_str "hello") None (CogneeCore_init sim_config))
            xsim_world)
  = Raises (RuntimeError "Cognee not initialized") ∧
  xvalue (xrun xsim_respond (get_insights "centrality" None (CogneeCore_init sim_config))
            xsim_world)
  = Raises (RuntimeError "Cognee not initialized").
Proof.
  destruct (pipelines_require_initialize xsim_respond sim_hash (CogneeCore_init sim_config)
              xsim_world eq_refl) as (Ha & _ & Hg).
  split; [by rewrite Ha|by rewrite Hg].
Defined.

(** X6, on a run: the timestamp is the clock reading. *)
Lemma get_insights_contract_witness :
  in_timestamp
    <$> match xvalue (xrun xsim_respond (get_insights "centrality" None xsim_self) xsim_world)
        with
        | Returns v => Some v
        | Raises _ => None
        end
  = Some 1000%Q ∧
  set_logger (logger xsim_self)
    (xself_after (xrun xsim_respond (get_insights "centrality" None xsim_self) xsim_world))
  = xsim_self.
Proof.
  assert (Hi : _initialized xsim_self = true) by (vm_compute; reflexivity).
  destruct (get_insights_contract xsim_respond "centrality" None xsim_self xsim_world Hi)
    as [_ Hs].
  split; [vm_compute; reflexivity|exact Hs].
Defined.

(** X13, on a run: the host profile cannot be detected. *)
Lemma initialize_survives_host_failure_witness :
  value (run sim_respond_hostless (initialize (CogneeCore_init sim_config_dynamic)) sim_world)
  = Returns true ∧
  config (self_after (run sim_respond_hostless
                        (initialize (CogneeCore_init sim_config_dynamic)) sim_world))
  = sim_config_dynamic.
Proof.
  destruct (initialize_survives_host_failure sim_respond_hostless
              (CogneeCore_init sim_config_dynamic) sim_world eq_refl)
    as (Hv & _ & Hc & _).
  - vm_compute; reflexivity.
  - vm_compute; reflexivity.
  - split; [exact Hv|exact Hc].
Defined.

(** X11, on a run: the embedding manager cannot be initialised. *)
Lemma aenter_hides_failed_initialize_witness :
  value (run sim_respond (__aenter__ (CogneeCore_init sim_config)) sim_broken) = Returns tt ∧
  _initialized (self_after (run sim_respond (__aenter__ (CogneeCore_init sim_config))
                              sim_broken)) = false.
Proof.
  destruct (aenter_hides_failed_initialize sim_respond (CogneeCore_init sim_config) sim_broken)
    as (_ & _ & _ & _ & H).
  destruct H as (Hv & Hi & _); [vm_compute; reflexivity|].
  split; [exact Hv|exact Hi].
Defined.

(** X15, on a run in which every poll returns. *)
Lemma metrics_iteration_refreshes_witness :
  length (trace (run sim_respond (_collect_metrics_try xsim_self) sim_world)) = 13%nat.
Proof.
  destruct (metrics_iteration_refreshes sim_respond xsim_self sim_world)
    as (_ & _ & _ & _ & H).
  rewrite H; [reflexivity|]. vm_compute; reflexivity.
Defined.

(** X18, on a run: the first turn of the metrics task after [start_api]. *)
Lemma turn_changes_only_its_fields_witness :
  loop_step (sys_self (sim_state sim_world schedule_started))
    (sys_self (sim_state sim_world (schedule_started ++ [RunTask 0]))).
Proof.
  assert (Hreach : exec sim_respond schedule_started (boot sim_config sim_world)
                   = Some (sim_state sim_world schedule_started))
    by (vm_compute; reflexivity).
  assert (Hstep : sys_step sim_respond (RunTask 0) (sim_state sim_world schedule_started)
                  = Some (sim_state sim_world (schedule_started ++ [RunTask 0])))
    by (vm_compute; reflexivity).
  exact (turn_changes_only_its_fields sim_respond sim_config sim_world schedule_started
           (sim_state sim_world schedule_started) (RunTask 0) _ Hreach Hstep).
Defined.

(** X19, on a run: after [initialize] and [start_api]. *)
Lemma running_implies_initialized_witness :
  _running (sys_self (sim_state sim_world schedule_started)) = true ∧
  _initialized (sys_self (sim_state sim_world schedule_started)) = true.
Proof.
  assert (Hreach : exec sim_respond schedule_started (boot sim_config sim_world)
                   = Some (sim_state sim_world schedule_started))
    by (vm_compute; reflexivity).
  assert (Hrun : _running (sys_self (sim_state sim_world schedule_started)) = true)
    by (vm_compute; reflexivity).
  destruct (running_implies_initialized sim_respond sim_config sim_world schedule_started
              (sim_state sim_world schedule_started) Hreach) as [Hi _].
  split; [exact Hrun|exact (Hi Hrun)].
Defined.

(** X20, on a run: [stop_api] is invoked on a running instance. *)
Lemma initialized_is_never_reset_witness :
  _running (sys_self (sim_state sim_world schedule_stopping)) = false ∧
  _initialized (sys_self (sim_state sim_world schedule_stopping)) = true.
Proof.
  assert (Hreach : exec sim_respond schedule_started (boot sim_config sim_world)
                   = Some (sim_state sim_world schedule_started))
    by (vm_compute; reflexivity).
  assert (Hexec : exec sim_respond [RunTask 1; Invoke op_stop_api]
                    (sim_state sim_world schedule_started)
                  = Some (sim_state sim_world schedule_stopping))
    by (vm_compute; reflexivity).
  assert (Hi : _initialized (sys_self (sim_state sim_world schedule_started)) = true)
    by (vm_compute; reflexivity).
  destruct (initialized_is_never_reset sim_respond sim_config sim_world schedule_started
              (sim_state sim_world schedule_started) [RunTask 1; Invoke op_stop_api]
              (sim_state sim_world schedule_stopping) Hreach Hexec Hi) as [Hi' _].
  split; [vm_compute; reflexivity|exact Hi'].
Defined.



(** X23, on a file of four lines: the comment in the first column and the
    blank line are left out, the indented comment is kept.  A file that is
    missing and a file that is not text make [read_requirements] raise. *)
Lemma read_requirements_keeps_trimmed_lines_witness :
  read_requirements sim_files "requirements.txt" = Returns ["req"; "#b"] ∧
  read_requirements sim_files "requirements-dev.txt" = Raises (Exception "no such file") ∧
  read_requirements sim_files "logo.png" = Raises (Exception "invalid start byte") ∧
  ∀ x, x ∈ ["req"; "#b"] → ∃ a, first_char x = Some a ∧ isspace a = false.
Proof.
  pose proof (read_requirements_keeps_trimmed_lines sim_files "requirements.txt") as Hok.
  pose proof (read_requirements_keeps_trimmed_lines sim_files "requirements-dev.txt")
    as Hmissing.
  pose proof (read_requirements_keeps_trimmed_lines sim_files "logo.png") as Hbinary.
  simpl in Hok, Hmissing, Hbinary.
  destruct Hok as (requirements & Hread & Hentries & _).
  split; [reflexivity|]. split; [exact Hmissing|]. split; [exact Hbinary|].
  intros x Hx.
  assert (Hin : x ∈ requirements).
  { assert (Hrun : read_requirements sim_files "requirements.txt" = Returns ["req"; "#b"])
      by reflexivity.
    rewrite Hrun in Hread. injection Hread as <-. exact Hx. }
  destruct (Hentries x Hin) as [(a & b & Ha & Hspace & _) _]. eauto.
Defined.

(** X24, on a run: the search index is offline. *)
Lemma query_knowledge_failure_witness :
  value (run sim_respond_searchless
           (query_knowledge sim_hash "x" None None (self_after sim_initialized)) sim_world)
  = Raises (Exception "index offline") ∧
  search_queries
    (_metrics (self_after
                 (run sim_respond_searchless
                    (query_knowledge sim_hash "x" None None (self_after sim_initialized))
                    sim_world)))
  = 0.
Proof.
  assert (Hi : _initialized (self_after sim_initialized) = true) by (vm_compute; reflexivity).
  assert (Hv : value (run sim_respond_searchless
                        (query_knowledge sim_hash "x" None None (self_after sim_initialized))
                        sim_world) = Raises (Exception "index offline"))
    by (vm_compute; reflexivity).
  destruct (query_knowledge_failure sim_hash sim_respond_searchless "x" None None
              (self_after sim_initialized) sim_world (Exception "index offline") Hi Hv)
    as (_ & Hm & _).
  split; [exact Hv|]. rewrite Hm. vm_compute; reflexivity.
Defined.


(** X26, on a run: [stop_api] has cancelled the health loop, asleep in an
    iteration; at its next turn the loop ends at that sleep. *)
Lemma cancellation_ends_a_loop_witness :
  ∃ sys',
    sys_step sim_respond (RunTask 1) (sim_state sim_world schedule_stopping) = Some sys' ∧
    phase_of <$> sys_tasks sys' !! 1%nat = Some (HasFailed CancelledError) ∧
    sys_self sys' = sys_self (sim_state sim_world schedule_stopping) ∧
    sys_world sys' = sys_world (sim_state sim_world schedule_stopping) ∧
    last (sys_trace sys') = Some (Ev (asyncio_sleep 30) (Raises CancelledError)).
Proof.
  assert (Hreach : exec sim_respond schedule_stopping (boot sim_config sim_world)
                   = Some (sim_state sim_world schedule_stopping))
    by (vm_compute; reflexivity).
  lazymatch eval vm_compute in (sys_tasks (sim_state sim_world schedule_stopping) !! 1%nat)
  with
  | Some ?t =>
      assert (Htask : sys_tasks (sim_state sim_world schedule_stopping) !! 1%nat = Some t)
        by (vm_compute; reflexivity);
      destruct (cancellation_ends_a_loop sim_respond sim_config sim_world schedule_stopping
                  (sim_state sim_world schedule_stopping) 1 t Hreach Htask eq_refl eq_refl)
        as (sys' & Hstep & Hts & Hself & Hw & Htr)
  end.
  exists sys'. split; [exact Hstep|]. split.
  { rewrite Hts, list_lookup_insert_eq by (vm_compute; lia). reflexivity. }
  split; [exact Hself|]. split; [exact Hw|].
  rewrite Htr. cbn [t_status]. apply last_snoc.
Defined.

(** X27, on a run: [stop_api] invoked while the health loop sleeps and the
    other two loops have not started; all three get a cancellation. *)
Lemma stop_api_cancels_live_loops_witness :
  _running (sys_self (sim_state sim_world schedule_stopping)) = false ∧
  phase_of <$> sys_tasks (sim_state sim_world schedule_stopping)
  = [NotStarted; Sleeping 30; NotStarted] ∧
  ∀ h t,
    sys_tasks (sim_state sim_world schedule_stopping) !! h = Some t →
    h ∈ _background_tasks (sys_self (sim_state sim_world (schedule_started ++ [RunTask 1]))) →
    terminated (t_status t) = false →
    t_must_cancel t = true.
Proof.
  assert (Hstep : sys_step sim_respond (Invoke op_stop_api)
                    (sim_state sim_world (schedule_started ++ [RunTask 1]))
                  = Some (sim_state sim_world schedule_stopping))
    by (vm_compute; reflexivity).
  destruct (stop_api_cancels_live_loops sim_respond _ _ Hstep) as (Hrun & _ & Hall).
  split; [exact Hrun|]. split; [vm_compute; reflexivity|].
  intros h t Ht. by destruct (Hall h t Ht) as [_ Hc].
Defined.
